(** * Sentinel: health-consensus core

    A shallow embedding of the consensus core of the Sentinel validator
    monitor, and the properties of it that the specification states.

    - [Collector]: the report ingress of [app.ts] ([POST /api/report]) and
      the aggregator of [services/AgentP2PService.ts].
    - [PeerNetwork]: [requestConsensus] of [p2p/PeerNetwork.ts].
    - [Probe]: [checkBeaconNodeHealth] / [performHealthCheck] of
      [monitoring/BeaconNodeMonitor.ts].
    - [Agent]: the reporting rules of [core/SentinelAgent.ts], and its
      answer to a peer's consensus request.
    - [ApiClient]: [sendReport] and [retryRequest] of [core/ApiClient.ts].
    - [Webhook]: [sendWebhook], [generateSignature] and [validateSignature]
      of [services/WebhookService.js].
    - [WebSocketService]: [broadcast] and [cleanup] of
      [services/WebSocketService.ts].

    Asynchronous code is embedded sequentially (one request, sweep or probe
    cycle at a time).  Storage (Prisma), the network and the clock are
    outside the program: they appear as an explicit environment.  A timer
    waits as Node's [setTimeout] does, 1 ms for a delay outside its range. *)

From Stdlib Require Import ZArith Lia.
From stdpp Require Import gmap strings list fin_maps pretty.

Set Default Proof Using "Type".

(** ** JavaScript values shared by the components *)

(** A possibly absent string-valued field is truthy when it is present and
    not the empty string. *)
Definition truthy (o : option string) : bool :=
  match o with
  | Some s => if decide (s = "") then false else true
  | None => false
  end.

(** [setTimeout(callback, after)] of Node: the callback runs [after] ms
    later when [1 <= after <= TIMEOUT_MAX], and 1 ms later for any other
    delay ([if (!(after >= 1 && after <= TIMEOUT_MAX)) after = 1] in
    lib/internal/timers.js).  [setTimeout after] is the time waited. *)
Definition TIMEOUT_MAX : Z := 2 ^ 31 - 1.

Definition setTimeout (after : Z) : Z :=
  if decide (1 ≤ after ≤ TIMEOUT_MAX)%Z then after else 1%Z.

(** [enum ReportStatus] of AgentP2PService.ts. *)
Inductive ReportStatus := HEALTHY | UNHEALTHY | CONSENSUS_REACHED | CONSENSUS_FAILED.

#[global] Instance ReportStatus_eq_dec : EqDecision ReportStatus.
Proof. solve_decision. Defined.

(** [enum AlertStatus] of AgentP2PService.ts. *)
Inductive AlertStatus := PENDING | ACKNOWLEDGED | RESOLVED.

#[global] Instance AlertStatus_eq_dec : EqDecision AlertStatus.
Proof. solve_decision. Defined.

Module Collector.

(** *** Storage rows (the Prisma models the core touches) *)

Record Agent := mkAgent {
  agent_id : string;
  agent_apiKey : string;
  agent_isActive : bool;
  agent_validatorId : option string;
  agent_lastSeen : option Z
}.

Record Validator := mkValidator {
  val_id : string;
  val_name : string;
  val_userId : string;
  val_isActive : bool
}.

(** [interface AgentReport]; also the shape of a stored report row. *)
Record AgentReport := mkReport {
  rep_id : string;
  rep_agentId : string;
  rep_validatorId : option string;
  rep_status : ReportStatus;
  rep_message : option string;
  rep_signature : option string;
  rep_consensus : bool;
  rep_createdAt : Z
}.

Record Alert := mkAlert {
  alert_id : string;
  alert_validatorId : string;
  alert_userId : string;
  alert_message : string;
  alert_status : AlertStatus;
  alert_createdAt : Z
}.

Record WebhookConfig := mkWebhook {
  wh_id : string;
  wh_userId : string;
  wh_url : string;
  wh_secret : option string;
  wh_events : list string;
  wh_isActive : bool
}.

Record Db := mkDb {
  agents : gmap string Agent;
  validators : gmap string Validator;
  agentReports : list AgentReport;
  alerts : list Alert;
  webhookConfigs : list WebhookConfig;
  nextId : nat
}.

(** [interface ConsensusData]: one consensus window. *)
Record ConsensusData := mkConsensus {
  cd_validatorId : string;
  cd_status : ReportStatus;
  cd_reports : list AgentReport;
  cd_consensusReached : bool;
  cd_threshold : Z
}.

(** *** The environment *)

(** The call sites of the storage client, one constructor per call. *)
Inductive PrismaOp :=
| AgentFindUnique        (* app.ts: prisma.agent.findUnique *)
| AgentReportCreate      (* app.ts: prisma.agentReport.create *)
| AgentUpdateIngress     (* app.ts: prisma.agent.update *)
| AgentUpdateAggregator  (* processReport: prisma.agent.update *)
| ValidatorFindUnique    (* reachConsensus: prisma.validator.findUnique *)
| AlertCreate            (* reachConsensus: prisma.alert.create *)
| ReportsMarkReached     (* reachConsensus: prisma.agentReport.updateMany *)
| ReportsMarkCancelled   (* cancelConsensus: prisma.agentReport.updateMany *)
| ReportsMarkAged        (* cleanupOldConsensus: prisma.agentReport.updateMany *)
| WebhookFindMany        (* triggerWebhooks: prisma.webhookConfig.findMany *).

(** What the program cannot decide: which storage calls fail, which
    webhook deliveries fail, and the primary keys storage hands out. *)
Record Env := mkEnv {
  storageFails : PrismaOp -> bool;
  webhookDelivers : string -> bool;
  genId : nat -> string
}.

(** *** Observable output *)

Inductive WsExtra :=
| ExtraConsensusUpdate (totalReports unhealthyReports : nat) (threshold : Z)
                       (consensusReached : bool)
| ExtraUnhealthy (alertId : string) (reportCount : nat)
| ExtraConsensusCancelled.

Inductive ConsoleLine :=
| LogProcessingReport (agentId : string) (status : ReportStatus)
| ErrProcessingReport
| ErrValidatorNotFound (validatorId : string)
| LogConsensusReached (validatorName alertId : string)
| ErrReachingConsensus
| LogConsensusCancelled (validatorId : string)
| ErrTriggeringWebhook (webhookId : string)
| ErrFetchingWebhooks
| ErrCleanup
| LogCleanedUp (key : string)
| ErrIngress.

Inductive Effect :=
| WsValidatorUpdate (validatorId status : string) (extra : WsExtra)
| WsAlertNotification (a : Alert)
| WebhookSent (webhookId event : string) (delivered : bool)
| Console (l : ConsoleLine).

(** *** The collector process *)

Record World := mkWorld {
  db : Db;
  env : Env;
  now : Z;                                       (* new Date(), in ms *)
  consensusThreshold : Z;                        (* this.consensusThreshold *)
  activeConsensus : gmap string ConsensusData;   (* this.activeConsensus *)
  reportHistory : gmap string (list Z);          (* this.reportHistory *)
  effects : list Effect                          (* oldest first *)
}.

Definition set_db (f : Db -> Db) (w : World) : World :=
  mkWorld (f (db w)) (env w) (now w) (consensusThreshold w)
          (activeConsensus w) (reportHistory w) (effects w).

Definition set_activeConsensus
    (f : gmap string ConsensusData -> gmap string ConsensusData) (w : World) : World :=
  mkWorld (db w) (env w) (now w) (consensusThreshold w)
          (f (activeConsensus w)) (reportHistory w) (effects w).

Definition set_reportHistory
    (f : gmap string (list Z) -> gmap string (list Z)) (w : World) : World :=
  mkWorld (db w) (env w) (now w) (consensusThreshold w)
          (activeConsensus w) (f (reportHistory w)) (effects w).

Definition emit (e : Effect) (w : World) : World :=
  mkWorld (db w) (env w) (now w) (consensusThreshold w)
          (activeConsensus w) (reportHistory w) (effects w ++ [e]).

Definition set_now (t : Z) (w : World) : World :=
  mkWorld (db w) (env w) t (consensusThreshold w)
          (activeConsensus w) (reportHistory w) (effects w).

Definition set_agents (f : gmap string Agent -> gmap string Agent) (d : Db) : Db :=
  mkDb (f (agents d)) (validators d) (agentReports d) (alerts d)
       (webhookConfigs d) (nextId d).

Definition set_agentReports (f : list AgentReport -> list AgentReport) (d : Db) : Db :=
  mkDb (agents d) (validators d) (f (agentReports d)) (alerts d)
       (webhookConfigs d) (nextId d).

Definition set_alerts (f : list Alert -> list Alert) (d : Db) : Db :=
  mkDb (agents d) (validators d) (agentReports d) (f (alerts d))
       (webhookConfigs d) (nextId d).

Definition bump_nextId (d : Db) : Db :=
  mkDb (agents d) (validators d) (agentReports d) (alerts d)
       (webhookConfigs d) (S (nextId d)).

(** *** A state-and-exception monad for async functions

    A computation runs on the world and either returns or throws; the world
    it leaves behind is kept in both cases, as a JavaScript [catch] block
    sees every mutation made before the throw. *)

Inductive Outcome (A : Type) :=
| Ok (a : A)
| Throw (e : string).
Arguments Ok {A} a.
Arguments Throw {A} e.

Definition M (A : Type) : Type := World -> Outcome A * World.

Definition ret {A} (a : A) : M A := fun w => (Ok a, w).

Definition bind {A B} (m : M A) (k : A -> M B) : M B :=
  fun w => match m w with
           | (Ok a, w') => k a w'
           | (Throw e, w') => (Throw e, w')
           end.

Definition throw {A} (e : string) : M A := fun w => (Throw e, w).

Definition try_catch {A} (m : M A) (handler : string -> M A) : M A :=
  fun w => match m w with
           | (Ok a, w') => (Ok a, w')
           | (Throw e, w') => handler e w'
           end.

Definition get : M World := fun w => (Ok w, w).

Definition modify (f : World -> World) : M unit := fun w => (Ok tt, f w).

Definition tell (e : Effect) : M unit := modify (emit e).

Declare Scope js_scope.
Delimit Scope js_scope with js.
Notation "x <- m ;; k" := (bind m (fun x => k))
  (at level 100, m at next level, k at level 200, right associativity) : js_scope.
Notation "m ;; k" := (bind m (fun _ => k))
  (at level 100, k at level 200, right associativity) : js_scope.
Open Scope js_scope.

(** [for (const x of xs) { body x }] *)
Fixpoint for_each {A} (xs : list A) (body : A -> M unit) : M unit :=
  match xs with
  | [] => ret tt
  | x :: xs' => body x ;; for_each xs' body
  end.

(** *** The storage client *)

Definition prisma (op : PrismaOp) : M unit :=
  fun w => if storageFails (env w) op
           then (Throw "storage failure", w)
           else (Ok tt, w).

(** [prisma.agent.findUnique({where: {id}, include: {validator}})] *)
Definition agent_findUnique (id : string) : M (option (Agent * option Validator)) :=
  prisma AgentFindUnique ;;
  w <- get ;;
  ret (match agents (db w) !! id with
       | None => None
       | Some a =>
           Some (a, match agent_validatorId a with
                    | Some v => validators (db w) !! v
                    | None => None
                    end)
       end).

(** [prisma.agentReport.create]: the row gets a fresh id, [consensus]
    false and [createdAt] now. *)
Definition agentReport_create (agentId validatorId : string) (status : ReportStatus)
    (message signature : option string) : M AgentReport :=
  prisma AgentReportCreate ;;
  w <- get ;;
  let row := mkReport (genId (env w) (nextId (db w))) agentId (Some validatorId)
                      status message signature false (now w) in
  modify (set_db (fun d => bump_nextId (set_agentReports (fun rs => rs ++ [row]) d))) ;;
  ret row.

(** [prisma.agent.update({where: {id}, data: {lastSeen: new Date()}})]:
    updating a row that does not exist throws. *)
Definition touch_lastSeen (t : Z) (a : Agent) : Agent :=
  mkAgent (agent_id a) (agent_apiKey a) (agent_isActive a) (agent_validatorId a)
          (Some t).

Definition agent_update_lastSeen (op : PrismaOp) (id : string) : M unit :=
  prisma op ;;
  w <- get ;;
  match agents (db w) !! id with
  | None => throw "Record to update not found"
  | Some _ => modify (set_db (set_agents (alter (touch_lastSeen (now w)) id)))
  end.

Definition validator_findUnique (id : string) : M (option Validator) :=
  prisma ValidatorFindUnique ;;
  w <- get ;;
  ret (validators (db w) !! id).

Definition alert_create (validatorId userId message : string) : M Alert :=
  prisma AlertCreate ;;
  w <- get ;;
  let a := mkAlert (genId (env w) (nextId (db w))) validatorId userId message
                   PENDING (now w) in
  modify (set_db (fun d => bump_nextId (set_alerts (fun l => l ++ [a]) d))) ;;
  ret a.

Definition update_where (ids : list string) (f : AgentReport -> AgentReport)
    (rows : list AgentReport) : list AgentReport :=
  map (fun r => if decide (rep_id r ∈ ids) then f r else r) rows.

(** [prisma.agentReport.updateMany({where: {id: {in: ids}}, data})] *)
Definition agentReport_updateMany (op : PrismaOp) (ids : list string)
    (f : AgentReport -> AgentReport) : M unit :=
  prisma op ;;
  modify (set_db (set_agentReports (update_where ids f))).

Definition with_status (s : ReportStatus) (r : AgentReport) : AgentReport :=
  mkReport (rep_id r) (rep_agentId r) (rep_validatorId r) s (rep_message r)
           (rep_signature r) (rep_consensus r) (rep_createdAt r).

Definition mark_reached (r : AgentReport) : AgentReport :=
  mkReport (rep_id r) (rep_agentId r) (rep_validatorId r) CONSENSUS_REACHED
           (rep_message r) (rep_signature r) true (rep_createdAt r).

(** [prisma.webhookConfig.findMany]: active configurations of the user
    whose [events] contain the event. *)
Definition webhookConfig_findMany (userId event : string) : M (list WebhookConfig) :=
  prisma WebhookFindMany ;;
  w <- get ;;
  ret (filter (fun h => wh_userId h = userId ∧ wh_isActive h = true ∧ event ∈ wh_events h)
              (webhookConfigs (db w))).

(** *** The aggregator: AgentP2PService.ts

    The methods take a [ConsensusData] object that is always the entry of
    [activeConsensus] under [validator_<id>]; they mutate it in place.  The
    embedding names the object by its key and writes to the map entry. *)

Definition consensusKey (validatorId : string) : string :=
  "validator_" +:+ validatorId.

Definition set_reports (rs : list AgentReport) (cd : ConsensusData) : ConsensusData :=
  mkConsensus (cd_validatorId cd) (cd_status cd) rs (cd_consensusReached cd)
              (cd_threshold cd).

Definition set_consensusReached (b : bool) (cd : ConsensusData) : ConsensusData :=
  mkConsensus (cd_validatorId cd) (cd_status cd) (cd_reports cd) b (cd_threshold cd).

(** [webhookService.sendWebhook(...)] as the aggregator sees it: the
    delivery resolves or rejects. *)
Definition sendWebhook_call (h : WebhookConfig) (event : string) : M unit :=
  w <- get ;;
  tell (WebhookSent (wh_id h) event (webhookDelivers (env w) (wh_id h))) ;;
  if webhookDelivers (env w) (wh_id h) then ret tt
  else throw "webhook delivery failed".

(** The body of the loop of [triggerWebhooks] for one configuration. *)
Definition triggerWebhook (event : string) (webhook : WebhookConfig) : M unit :=
  try_catch
    (if decide (event ∈ wh_events webhook)
     then sendWebhook_call webhook event
     else ret tt)
    (fun _ => tell (Console (ErrTriggeringWebhook (wh_id webhook)))).

Definition triggerWebhooks (userId event : string) : M unit :=
  try_catch
    (webhooks <- webhookConfig_findMany userId event ;;
     for_each webhooks (triggerWebhook event))
    (fun _ => tell (Console ErrFetchingWebhooks)).

Definition alertMessage (validatorName : string) (reportCount : nat) : string :=
  "Validator " +:+ validatorName +:+
  " is unhealthy. Consensus reached with " +:+ pretty reportCount +:+
  " agent reports.".

Definition reachConsensus (key : string) : M unit :=
  modify (set_activeConsensus (alter (set_consensusReached true) key)) ;;
  try_catch
    (w <- get ;;
     match activeConsensus w !! key with
     | None => ret tt
     | Some consensusData =>
         found <- validator_findUnique (cd_validatorId consensusData) ;;
         match found with
         | None =>
             tell (Console (ErrValidatorNotFound (cd_validatorId consensusData)))
         | Some validator =>
             alert <- alert_create (cd_validatorId consensusData) (val_userId validator)
                        (alertMessage (val_name validator)
                                      (length (cd_reports consensusData))) ;;
             agentReport_updateMany ReportsMarkReached
               (map rep_id (cd_reports consensusData)) mark_reached ;;
             tell (WsValidatorUpdate (val_id validator) "unhealthy"
                     (ExtraUnhealthy (alert_id alert)
                                     (length (cd_reports consensusData)))) ;;
             tell (WsAlertNotification alert) ;;
             triggerWebhooks (val_userId validator) "validator.unhealthy" ;;
             tell (Console (LogConsensusReached (val_name validator) (alert_id alert)))
         end
     end)
    (fun _ => tell (Console ErrReachingConsensus)).

(** [resetConsensusTimer] has an empty body. *)
Definition resetConsensusTimer (key : string) : M unit := ret tt.

(** [reports.find(r => r.agentId === report.agentId)], then either the
    in-place update of the found entry (its [id] stays) or [push]. *)
Fixpoint upsert (report : AgentReport) (reports : list AgentReport) : list AgentReport :=
  match reports with
  | [] => [report]
  | r :: rest =>
      if decide (rep_agentId r = rep_agentId report)
      then mkReport (rep_id r) (rep_agentId r) (rep_validatorId r) (rep_status report)
                    (rep_message report) (rep_signature r) (rep_consensus r)
                    (rep_createdAt report) :: rest
      else r :: upsert report rest
  end.

Definition unhealthyReports (reports : list AgentReport) : list AgentReport :=
  filter (fun r => rep_status r = UNHEALTHY) reports.

Definition addReportToConsensus (key : string) (report : AgentReport) : M unit :=
  w <- get ;;
  match activeConsensus w !! key with
  | None => ret tt
  | Some consensusData =>
      let reports := upsert report (cd_reports consensusData) in
      modify (set_activeConsensus (alter (set_reports reports) key)) ;;
      let unhealthy := unhealthyReports reports in
      (if (cd_threshold consensusData <=? Z.of_nat (length unhealthy))%Z
          && negb (cd_consensusReached consensusData)
       then reachConsensus key
       else if (Z.of_nat (length unhealthy) <? cd_threshold consensusData)%Z
            then resetConsensusTimer key
            else ret tt) ;;
      w' <- get ;;
      tell (WsValidatorUpdate (cd_validatorId consensusData) "consensus_update"
              (ExtraConsensusUpdate (length reports) (length unhealthy)
                 (cd_threshold consensusData)
                 (match activeConsensus w' !! key with
                  | Some cd' => cd_consensusReached cd'
                  | None => cd_consensusReached consensusData
                  end)))
  end.

Definition initiateConsensus (initialReport : AgentReport) : M unit :=
  if truthy (rep_validatorId initialReport) then
    let validatorId := default "" (rep_validatorId initialReport) in
    let key := consensusKey validatorId in
    w <- get ;;
    match activeConsensus w !! key with
    | Some _ => addReportToConsensus key initialReport
    | None =>
        modify (set_activeConsensus
                  <[key := mkConsensus validatorId UNHEALTHY [initialReport] false
                                       (consensusThreshold w)]>) ;;
        addReportToConsensus key initialReport
    end
  else ret tt.

Definition cancelConsensus (validatorId : string) : M unit :=
  let key := consensusKey validatorId in
  w <- get ;;
  match activeConsensus w !! key with
  | None => ret tt
  | Some consensusData =>
      agentReport_updateMany ReportsMarkCancelled
        (map rep_id (cd_reports consensusData)) (with_status CONSENSUS_FAILED) ;;
      tell (WsValidatorUpdate validatorId "healthy" ExtraConsensusCancelled) ;;
      modify (set_activeConsensus (delete key)) ;;
      tell (Console (LogConsensusCancelled validatorId))
  end.

(** Keeps the last 100 time stamps per agent. *)
Definition addToReportHistory (agentId : string) : M unit :=
  w <- get ;;
  let reports := default [] (reportHistory w !! agentId) ++ [now w] in
  modify (set_reportHistory
            <[agentId := if decide (100 < length reports) then tail reports
                         else reports]>).

Definition processReport (report : AgentReport) : M unit :=
  try_catch
    (tell (Console (LogProcessingReport (rep_agentId report) (rep_status report))) ;;
     agent_update_lastSeen AgentUpdateAggregator (rep_agentId report) ;;
     (match rep_status report with
      | UNHEALTHY => initiateConsensus report
      | HEALTHY =>
          (* `validator_${undefined}` when the report has no validator *)
          cancelConsensus (default "undefined" (rep_validatorId report))
      | _ => ret tt
      end) ;;
     addToReportHistory (rep_agentId report))
    (fun _ => tell (Console ErrProcessingReport)).

Definition maxAge : Z := 10 * 60 * 1000.

(** The body of the loop of [cleanupOldConsensus] for one map entry.
    [reports[0]] of an empty array is [undefined], whose [createdAt] throws. *)
Definition cleanupEntry (entry : string * ConsensusData) : M unit :=
  let '(key, consensus) := entry in
  w <- get ;;
  match cd_reports consensus with
  | [] => throw "TypeError"
  | first :: _ =>
      let age := (now w - rep_createdAt first)%Z in
      if (maxAge <? age)%Z then
        try_catch
          (agentReport_updateMany ReportsMarkAged
             (map rep_id (cd_reports consensus)) (with_status CONSENSUS_FAILED))
          (fun _ => tell (Console ErrCleanup)) ;;
        modify (set_activeConsensus (delete key)) ;;
        tell (Console (LogCleanedUp key))
      else ret tt
  end.

Definition cleanupOldConsensus : M unit :=
  w <- get ;;
  for_each (map_to_list (activeConsensus w)) cleanupEntry.

(** *** The ingress: [app.post("/api/report", ...)] of app.ts *)

Record ReportRequest := mkRequest {
  req_agentId : option string;
  req_agentApiKey : option string;
  req_validatorId : option string;
  req_status : option string;
  req_message : option string;
  req_signature : option string
}.

Inductive ResponseBody :=
| ErrorBody (error : string)
| SuccessBody (reportId : string).   (* {success: true, reportId} *)

Record Response := mkResponse {
  res_status : Z;
  res_body : ResponseBody
}.

(** [allowedStatuses.includes(status)], with the enum value the string
    denotes. *)
Definition allowedStatus (status : string) : option ReportStatus :=
  if decide (status = "HEALTHY") then Some HEALTHY
  else if decide (status = "UNHEALTHY") then Some UNHEALTHY
  else if decide (status = "CONSENSUS_REACHED") then Some CONSENSUS_REACHED
  else if decide (status = "CONSENSUS_FAILED") then Some CONSENSUS_FAILED
  else None.

Definition postReport (req : ReportRequest) : M Response :=
  try_catch
    (match req_agentId req, req_agentApiKey req, req_validatorId req, req_status req with
     | Some agentId, Some agentApiKey, Some validatorId, Some status =>
         if negb (truthy (Some agentId) && truthy (Some agentApiKey)
                  && truthy (Some validatorId) && truthy (Some status))
         then ret (mkResponse 400
                (ErrorBody "agentId, agentApiKey, validatorId, and status are required"))
         else
         match allowedStatus status with
         | None => ret (mkResponse 400 (ErrorBody "Invalid status value"))
         | Some reportStatus =>
             found <- agent_findUnique agentId ;;
             match found with
             | None => ret (mkResponse 401 (ErrorBody "Invalid or inactive agent"))
             | Some (agent, validator) =>
                 if negb (agent_isActive agent)
                 then ret (mkResponse 401 (ErrorBody "Invalid or inactive agent"))
                 else if decide (agent_apiKey agent ≠ agentApiKey)
                 then ret (mkResponse 401 (ErrorBody "Agent API key mismatch"))
                 else
                 match validator with
                 | None =>
                     ret (mkResponse 403
                       (ErrorBody "Agent is not registered for the provided validator"))
                 | Some v =>
                     if decide (val_id v ≠ validatorId)
                     then ret (mkResponse 403
                       (ErrorBody "Agent is not registered for the provided validator"))
                     else if negb (val_isActive v)
                     then ret (mkResponse 403 (ErrorBody "Validator is inactive"))
                     else
                       report <- agentReport_create agentId validatorId reportStatus
                                   (req_message req) (req_signature req) ;;
                       agent_update_lastSeen AgentUpdateIngress agentId ;;
                       processReport report ;;
                       ret (mkResponse 200 (SuccessBody (rep_id report)))
                 end
             end
         end
     | _, _, _, _ =>
         ret (mkResponse 400
                (ErrorBody "agentId, agentApiKey, validatorId, and status are required"))
     end)
    (fun _ =>
       tell (Console ErrIngress) ;;
       ret (mkResponse 500 (ErrorBody "Internal server error"))).

(** *** Vocabulary of the statements about the collector *)

Definition add_effects (es : list Effect) (w : World) : World :=
  mkWorld (db w) (env w) (now w) (consensusThreshold w)
          (activeConsensus w) (reportHistory w) (effects w ++ es).

(** What the webhook dispatch may print or send. *)
Definition webhook_effect (e : Effect) : Prop :=
  match e with
  | WebhookSent _ _ _ => True
  | Console (ErrTriggeringWebhook _) => True
  | Console ErrFetchingWebhooks => True
  | _ => False
  end.

(** The parts of the world no request, report or sweep changes. *)
Definition static (w w' : World) : Prop :=
  env w' = env w ∧ now w' = now w ∧ consensusThreshold w' = consensusThreshold w ∧
  validators (db w') = validators (db w) ∧
  webhookConfigs (db w') = webhookConfigs (db w).

(** What the consensus steps of the aggregator leave alone: the agents,
    the report history and the identity of the stored reports. *)
Definition frame (w w' : World) : Prop :=
  static w w' ∧ agents (db w') = agents (db w) ∧
  reportHistory w' = reportHistory w ∧
  map rep_id (agentReports (db w')) = map rep_id (agentReports (db w)).

Definition alert_for (v : string) (a : Alert) : Prop :=
  alert_status a = PENDING ∧ alert_validatorId a = v.

(** The two storage calls that precede the creation of an alert succeed. *)
Definition storage_ok (w : World) : Prop :=
  storageFails (env w) ValidatorFindUnique = false ∧
  storageFails (env w) AlertCreate = false.

(** The consensus window of a validator, if one is open. *)
Definition window (v : string) (w : World) : option ConsensusData :=
  activeConsensus w !! consensusKey v.

(** The [consensusReached] latch of the validator's window. *)
Definition latched (v : string) (w : World) : bool :=
  match window v w with
  | Some cd => cd_consensusReached cd
  | None => false
  end.

(** The window stored under [validator_<v>] is the window of [v]. *)
Definition window_wf (v : string) (w : World) : Prop :=
  ∀ cd, window v w = Some cd → cd_validatorId cd = v.

(** The quorum transition: the latch of [v] is set by the step from [w]
    to [w']. *)
Definition transition (v : string) (w w' : World) : nat :=
  if negb (latched v w) && latched v w' then 1 else 0.

(** The aggregator processing a sequence of reports, one after the other. *)
Fixpoint processReports (rs : list AgentReport) (w : World) : World :=
  match rs with
  | [] => w
  | r :: rest => processReports rest (processReport r w).2
  end.

(** *** Vocabulary of the ingress contract, in the words of the specification *)

(** A required field is missing (absent or empty). *)
Definition missingField (req : ReportRequest) : Prop :=
  truthy (req_agentId req) && truthy (req_agentApiKey req)
  && truthy (req_validatorId req) && truthy (req_status req) = false.

(** The status is not one of the four enum values. *)
Definition badStatus (req : ReportRequest) : Prop :=
  match req_status req with
  | Some s => allowedStatus s = None
  | None => True
  end.

Definition malformed (req : ReportRequest) : Prop :=
  missingField req ∨ badStatus req.

Definition agentOf (req : ReportRequest) (w : World) : option Agent :=
  match req_agentId req with
  | Some id => agents (db w) !! id
  | None => None
  end.

(** Unknown agent, inactive agent, or API-key mismatch. *)
Definition authFails (req : ReportRequest) (w : World) : Prop :=
  match agentOf req w with
  | None => True
  | Some a => agent_isActive a = false ∨ Some (agent_apiKey a) ≠ req_agentApiKey req
  end.

Definition validatorOf (req : ReportRequest) (w : World) : option Validator :=
  match agentOf req w with
  | Some a =>
      match agent_validatorId a with
      | Some v => validators (db w) !! v
      | None => None
      end
  | None => None
  end.

(** The agent is not registered for the validator of the request, or that
    validator is inactive. *)
Definition scopeFails (req : ReportRequest) (w : World) : Prop :=
  match validatorOf req w with
  | None => True
  | Some v => Some (val_id v) ≠ req_validatorId req ∨ val_isActive v = false
  end.

(** The storage calls of the handler itself succeed. *)
Definition readOk (w : World) : Prop :=
  storageFails (env w) AgentFindUnique = false.

Definition ingressOk (w : World) : Prop :=
  readOk w ∧ storageFails (env w) AgentReportCreate = false ∧
  storageFails (env w) AgentUpdateIngress = false.

Definition console_effect (e : Effect) : Prop :=
  match e with
  | Console _ => True
  | _ => False
  end.

(** The row the handler stores for an accepted request, and the world in
    which it hands that row to the aggregator: the row is appended and the
    agent's [lastSeen] is now. *)
Definition acceptedRow (agentId validatorId : string) (status : ReportStatus)
    (req : ReportRequest) (w : World) : AgentReport :=
  mkReport (genId (env w) (nextId (db w))) agentId (Some validatorId) status
           (req_message req) (req_signature req) false (now w).

Definition acceptedWorld (agentId validatorId : string) (status : ReportStatus)
    (req : ReportRequest) (w : World) : World :=
  set_db (set_agents (alter (touch_lastSeen (now w)) agentId))
    (set_db (fun d => bump_nextId
               (set_agentReports
                  (fun rs => rs ++ [acceptedRow agentId validatorId status req w]) d))
            w).

(** The request is accepted: answered 200 with the id of the stored row,
    after the aggregator has processed that row. *)
Definition accepted (req : ReportRequest) (w : World) (res : Response) (w' : World) : Prop :=
  ∃ agentId validatorId s status,
    req_agentId req = Some agentId ∧ req_validatorId req = Some validatorId ∧
    req_status req = Some s ∧ allowedStatus s = Some status ∧
    res = mkResponse 200
            (SuccessBody (rep_id (acceptedRow agentId validatorId status req w))) ∧
    w' = (processReport (acceptedRow agentId validatorId status req w)
                        (acceptedWorld agentId validatorId status req w)).2.

(** The collector as a machine: it takes requests, its sweep timer fires,
    and time passes. *)
Inductive Event :=
| Request (req : ReportRequest)
| Sweep
| ClockTo (t : Z).

Definition step (w : World) (e : Event) : World :=
  match e with
  | Request req => (postReport req w).2
  | Sweep => (cleanupOldConsensus w).2
  | ClockTo t => set_now t w
  end.

Definition runEvents (w : World) (events : list Event) : World :=
  foldl step w events.

(** *** A small deployment, used for concrete runs

    Validator [v1] of user [u1], watched by the agents [a1], [a2] and [a3]
    that share the key [k]; one webhook; threshold 2; nothing fails. *)

Definition demoEnv : Env :=
  mkEnv (fun _ => false) (fun _ => true) (fun n => "id" +:+ pretty n).

Definition demoAgent (id : string) : Agent := mkAgent id "k" true (Some "v1") None.

Definition demoDb : Db :=
  mkDb (<["a1" := demoAgent "a1"]> (<["a2" := demoAgent "a2"]>
          (<["a3" := demoAgent "a3"]> ∅)))
       (<["v1" := mkValidator "v1" "Val" "u1" true]> ∅)
       [] []
       [mkWebhook "h1" "u1" "http://hooks.example/v1" (Some "s3cr3t")
                  ["validator.unhealthy"] true]
       0.

Definition demoWorld : World := mkWorld demoDb demoEnv 0 2 ∅ ∅ [].

Definition demoRequest (agentId status : string) : ReportRequest :=
  mkRequest (Some agentId) (Some "k") (Some "v1") (Some status) None None.

Definition demoReport (id agentId : string) (status : ReportStatus) : AgentReport :=
  mkReport id agentId (Some "v1") status None None false 0.

(** Two agents report [v1] unhealthy, which reaches the quorum of 2; more
    than ten minutes later the sweep runs. *)
Definition afterQuorum : World :=
  (postReport (demoRequest "a2" "UNHEALTHY")
     (postReport (demoRequest "a1" "UNHEALTHY") demoWorld).2).2.

Definition afterSweep : World :=
  (cleanupOldConsensus (set_now (maxAge + 1) afterQuorum)).2.

Definition demoReports : list AgentReport :=
  [demoReport "r1" "a1" UNHEALTHY; demoReport "r2" "a2" UNHEALTHY;
   demoReport "r3" "a3" UNHEALTHY].

(** The same deployment with a storage that refuses [alert.create]. *)
Definition alertFaultEnv : Env :=
  mkEnv (fun op => match op with AlertCreate => true | _ => false end)
        (fun _ => true) (fun n => "id" +:+ pretty n).

Definition alertFaultWorld : World := mkWorld demoDb alertFaultEnv 0 2 ∅ ∅ [].

(** A world in which [a1] alone has reported [v1] unhealthy. *)
Definition demoWindow : ConsensusData :=
  mkConsensus "v1" UNHEALTHY [demoReport "r1" "a1" UNHEALTHY] false 2.

Definition windowWorld : World :=
  set_activeConsensus <[consensusKey "v1" := demoWindow]> demoWorld.

(** *** Vocabulary of further statements about the aggregator *)

(** What a window must look like: it holds a report, at most one per agent,
    and every report in it is UNHEALTHY. *)
Definition window_ok (cd : ConsensusData) : Prop :=
  cd_reports cd ≠ [] ∧ NoDup (map rep_agentId (cd_reports cd)) ∧
  Forall (fun r => rep_status r = UNHEALTHY) (cd_reports cd).

(** A window as the aggregator keeps it: stored under the key of its
    validator, with the threshold of the service, and with its latch set
    exactly when it holds that many reports. *)
Definition window_inv (threshold : Z) (k : string) (cd : ConsensusData) : Prop :=
  k = consensusKey (cd_validatorId cd) ∧ window_ok cd ∧
  cd_threshold cd = threshold ∧
  cd_consensusReached cd = (threshold <=? Z.of_nat (length (cd_reports cd)))%Z.

Definition windows_ok (w : World) : Prop :=
  ∀ k cd, activeConsensus w !! k = Some cd →
          window_inv (consensusThreshold w) k cd.

(** The window of [v] after an UNHEALTHY report [r] has joined it: the
    report is upserted into the open window, or into a fresh one, and the
    latch is set once the UNHEALTHY reports reach the threshold. *)
Definition joined (r : AgentReport) (threshold : Z) (v : string)
    (old : option ConsensusData) : ConsensusData :=
  let cd := default (mkConsensus v UNHEALTHY [r] false threshold) old in
  let reports := upsert r (cd_reports cd) in
  mkConsensus (cd_validatorId cd) (cd_status cd) reports
    (cd_consensusReached cd
     || (cd_threshold cd <=? Z.of_nat (length (unhealthyReports reports)))%Z)
    (cd_threshold cd).

(** [processReport] gets past its [agent.update]: the agent row exists and
    the call does not fail. *)
Definition processed (r : AgentReport) (w : World) : Prop :=
  is_Some (agents (db w) !! rep_agentId r) ∧
  storageFails (env w) AgentUpdateAggregator = false.

(** The sweep's test on a window, at time [t]. *)
Definition expired (t : Z) (cd : ConsensusData) : bool :=
  match cd_reports cd with
  | [] => false
  | first :: _ => (maxAge <? t - rep_createdAt first)%Z
  end.

(** The webhook deliveries among some output: id and outcome, in order. *)
Definition deliveries (es : list Effect) : list (string * bool) :=
  omap (fun e => match e with
                 | WebhookSent id _ ok => Some (id, ok)
                 | _ => None
                 end) es.

(** What the dispatch loop writes for one configuration: the delivery, and
    the error line when it is rejected. *)
Definition webhookOutput (event : string) (e : Env) (h : WebhookConfig) : list Effect :=
  if webhookDelivers e (wh_id h)
  then [WebhookSent (wh_id h) event true]
  else [WebhookSent (wh_id h) event false; Console (ErrTriggeringWebhook (wh_id h))].

(** The configurations [triggerWebhooks] is handed by [findMany]. *)
Definition subscribed (userId event : string) (w : World) : list WebhookConfig :=
  filter (fun h => wh_userId h = userId ∧ wh_isActive h = true ∧ event ∈ wh_events h)
         (webhookConfigs (db w)).

(** [reports.push(new Date())] followed by the [shift] that keeps 100. *)
Definition pushed (t : Z) (l : list Z) : list Z :=
  if decide (100 < length (l ++ [t])) then tail (l ++ [t]) else l ++ [t].

(** Every agent's report history holds at most 100 time stamps. *)
Definition history_bounded (w : World) : Prop :=
  ∀ a l, reportHistory w !! a = Some l → length l ≤ 100.

(** The agents whose requests are among some events, and the number of
    distinct agents among some reports. *)
Definition requesters (events : list Event) : list string :=
  omap (fun e => match e with
                 | Request req => req_agentId req
                 | _ => None
                 end) events.

Definition distinct (ids : list string) : nat :=
  size (list_to_set ids : gset string).

(** The ids of the reports held by those of the windows [entries] that the
    sweep removes at [t]. *)
Definition expiredIds (t : Z) (entries : list (string * ConsensusData)) : list string :=
  filter (fun kc => expired t kc.2 = true) entries
    ≫= (fun kc => map rep_id (cd_reports kc.2)).

(** Every report held by a window comes from an agent of [S]. *)
Definition reporters_in (S : gset string) (w : World) : Prop :=
  ∀ k cd r, activeConsensus w !! k = Some cd → r ∈ cd_reports cd →
            rep_agentId r ∈ S.

(** The agents whose reports the window of [v] holds. *)
Definition windowAgents (v : string) (w : World) : list string :=
  match window v w with
  | Some cd => map rep_agentId (cd_reports cd)
  | None => []
  end.

(** The ids of the reports the window of [v] holds. *)
Definition windowIds (v : string) (w : World) : list string :=
  match window v w with
  | Some cd => map rep_id (cd_reports cd)
  | None => []
  end.



(** [getConsensusData] *)
Definition getConsensusData (validatorId : string) (w : World) : option ConsensusData :=
  activeConsensus w !! consensusKey validatorId.

End Collector.

(** ** The dashboard socket: services/WebSocketService.ts *)

Module WebSocketService.

(** [this.clients] is a [gmap string bool]: for every client id, whether
    [readyState] of its socket is [OPEN]. *)

(** One step of the [forEach] of [broadcast]: an open client is written
    to, any other is deleted from the map. *)
Definition broadcastStep (st : list string * gmap string bool) (c : string * bool)
    : list string * gmap string bool :=
  if c.2 then (st.1 ++ [c.1], st.2) else (st.1, delete c.1 st.2).

(** [broadcast(message)]: the clients written to, in order, and the map
    afterwards.  [sendValidatorUpdate], [sendAlertNotification],
    [sendAgentUpdate] and [sendToUser] all end in it. *)
Definition broadcast (clients : gmap string bool) : list string * gmap string bool :=
  foldl broadcastStep ([], clients) (map_to_list clients).

(** [cleanup()]: the number of dead clients, and the map afterwards. *)
Definition cleanup (clients : gmap string bool) : nat * gmap string bool :=
  let deadClients :=
    map fst (filter (fun c => c.2 ≠ true) (map_to_list clients)) in
  (length deadClients, foldl (fun m clientId => delete clientId m) clients deadClients).

(** [getConnectionCount()] *)
Definition getConnectionCount (clients : gmap string bool) : nat := size clients.

End WebSocketService.

(** ** The agent's probe: monitoring/BeaconNodeMonitor.ts *)

(** [HealthCheckResult["status"]]: ["HEALTHY" | "UNHEALTHY"]. *)
Inductive HealthStatus := StatusHealthy | StatusUnhealthy.

#[global] Instance HealthStatus_eq_dec : EqDecision HealthStatus.
Proof. solve_decision. Defined.

Module Probe.

(** [interface BeaconNodeStatus] *)
Record BeaconNodeStatus := mkBeaconStatus {
  isHealthy : bool;
  bs_responseTime : Z;
  blockHeight : option Z;
  bs_timestamp : Z;
  bs_error : option string
}.

(** [interface HealthCheckResult] *)
Record HealthCheckResult := mkHealthCheck {
  hc_validatorId : string;
  hc_status : HealthStatus;
  hc_responseTime : Z;
  hc_timestamp : Z;
  hc_error : option string;
  beaconStatus : option BeaconNodeStatus
}.

Record ProbeConfig := mkProbeConfig {
  validatorId : string;
  beaconNodeUrl : string;
  healthCheckTimeout : Z;
  healthCheckRetries : Z
}.

(** What the beacon node and the network do to one GET: a response with
    its status line, an [Error] (time-out, refused connection, ...), or a
    thrown value that is not an [Error].  [took] is the time the request
    takes, in ms. *)
Inductive HttpOutcome :=
| HttpResponse (status : Z) (statusText : string)
| NetworkError (message : string)
| ThrownValue.

Record Exchange := mkExchange {
  outcome : HttpOutcome;
  took : Z
}.

(** The GET of [/eth/v1/beacon/blocks/head]: it throws, or the slot is read
    from the body ([None] when the body has no [data]). *)
Inductive BlockOutcome :=
| BlockFetched (slot : option Z)
| BlockFailed.

Record Beacon := mkBeacon {
  health : nat -> Exchange;          (* the n-th GET of /eth/v1/node/health *)
  blockHead : BlockOutcome;
  blockHeadTook : Z
}.

(** What the probe does, in order. *)
Inductive Action :=
| GetHealth (attempt : nat)
| GetBlockHead
| Delay (ms : Z).

(** [axios.get(url, {validateStatus})]: a response whose status passes
    [validateStatus] is returned; any other is thrown as an [Error]. *)
Definition axios_get (validateStatus : Z -> bool) (o : HttpOutcome)
    : (Z * string) + option string :=
  match o with
  | HttpResponse status statusText =>
      if validateStatus status then inl (status, statusText)
      else inr (Some ("Request failed with status code " +:+ pretty status))
  | NetworkError message => inr (Some message)
  | ThrownValue => inr None
  end.

(** [error instanceof Error ? error : new Error("Unknown error")], as the
    message of the result. *)
Definition errorMessage (thrown : option string) : string :=
  default "Unknown error" thrown.

(** [lastError?.message || "Health check failed after all retries"] *)
Definition finalError (lastError : option string) : string :=
  match lastError with
  | Some message =>
      if decide (message = "") then "Health check failed after all retries"
      else message
  | None => "Health check failed after all retries"
  end.

Record Run := mkRun {
  result : BeaconNodeStatus;
  trace : list Action;
  finishedAt : Z
}.

(** The loop [for (attempt = 1; attempt <= maxRetries; attempt++)] of
    [checkBeaconNodeHealth], from iteration [attempt] with [remaining]
    iterations to go. *)
Fixpoint attempts (cfg : ProbeConfig) (b : Beacon) (remaining attempt : nat)
    (lastError : option string) (clock : Z) (done : list Action) : Run :=
  match remaining with
  | O =>
      mkRun (mkBeaconStatus false (healthCheckTimeout cfg) None clock
                            (Some (finalError lastError)))
            done clock
  | S remaining' =>
      let x := health b attempt in
      let clock1 := (clock + took x)%Z in
      let done1 := done ++ [GetHealth attempt] in
      match axios_get (fun status => (status <? 500)%Z) (outcome x) with
      | inl (status, statusText) =>
          if decide (status = 200%Z) then
            let clock2 := (clock1 + blockHeadTook b)%Z in
            mkRun (mkBeaconStatus true (took x)
                     (match blockHead b with
                      | BlockFetched slot => slot
                      | BlockFailed => None
                      end)
                     clock2 None)
                  (done1 ++ [GetBlockHead]) clock2
          else
            attempts cfg b remaining' (S attempt)
              (Some ("HTTP " +:+ pretty status +:+ ": " +:+ statusText))
              clock1 done1
      | inr thrown =>
          if decide (remaining' ≠ O) then
            attempts cfg b remaining' (S attempt) (Some (errorMessage thrown))
              (clock1 + 1000)%Z (done1 ++ [Delay 1000])
          else
            attempts cfg b remaining' (S attempt) (Some (errorMessage thrown))
              clock1 done1
      end
  end.

Definition checkBeaconNodeHealth (cfg : ProbeConfig) (b : Beacon) (clock : Z) : Run :=
  attempts cfg b (Z.to_nat (healthCheckRetries cfg)) 1 None clock [].

(** [performHealthCheck]; [checkBeaconNodeHealth] has no throwing path, so
    the [catch] branch of the source is not reached. *)
Definition performHealthCheck (cfg : ProbeConfig) (b : Beacon) (startTime : Z)
    : HealthCheckResult * list Action :=
  let run := checkBeaconNodeHealth cfg b startTime in
  (mkHealthCheck (validatorId cfg)
     (if isHealthy (result run) then StatusHealthy else StatusUnhealthy)
     (finishedAt run - startTime)%Z (finishedAt run) None (Some (result run)),
   trace run).

(** *** Vocabulary of the statements about the probe *)

(** The [n] attempts from [attempt] on all fail (none is answered 200). *)
Definition answered200 (x : Exchange) : Prop :=
  ∃ statusText, outcome x = HttpResponse 200 statusText.

(** The attempt throws: a status of 500 or more, or a transport error. *)
Definition throws (x : Exchange) : bool :=
  match axios_get (fun status => (status <? 500)%Z) (outcome x) with
  | inl _ => false
  | inr _ => true
  end.

(** The error string an attempt that is not answered 200 leaves in
    [lastError]. *)
Definition attemptError (x : Exchange) : string :=
  match axios_get (fun status => (status <? 500)%Z) (outcome x) with
  | inl (status, statusText) => "HTTP " +:+ pretty status +:+ ": " +:+ statusText
  | inr thrown => errorMessage thrown
  end.

(** The actions of the failed attempts [first], ..., [first + n - 1] of a
    probe of [total] attempts: a one-second delay follows an attempt that
    throws, unless it is the last one. *)
Fixpoint failedActions (b : Beacon) (total first n : nat) : list Action :=
  match n with
  | O => []
  | S n' =>
      GetHealth first ::
      (if throws (health b first) && negb (first =? total)%nat
       then [Delay 1000] else []) ++
      failedActions b total (S first) n'
  end.

Definition isGetHealth (a : Action) : bool :=
  match a with
  | GetHealth _ => true
  | _ => false
  end.

Definition isDelay (a : Action) : bool :=
  match a with
  | Delay _ => true
  | _ => false
  end.

Definition isGetBlockHead (a : Action) : bool :=
  match a with
  | GetBlockHead => true
  | _ => false
  end.

Definition count (p : Action -> bool) (actions : list Action) : nat :=
  length (filter (fun a => p a = true) actions).

(** A beacon that answers every health request with the same response. *)
Definition steadyBeacon (status : Z) (statusText : string) : Beacon :=
  mkBeacon (fun _ => mkExchange (HttpResponse status statusText) 5)
           (BlockFetched (Some 100%Z)) 3.

Definition demoProbeConfig : ProbeConfig :=
  mkProbeConfig "v1" "http://localhost:5052" 10000 3.

End Probe.

(** ** The peer network: p2p/PeerNetwork.ts *)

Module PeerNetwork.

(** [interface ConsensusRequest] (without the id, which the network adds) *)
Record ConsensusRequest := mkConsensusRequest {
  rq_validatorId : string;
  rq_agentId : string;
  rq_timestamp : Z;
  rq_evidence : list Probe.HealthCheckResult
}.

(** [interface ConsensusResponse] *)
Record ConsensusResponse := mkConsensusResponse {
  cr_validatorId : string;
  cr_consensusId : string;
  agree : bool;
  cr_agentId : string;
  requesterId : string;
  cr_timestamp : Z;
  cr_evidence : option Probe.HealthCheckResult
}.

(** [interface PeerInfo]; of the socket only [readyState === OPEN] matters. *)
Record PeerInfo := mkPeer {
  peer_id : string;
  peer_open : bool;
  peer_url : option string
}.

(** [interface ConsensusResult] *)
Record ConsensusResult := mkConsensusResult {
  consensusId : string;
  responses : list ConsensusResponse;
  agreeCount : nat;
  totalPeers : nat
}.

Record Network := mkNetwork {
  agentId : string;                     (* this.agentId *)
  peers : gmap string PeerInfo          (* this.peers *)
}.

(** What reaches the agent while it waits, each with its arrival time in ms
    after the request was broadcast. *)
Inductive WireEvent :=
| ResponseReceived (response : ConsensusResponse)
| PeerHello (peer : PeerInfo)
| PeerClosed (peerId : string).

(** [registerPeer]: a hello from the agent itself is ignored; a peer that
    registers again replaces its older entry. *)
Definition registerPeer (peer : PeerInfo) (n : Network) : Network :=
  if decide (peer_id peer = agentId n) then n
  else mkNetwork (agentId n) (<[peer_id peer := peer]> (delete (peer_id peer) (peers n))).

Definition closePeer (peerId : string) (n : Network) : Network :=
  mkNetwork (agentId n) (delete peerId (peers n)).

(** [responses.findIndex(res => res.agentId === response.agentId)], then
    [responses[existingIndex] = response] or [responses.push(response)]. *)
Fixpoint upsertResponse (response : ConsensusResponse)
    (responses : list ConsensusResponse) : list ConsensusResponse :=
  match responses with
  | [] => [response]
  | res :: rest =>
      if decide (cr_agentId res = cr_agentId response) then response :: rest
      else res :: upsertResponse response rest
  end.

(** The guard of [handler]. *)
Definition addressed (id self : string) (response : ConsensusResponse) : Prop :=
  cr_consensusId response = id ∧ requesterId response = self.

#[global] Instance addressed_dec id self response : Decision (addressed id self response).
Proof. unfold addressed. apply _. Defined.

(** The [handler] closure of [requestConsensus]. *)
Definition handler (id self : string) (response : ConsensusResponse)
    (responses : list ConsensusResponse) : list ConsensusResponse :=
  if decide (addressed id self response) then upsertResponse response responses
  else responses.

(** One event while the handler is subscribed. *)
Definition deliver (id : string) (e : WireEvent)
    (st : Network * list ConsensusResponse) : Network * list ConsensusResponse :=
  let '(n, responses) := st in
  match e with
  | ResponseReceived response => (n, handler id (agentId n) response responses)
  | PeerHello peer => (registerPeer peer n, responses)
  | PeerClosed peerId => (closePeer peerId n, responses)
  end.

(** One arrival while [requestConsensus] awaits its timer, which fires
    [fires] ms after the broadcast.  Before that the handler is subscribed
    and the sockets feed the peer map; once the timer has fired the handler
    is unsubscribed and the result has been built, so a later arrival
    changes nothing of it (a timer and an arrival due in the same
    millisecond are taken timer first, as the event loop runs its timers
    phase first). *)
Definition arrive (id : string) (fires : Z)
    (st : Network * list ConsensusResponse) (a : Z * WireEvent)
    : Network * list ConsensusResponse :=
  if decide (a.1 < fires)%Z then deliver id a.2 st else st.

(** [await new Promise((resolve) => setTimeout(resolve, timeoutMs))] *)
Definition awaitTimer (id : string) (fires : Z) (arrivals : list (Z * WireEvent))
    (st : Network * list ConsensusResponse) : Network * list ConsensusResponse :=
  foldl (arrive id fires) st arrivals.

Record RequestOutcome := mkOutcome {
  consensus : ConsensusResult;
  elapsed : Z;                          (* ms spent inside requestConsensus *)
  broadcastTo : list string;            (* the peers the request was sent to *)
  network : Network
}.

(** [requestConsensus(request, timeoutMs)].  [uuid] is what [randomUUID()]
    returns; [arrivals] is what the network delivers, in order of arrival,
    each with its time in ms after the broadcast. *)
Definition requestConsensus (n : Network) (uuid : string)
    (request : ConsensusRequest) (timeoutMs : Z)
    (arrivals : list (Z * WireEvent)) : RequestOutcome :=
  if decide (size (peers n) = 0) then
    mkOutcome (mkConsensusResult uuid [] 0 0) 0 [] n
  else
    let sentTo := map fst (filter (fun p => peer_open p.2 = true)
                                  (map_to_list (peers n))) in
    let fires := setTimeout timeoutMs in
    let '(n', collected) := awaitTimer uuid fires arrivals (n, []) in
    mkOutcome
      (mkConsensusResult uuid collected (length (filter (fun r => agree r = true) collected))
                         (size (peers n')))
      fires sentTo n'.

(** *** Vocabulary of the statements about the peer network *)

(** The events that arrive strictly less than [t] ms after the broadcast,
    oldest first. *)
Definition arrivedBefore (t : Z) (arrivals : list (Z * WireEvent)) : list WireEvent :=
  map snd (filter (fun a => (a.1 < t)%Z) arrivals).

(** The events delivered one after the other. *)
Definition waitFor (id : string) (events : list WireEvent)
    (st : Network * list ConsensusResponse) : Network * list ConsensusResponse :=
  foldl (fun st e => deliver id e st) st events.

(** The responses to this request among the events, oldest first. *)
Fixpoint addressedResponses (id self : string) (events : list WireEvent)
    : list ConsensusResponse :=
  match events with
  | [] => []
  | ResponseReceived response :: rest =>
      if decide (addressed id self response)
      then response :: addressedResponses id self rest
      else addressedResponses id self rest
  | _ :: rest => addressedResponses id self rest
  end.

(** The latest response of a peer in a list ordered oldest first. *)
Definition latestFrom (peer : string) (rs : list ConsensusResponse)
    : option ConsensusResponse :=
  last (filter (fun r => cr_agentId r = peer) rs).

(** The entry a peer has in the collected responses. *)
Definition keptFrom (peer : string) (rs : list ConsensusResponse)
    : option ConsensusResponse :=
  head (filter (fun r => cr_agentId r = peer) rs).

(** [broadcast]: the peers whose socket is open are written to. *)
Definition broadcast (n : Network) : list string :=
  map fst (filter (fun p => peer_open p.2 = true) (map_to_list (peers n))).

(** Every peer is stored under its own id, and the agent is not its own
    peer. *)
Definition peers_wf (n : Network) : Prop :=
  ∀ k p, peers n !! k = Some p → peer_id p = k ∧ k ≠ agentId n.

(** The agents that answered this request among the events. *)
Definition responders (id self : string) (events : list WireEvent) : gset string :=
  list_to_set (map cr_agentId (addressedResponses id self events)).

Definition demoNetwork : Network :=
  mkNetwork "a1" (<["a2" := mkPeer "a2" true None]>
                    (<["a3" := mkPeer "a3" true None]> ∅)).

Definition demoResponse (peer : string) (vote : bool) : ConsensusResponse :=
  mkConsensusResponse "v1" "uuid-1" vote peer "a1" 0 None.

Definition demoConsensusRequest : ConsensusRequest :=
  mkConsensusRequest "v1" "a1" 0 [].

End PeerNetwork.

(** ** The agent: core/SentinelAgent.ts *)

Module Agent.
Import Probe PeerNetwork.

Record Config := mkConfig {
  cfg_agentId : string;
  cfg_agentApiKey : string;
  cfg_validatorId : string;
  isP2PEnabled : bool;
  getConsensusThreshold : Z;
  getConsensusTimeout : Z
}.

(** [interface ReportPayload] *)
Record ReportPayload := mkPayload {
  pl_agentId : string;
  pl_validatorId : string;
  pl_status : HealthStatus;
  pl_message : string;
  pl_agentApiKey : string
}.

(** The fields of [SentinelAgent] the reporting rules use. *)
Record State := mkState {
  peerNetwork : option Network;
  lastHealthCheck : option HealthCheckResult;
  lastReportedStatus : option HealthStatus
}.

(** What one monitoring cycle meets outside the agent: the id and the
    deliveries of a consensus request, and whether the collector accepts a
    report ([apiClient.sendReport] resolves to [true] or [false]). *)
Record CycleEnv := mkCycleEnv {
  uuid : string;
  arrivals : list (Z * WireEvent);
  requestTime : Z;
  reportAccepted : bool
}.

Inductive Output :=
| SendReport (payload : ReportPayload)          (* POST /api/report *)
| ConsensusRequested (o : RequestOutcome)  (* requestConsensus returned *).

Definition sent (out : list Output) : list ReportPayload :=
  omap (fun o => match o with SendReport p => Some p | _ => None end) out.

(** [hasStatusChanged] *)
Definition hasStatusChanged (st : State) (currentStatus : HealthStatus) : bool :=
  match lastReportedStatus st with
  | None => true
  | Some s => if decide (s ≠ currentStatus) then true else false
  end.

Definition statusLowerCase (s : HealthStatus) : string :=
  match s with
  | StatusHealthy => "healthy"
  | StatusUnhealthy => "unhealthy"
  end.

(** [sendHealthReport] *)
Definition sendHealthReport (cfg : Config) (env : CycleEnv) (st : State)
    (healthResult : HealthCheckResult) : State * list Output :=
  let payload :=
    mkPayload (cfg_agentId cfg) (hc_validatorId healthResult) (hc_status healthResult)
              (if truthy (hc_error healthResult) then default "" (hc_error healthResult)
               else "Validator is " +:+ statusLowerCase (hc_status healthResult))
              (cfg_agentApiKey cfg) in
  (if reportAccepted env
   then mkState (peerNetwork st) (lastHealthCheck st) (Some (hc_status healthResult))
   else st,
   [SendReport payload]).

(** [confirmUnhealthyWithPeers]; [requestConsensus] has no throwing path,
    so the [catch] branch of the source is not reached. *)
Definition confirmUnhealthyWithPeers (cfg : Config) (env : CycleEnv) (st : State)
    (healthResult : HealthCheckResult) : bool * State * list Output :=
  match isP2PEnabled cfg, peerNetwork st with
  | true, Some n =>
      let threshold := getConsensusThreshold cfg in
      let o := requestConsensus n (uuid env)
                 (mkConsensusRequest (hc_validatorId healthResult) (cfg_agentId cfg)
                                     (requestTime env) [healthResult])
                 (getConsensusTimeout cfg) (arrivals env) in
      let st' := mkState (Some (network o)) (lastHealthCheck st) (lastReportedStatus st) in
      if decide (totalPeers (consensus o) = 0) then (true, st', [ConsensusRequested o])
      else
        let selfInclusiveAgreeCount := (Z.of_nat (agreeCount (consensus o)) + 1)%Z in
        ((threshold <=? selfInclusiveAgreeCount)%Z, st', [ConsensusRequested o])
  | _, _ => (true, st, [])
  end.

(** [handleHealthResult] *)
Definition handleHealthResult (cfg : Config) (env : CycleEnv) (st : State)
    (healthResult : HealthCheckResult) : State * list Output :=
  let shouldReportUnhealthy :=
    if decide (hc_status healthResult = StatusUnhealthy) then true else false in
  let statusChanged := hasStatusChanged st (hc_status healthResult) in
  if shouldReportUnhealthy then
    let '(consensusConfirmed, st1, out1) :=
      confirmUnhealthyWithPeers cfg env st healthResult in
    if negb consensusConfirmed then (st1, out1)
    else
      let '(st2, out2) := sendHealthReport cfg env st1 healthResult in
      (st2, out1 ++ out2)
  else if statusChanged then sendHealthReport cfg env st healthResult
  else (st, []).

(** [performMonitoringCycle], given the result of the probe;
    [updateAgentStatus] only writes a debug line. *)
Definition performMonitoringCycle (cfg : Config) (env : CycleEnv) (st : State)
    (healthResult : HealthCheckResult) : State * list Output :=
  handleHealthResult cfg env
    (mkState (peerNetwork st) (Some healthResult) (lastReportedStatus st))
    healthResult.

(** A run of the monitoring loop: one cycle per probe result. *)
Fixpoint run (cfg : Config) (st : State)
    (cycles : list (HealthCheckResult * CycleEnv)) : State * list Output :=
  match cycles with
  | [] => (st, [])
  | (healthResult, env) :: rest =>
      let '(st1, out1) := performMonitoringCycle cfg env st healthResult in
      let '(st2, out2) := run cfg st1 rest in
      (st2, out1 ++ out2)
  end.

(** [ConsensusRequest & { consensusId?: string }], as it arrives from a
    peer. *)
Record IncomingRequest := mkIncoming {
  in_validatorId : string;
  in_agentId : string;
  in_consensusId : option string
}.

(** [handleIncomingConsensusRequest].  [manual] is the result
    [beaconMonitor.manualHealthCheck()] gives when it is called, [now] the
    time of the reply; [manualHealthCheck] is [performHealthCheck], which
    has no throwing path, so the [catch] branch of the source is not
    reached.  The response, if any, is what is handed to
    [peerNetwork.sendConsensusResponse]. *)
Definition handleIncomingConsensusRequest (cfg : Config) (manual : HealthCheckResult)
    (now : Z) (st : State) (request : IncomingRequest)
    : State * option ConsensusResponse :=
  match peerNetwork st with
  | None => (st, None)
  | Some _ =>
      if decide (in_validatorId request ≠ cfg_validatorId cfg) then (st, None)
      else if negb (truthy (in_consensusId request)) then (st, None)
      else
        let consensusId := default "" (in_consensusId request) in
        let latestHealth := default manual (lastHealthCheck st) in
        let st' :=
          match lastHealthCheck st with
          | None => mkState (peerNetwork st) (Some latestHealth) (lastReportedStatus st)
          | Some last =>
              if (hc_timestamp last <? hc_timestamp latestHealth)%Z
              then mkState (peerNetwork st) (Some latestHealth) (lastReportedStatus st)
              else st
          end in
        let agree :=
          if decide (hc_status latestHealth = StatusUnhealthy) then true else false in
        (st',
         Some (mkConsensusResponse (in_validatorId request) consensusId agree
                 (cfg_agentId cfg) (in_agentId request) now
                 (if agree then Some latestHealth else None)))
  end.

(** The payload [sendHealthReport] builds. *)
Definition payloadOf (cfg : Config) (healthResult : HealthCheckResult) : ReportPayload :=
  mkPayload (cfg_agentId cfg) (hc_validatorId healthResult) (hc_status healthResult)
            (if truthy (hc_error healthResult) then default "" (hc_error healthResult)
             else "Validator is " +:+ statusLowerCase (hc_status healthResult))
            (cfg_agentApiKey cfg).

(** The number of reports an agent that has reported nothing yet sends along
    a run of HEALTHY results: one per cycle, up to and including the first
    the collector accepts. *)
Fixpoint reportsUntilAccepted (cycles : list (HealthCheckResult * CycleEnv)) : nat :=
  match cycles with
  | [] => 0
  | (_, env) :: rest =>
      if reportAccepted env then 1 else S (reportsUntilAccepted rest)
  end.

(** The agent as its constructor leaves it, with the peer network that
    [start] set up (if any). *)
Definition initial (n : option Network) : State := mkState n None None.

Definition demoConfig : Config := mkConfig "a1" "k" "v1" true 2 120000.

Definition healthyResult : HealthCheckResult :=
  mkHealthCheck "v1" StatusHealthy 5 5 None None.

Definition unhealthyResult : HealthCheckResult :=
  mkHealthCheck "v1" StatusUnhealthy 5 5 None None.

Definition quietEnv : CycleEnv := mkCycleEnv "uuid-1" [] 0 true.

End Agent.

(** ** The agent's API client: core/ApiClient.ts *)

Module ApiClient.

(** What [client.post("/api/report", payload)] meets: a response, with its
    status and the [success] field of its body, or none. *)
Inductive Reply :=
| Replied (status : Z) (success : bool)
| NoReply.

(** [sendReport]: axios rejects a response whose status is outside 2xx,
    and the [catch] turns every rejection into [false]. *)
Definition sendReport (reply : Reply) : bool :=
  match reply with
  | Replied status success =>
      if (200 <=? status)%Z && (status <? 300)%Z
      then (if decide (status = 200%Z) then success else false)
      else false
  | NoReply => false
  end.

(** The wire between the agent and the collector: the JSON body of the
    payload as the handler of [POST /api/report] reads it, and the
    collector's answer as axios hands it to [sendReport]. *)
Definition statusString (s : HealthStatus) : string :=
  match s with
  | StatusHealthy => "HEALTHY"
  | StatusUnhealthy => "UNHEALTHY"
  end.

Definition requestOf (p : Agent.ReportPayload) : Collector.ReportRequest :=
  Collector.mkRequest (Some (Agent.pl_agentId p)) (Some (Agent.pl_agentApiKey p))
    (Some (Agent.pl_validatorId p)) (Some (statusString (Agent.pl_status p)))
    (Some (Agent.pl_message p)) None.

Definition replyOf (res : Collector.Response) : Reply :=
  Replied (Collector.res_status res)
          (match Collector.res_body res with
           | Collector.SuccessBody _ => true
           | Collector.ErrorBody _ => false
           end).

(** *** [retryRequest] *)

(** What [retryRequest] does, in order. *)
Inductive Step :=
| Call (attempt : nat)
| Wait (ms : Z).

(** [delay(ms)]: [new Promise(resolve => setTimeout(resolve, ms))].  The
    step holds the time waited. *)
Definition delay (ms : Z) : Step := Wait (setTimeout ms).

(** The loop [for (attempt = 1; attempt <= retries; attempt++)], from
    iteration [attempt] with [remaining] iterations to go.  The [attempt]-th
    call of [requestFn] returns a response or throws ([None] for a thrown
    value that is not an [Error]); [lastError] is [None] while the variable
    is unassigned. *)
Fixpoint retryLoop {A} (requestFn : nat -> A + option string) (retries : Z)
    (remaining attempt : nat) (lastError : option string) (done : list Step)
    : (A + option string) * list Step :=
  match remaining with
  | O => (inr lastError, done)                 (* throw lastError! *)
  | S remaining' =>
      match requestFn attempt with
      | inl response => (inl response, done ++ [Call attempt])
      | inr thrown =>
          let lastError' := Some (default "Unknown error" thrown) in
          if (Z.of_nat attempt <? retries)%Z
          then retryLoop requestFn retries remaining' (S attempt) lastError'
                 (done ++ [Call attempt; delay (2 ^ (Z.of_nat attempt - 1) * 1000)])
          else retryLoop requestFn retries remaining' (S attempt) lastError'
                 (done ++ [Call attempt])
      end
  end.

(** [maxRetries || this.config.getConfig().maxRetries] *)
Definition effectiveRetries (configMaxRetries : Z) (maxRetries : option Z) : Z :=
  match maxRetries with
  | Some m => if decide (m = 0%Z) then configMaxRetries else m
  | None => configMaxRetries
  end.

(** [retryRequest(requestFn, maxRetries)]: the response, or the thrown
    error's message ([None] when [undefined] is thrown), and what was done. *)
Definition retryRequest {A} (configMaxRetries : Z)
    (requestFn : nat -> A + option string) (maxRetries : option Z)
    : (A + option string) * list Step :=
  let retries := effectiveRetries configMaxRetries maxRetries in
  retryLoop requestFn retries (Z.to_nat retries) 1 None [].

(** *** Vocabulary of the statements about [retryRequest] *)

Definition isCall (s : Step) : bool :=
  match s with
  | Call _ => true
  | Wait _ => false
  end.

Definition calls (trace : list Step) : nat :=
  length (filter (fun s => isCall s = true) trace).

Definition waited (trace : list Step) : Z :=
  foldr (fun s acc => match s with Wait ms => (ms + acc)%Z | _ => acc end) 0%Z trace.

(** The attempts [first], ..., [first + n - 1] all throw. *)
Definition allThrow {A} (requestFn : nat -> A + option string) (first n : nat) : Prop :=
  ∀ i, first ≤ i < first + n → ∃ thrown, requestFn i = inr thrown.

(** The back-off after the [i]-th failed attempt, in ms: 1 s, 2 s, 4 s
    and so on up to the 22nd; from the 23rd on the doubled delay exceeds
    2147483647 ms, the most a timer takes, and the wait is 1 ms. *)
Definition backoff (i : nat) : Z :=
  if decide (i ≤ 22) then (2 ^ (Z.of_nat i - 1) * 1000)%Z else 1%Z.

(** The back-offs after the failed attempts 1 to [m], summed. *)
Definition totalBackoff (m : Z) : Z :=
  ((2 ^ Z.min m 22 - 1) * 1000 + Z.max 0 (m - 22))%Z.

(** What [n] failed attempts from [first] on do. *)
Fixpoint failedSteps (retries : Z) (first n : nat) : list Step :=
  match n with
  | O => []
  | S n' =>
      Call first ::
      (if (Z.of_nat first <? retries)%Z then [Wait (backoff first)] else []) ++
      failedSteps retries (S first) n'
  end.

End ApiClient.

(** ** The webhook dispatcher: services/WebhookService.js *)

Module Webhook.

(** What [new URL(webhook.url)] yields. *)
Record Url := mkUrl {
  protocol : string;
  hostname : string;
  port : string;
  pathname : string;
  search : string
}.

Inductive HeaderValue :=
| HeaderText (s : string)
| HeaderNumber (n : nat).

(** The options and the body handed to [http.request] / [https.request]. *)
Record HttpRequest := mkHttpRequest {
  rq_https : bool;
  rq_hostname : string;
  rq_port : string + nat;
  rq_path : string;
  rq_method : string;
  rq_headers : list (string * HeaderValue);
  rq_timeout : Z;
  rq_body : string
}.

(** How the request ends: a response with its status code, a socket
    error, or the time-out. *)
Inductive Delivery :=
| Responded (statusCode : option nat) (data : string)
| RequestError (message : string)
| TimedOut.

Definition header (name : string) (req : HttpRequest) : option HeaderValue :=
  match list_find (fun h => h.1 = name) (rq_headers req) with
  | Some (_, (_, value)) => Some value
  | None => None
  end.

(** A string holds the UTF-8 bytes of the JavaScript string, so that
    [String.length] is [Buffer.byteLength].

    [checkInvalidHeaderChar] of Node's http, the test [http.request] puts
    every header value to ([/[^\t\x20-\x7e\x80-\xff]/]): a value may hold
    the characters tab, U+0020 to U+007E and U+0080 to U+00FF only.  In
    UTF-8 the last are the two-byte sequences C2 80..BF and C3 80..BF. *)
Fixpoint validHeaderValue (s : string) : bool :=
  match s with
  | EmptyString => true
  | String c rest =>
      let b := Ascii.nat_of_ascii c in
      if (b =? 9) || ((32 <=? b) && (b <=? 126)) then validHeaderValue rest
      else if (b =? 194) || (b =? 195) then
        match rest with
        | String d rest' =>
            let e := Ascii.nat_of_ascii d in
            (128 <=? e) && (e <=? 191) && validHeaderValue rest'
        | EmptyString => false
        end
      else false
  end.

Definition headerValueOk (value : HeaderValue) : bool :=
  match value with
  | HeaderText s => validHeaderValue s
  | HeaderNumber _ => true
  end.

(** The first header, in the order of the [headers] object, whose value
    [http.request] refuses. *)
Fixpoint invalidHeader (headers : list (string * HeaderValue)) : option string :=
  match headers with
  | [] => None
  | (name, value) :: rest =>
      if headerValueOk value then invalidHeader rest else Some name
  end.

(** U+000A, which no header value may hold. *)
Definition lineFeed : Ascii.ascii := Ascii.ascii_of_nat 10.

(** The message of the [TypeError] that [http.request] throws for it
    (code [ERR_INVALID_CHAR]). *)
Definition invalidCharMessage (name : string) : string :=
  let quote := String (Ascii.ascii_of_nat 34) EmptyString in
  "Invalid character in header content [" +:+ quote +:+ name +:+ quote +:+ "]".

Section Dispatcher.

(** The library functions the dispatcher calls:
    [crypto.createHmac("sha256", key).update(message).digest("hex")],
    [JSON.stringify] on the payload, and the URL parser ([None] when
    [new URL] throws). *)
Context {Payload : Type}.
Variable hmacSha256Hex : string -> string -> string.
Variable JSON_stringify : Payload -> string.
Variable parseUrl : string -> option Url.

Definition requestTimeout : Z := 10000.

(** [generateSignature(payload, secret)] *)
Definition generateSignature (payload : string) (secret : option string) : option string :=
  if negb (truthy secret) then None
  else Some (hmacSha256Hex (default "" secret) payload).

(** [validateSignature(payload, signature, secret)] *)
Definition validateSignature (payload : string) (signature secret : option string) : bool :=
  if negb (truthy secret) || negb (truthy signature) then false
  else if decide (default "" signature = hmacSha256Hex (default "" secret) payload)
       then true else false.

(** [sendWebhook(webhook, payload)]: the request it writes, if it gets that
    far, and what the returned promise settles to.  [new URL] throws inside
    the [try], and [http.request] throws inside the executor of the promise
    when it refuses a header value: either way nothing is written and the
    promise rejects. *)
Definition sendWebhook (webhook : Collector.WebhookConfig) (payload : Payload)
    (net : HttpRequest -> Delivery) : option HttpRequest * (bool + string) :=
  let payloadString := JSON_stringify payload in
  let signature := generateSignature payloadString (Collector.wh_secret webhook) in
  let postData := payloadString in
  match parseUrl (Collector.wh_url webhook) with
  | None => (None, inr "Invalid URL")
  | Some url =>
      let isHttps := if decide (protocol url = "https:") then true else false in
      let req :=
        mkHttpRequest isHttps (hostname url)
          (if truthy (Some (port url)) then inl (port url)
           else inr (if isHttps then 443 else 80))
          (pathname url +:+ search url) "POST"
          ([("Content-Type", HeaderText "application/json");
            ("Content-Length", HeaderNumber (String.length postData));
            ("User-Agent", HeaderText "Sentinel-Webhook/1.0")]
           ++ (if truthy signature
               then [("X-Sentinel-Signature", HeaderText (default "" signature))]
               else [])
           ++ (if truthy (Collector.wh_secret webhook)
               then [("X-Sentinel-Secret",
                      HeaderText (default "" (Collector.wh_secret webhook)))]
               else []))
          requestTimeout postData in
      match invalidHeader (rq_headers req) with
      | Some name => (None, inr (invalidCharMessage name))
      | None =>
          (Some req,
           match net req with
           | Responded (Some code) data =>
               if decide (200 ≤ code < 300) then inl true
               else inr ("HTTP " +:+ pretty code +:+ ": " +:+ data)
           | Responded None data => inr ("HTTP undefined: " +:+ data)
           | RequestError message => inr message
           | TimedOut => inr "Request timeout"
           end)
      end
  end.

End Dispatcher.

(** A stand-in digest of the right shape, for concrete runs: 64 characters
    that depend on the key and the message only through their lengths. *)
Definition toyDigest (key message : string) : string :=
  "00000000000000000000000000000000000000000000000000000000000000"
  +:+ (if Nat.even (String.length key + String.length message) then "0a" else "0b").

Definition toyParseUrl (s : string) : option Url :=
  if decide (s = "") then None
  else Some (mkUrl "http:" "hooks.example" "" "/v1" "").

Definition demoWebhook : Collector.WebhookConfig :=
  Collector.mkWebhook "h1" "u1" "http://hooks.example/v1" (Some "s3cr3t")
                      ["validator.unhealthy"] true.

End Webhook.

(** * Properties *)

Module CollectorFacts.
Import Collector.

Ltac run_m :=
  unfold bind, ret, get, modify, tell, throw, try_catch, prisma; simpl.

(** *** The world under appended output *)

Lemma add_effects_nil w : add_effects [] w = w.
Proof. destruct w; unfold add_effects; simpl. by rewrite app_nil_r. Qed.

Lemma add_effects_app es1 es2 w :
  add_effects es2 (add_effects es1 w) = add_effects (es1 ++ es2) w.
Proof. unfold add_effects; simpl. by rewrite app_assoc. Qed.

Lemma emit_add_effects e w : emit e w = add_effects [e] w.
Proof. reflexivity. Qed.

Lemma static_refl w : static w w.
Proof. by repeat split. Qed.

Lemma static_trans w1 w2 w3 : static w1 w2 → static w2 w3 → static w1 w3.
Proof.
  intros (?&?&?&?&?) (?&?&?&?&?). repeat split; congruence.
Qed.

Lemma frame_refl w : frame w w.
Proof. split_and!; auto using static_refl. Qed.

Lemma frame_trans w1 w2 w3 : frame w1 w2 → frame w2 w3 → frame w1 w3.
Proof.
  intros (?&?&?&?) (?&?&?&?). split_and!; try congruence.
  by eapply static_trans.
Qed.

Lemma frame_add_effects es w : frame w (add_effects es w).
Proof. by repeat split. Qed.

Lemma storage_ok_static w w' : static w w' → storage_ok w → storage_ok w'.
Proof. intros (He&_) [? ?]. unfold storage_ok. by rewrite He. Qed.

Lemma update_where_ids ids f rows :
  (∀ r, rep_id (f r) = rep_id r) →
  map rep_id (update_where ids f rows) = map rep_id rows.
Proof.
  intros Hf. unfold update_where. rewrite map_map. apply map_ext.
  intros r. by destruct (decide (rep_id r ∈ ids)).
Qed.

(** *** Webhook dispatch only prints and sends *)

Lemma for_each_webhooks event hs w :
  ∃ es, for_each hs (triggerWebhook event) w = (Ok tt, add_effects es w)
        ∧ Forall webhook_effect es.
Proof.
  revert w. induction hs as [|h hs IH]; intros w; simpl.
  - exists []. by rewrite add_effects_nil.
  - unfold bind, triggerWebhook at 1, try_catch, sendWebhook_call.
    destruct (decide (event ∈ wh_events h)); run_m.
    + destruct (webhookDelivers (env w) (wh_id h)); simpl.
      * destruct (IH (emit (WebhookSent (wh_id h) event true) w)) as (es & -> & Hes).
        eexists. rewrite emit_add_effects, add_effects_app. split; [done|].
        by constructor.
      * destruct (IH (emit (Console (ErrTriggeringWebhook (wh_id h)))
                       (emit (WebhookSent (wh_id h) event false) w))) as (es & -> & Hes).
        eexists. rewrite !emit_add_effects, !add_effects_app. split; [done|].
        by repeat constructor.
    + apply IH.
Qed.

Lemma triggerWebhooks_spec userId event w :
  ∃ es, triggerWebhooks userId event w = (Ok tt, add_effects es w)
        ∧ Forall webhook_effect es.
Proof.
  unfold triggerWebhooks, webhookConfig_findMany. run_m.
  destruct (storageFails (env w) WebhookFindMany); simpl.
  - exists [Console ErrFetchingWebhooks]. split; [done|]. by repeat constructor.
  - match goal with |- context [for_each ?hs ?f w] =>
      destruct (for_each_webhooks event hs w) as (es & -> & Hes) end.
    eauto.
Qed.

(** *** The aggregator, method by method *)

Lemma reachConsensus_spec key cd w :
  activeConsensus w !! key = Some cd →
  ∃ w', reachConsensus key w = (Ok tt, w') ∧ frame w w' ∧
    activeConsensus w' = alter (set_consensusReached true) key (activeConsensus w) ∧
    ∃ new, alerts (db w') = alerts (db w) ++ new ∧ length new ≤ 1 ∧
      Forall (alert_for (cd_validatorId cd)) new ∧
      (storage_ok w → is_Some (validators (db w) !! cd_validatorId cd) →
       length new = 1) ∧
      (storageFails (env w) AlertCreate = true → new = []).
Proof.
  intros Hcd.
  unfold reachConsensus, validator_findUnique, alert_create, agentReport_updateMany.
  run_m. rewrite lookup_alter_eq, Hcd. simpl.
  destruct (storageFails (env w) ValidatorFindUnique) eqn:Hvf; simpl.
  { eexists; split; [reflexivity|]. split_and!; try done.
    exists []. rewrite app_nil_r. split_and!; auto.
    intros [? ?]; congruence. }
  destruct (validators (db w) !! cd_validatorId cd) as [validator|] eqn:Hval; simpl.
  2:{ eexists; split; [reflexivity|]. split_and!; try done.
      exists []. rewrite app_nil_r. split_and!; auto.
      intros _ [? ?]; congruence. }
  destruct (storageFails (env w) AlertCreate) eqn:Hac; simpl.
  { eexists; split; [reflexivity|]. split_and!; try done.
    exists []. rewrite app_nil_r. split_and!; auto.
    intros [? ?]; congruence. }
  destruct (storageFails (env w) ReportsMarkReached) eqn:Hmr; simpl.
  { eexists; split; [reflexivity|]. split_and!; try done.
    eexists [_]. split_and!; simpl; auto; try congruence. by repeat constructor. }
  match goal with |- context [triggerWebhooks ?u ?e ?W] =>
    destruct (triggerWebhooks_spec u e W) as (es & -> & Hes) end.
  unfold modify. eexists; split; [reflexivity|]. split_and!; try done.
  - unfold frame, static; simpl. split_and!; try done.
    by apply update_where_ids.
  - eexists [_]. split_and!; simpl; auto; try congruence. by repeat constructor.
Qed.

Lemma addReportToConsensus_spec key report cd w :
  activeConsensus w !! key = Some cd →
  ∃ w' cd', addReportToConsensus key report w = (Ok tt, w') ∧ frame w w' ∧
    activeConsensus w' !! key = Some cd' ∧
    (∀ k, k ≠ key → activeConsensus w' !! k = activeConsensus w !! k) ∧
    cd_validatorId cd' = cd_validatorId cd ∧
    (cd_consensusReached cd = true → cd_consensusReached cd' = true) ∧
    ∃ new, alerts (db w') = alerts (db w) ++ new ∧
      length new ≤ (if negb (cd_consensusReached cd) && cd_consensusReached cd'
                    then 1 else 0) ∧
      Forall (alert_for (cd_validatorId cd)) new ∧
      (storage_ok w → is_Some (validators (db w) !! cd_validatorId cd) →
       length new = (if negb (cd_consensusReached cd) && cd_consensusReached cd'
                     then 1 else 0)) ∧
      (storageFails (env w) AlertCreate = true → new = []).
Proof.
  intros Hcd. unfold addReportToConsensus.
  unfold bind at 1, get at 1. rewrite Hcd.
  unfold bind at 1, modify at 1.
  set (reports := upsert report (cd_reports cd)).
  set (W1 := set_activeConsensus (alter (set_reports reports) key) w).
  assert (HW1 : activeConsensus W1 !! key = Some (set_reports reports cd)).
  { subst W1; simpl. by rewrite lookup_alter_eq, Hcd. }
  unfold bind at 1.
  destruct ((cd_threshold cd <=? Z.of_nat (length (unhealthyReports reports)))%Z
            && negb (cd_consensusReached cd)) eqn:Hq.
  - destruct (reachConsensus_spec key _ W1 HW1)
      as (w' & -> & Hfr & Hac & new & Hal & Hlen & Hfor & Hex & Hfail).
    apply andb_true_iff in Hq as [_ Hnl]. apply negb_true_iff in Hnl.
    run_m. rewrite Hac, lookup_alter_eq, HW1. simpl.
    unfold modify.
    eexists _, (set_consensusReached true (set_reports reports cd)).
    split; [reflexivity|]. split_and!; simpl; try done.
    + by rewrite Hac, lookup_alter_eq, HW1.
    + intros k Hk. rewrite Hac, lookup_alter_ne by done.
      subst W1; simpl. by rewrite lookup_alter_ne.
    + exists new. rewrite Hnl. simpl. by split_and!.
  - assert (Hrest : ∀ m : M unit,
              (m = resetConsensusTimer key ∨ m = ret tt) → m W1 = (Ok tt, W1)).
    { intros m [-> | ->]; reflexivity. }
    rewrite Hrest by (destruct (_ <? _)%Z; auto).
    run_m. rewrite lookup_alter_eq, Hcd. simpl.
    eexists _, (set_reports reports cd). split; [reflexivity|].
    split_and!; simpl; try done.
    + intros k Hk. by rewrite lookup_alter_ne.
    + exists []. rewrite app_nil_r.
      replace (negb (cd_consensusReached cd) && cd_consensusReached cd) with false
        by (by destruct (cd_consensusReached cd)).
      by split_and!.
Qed.

Lemma truthy_Some v : truthy (Some v) = true ↔ v ≠ "".
Proof. unfold truthy. destruct (decide (v = "")); split; congruence. Qed.

(** [initiateConsensus] on any report: nothing is thrown, and without a
    working [alert.create] no alert appears. *)
Lemma initiateConsensus_frame r w :
  ∃ w', initiateConsensus r w = (Ok tt, w') ∧ frame w w' ∧
    (∃ new, alerts (db w') = alerts (db w) ++ new) ∧
    (storageFails (env w) AlertCreate = true → alerts (db w') = alerts (db w)).
Proof.
  unfold initiateConsensus.
  destruct (truthy (rep_validatorId r)).
  2:{ exists w. split_and!; auto using frame_refl. exists []. by rewrite app_nil_r. }
  set (v := default "" (rep_validatorId r)). simpl.
  unfold bind at 1, get at 1.
  destruct (activeConsensus w !! consensusKey v) as [cd|] eqn:Hcd.
  - destruct (addReportToConsensus_spec (consensusKey v) r cd w Hcd)
      as (w' & cd' & -> & Hfr & _ & _ & _ & _ & new & Hal & _ & _ & _ & Hfail).
    exists w'. split_and!; eauto.
    intros Hf. rewrite Hal, (Hfail Hf). by rewrite app_nil_r.
  - unfold bind at 1, modify at 1.
    set (cd0 := mkConsensus v UNHEALTHY [r] false (consensusThreshold w)).
    set (W1 := set_activeConsensus <[consensusKey v := cd0]> w).
    assert (HW1 : activeConsensus W1 !! consensusKey v = Some cd0).
    { subst W1; simpl. by rewrite lookup_insert_eq. }
    destruct (addReportToConsensus_spec (consensusKey v) r cd0 W1 HW1)
      as (w' & cd' & -> & Hfr & _ & _ & _ & _ & new & Hal & _ & _ & _ & Hfail).
    exists w'. split_and!; eauto.
    intros Hf. rewrite Hal, (Hfail Hf). by rewrite app_nil_r.
Qed.

(** [initiateConsensus] on a report of validator [v]. *)
Lemma initiateConsensus_spec v r w :
  rep_validatorId r = Some v → window_wf v w →
  ∃ w', initiateConsensus r w = (Ok tt, w') ∧ frame w w' ∧
    window_wf v w' ∧
    (latched v w = true → latched v w' = true) ∧
    (∀ k, k ≠ consensusKey v → activeConsensus w' !! k = activeConsensus w !! k) ∧
    ∃ new, alerts (db w') = alerts (db w) ++ new ∧
      length new ≤ transition v w w' ∧ Forall (alert_for v) new ∧
      (storage_ok w → is_Some (validators (db w) !! v) →
       length new = transition v w w') ∧
      (storageFails (env w) AlertCreate = true → new = []).
Proof.
  intros Hv Hwf. unfold initiateConsensus. rewrite Hv.
  destruct (truthy (Some v)) eqn:Ht.
  2:{ exists w. split; [reflexivity|]. split_and!; auto using frame_refl.
      exists []. rewrite app_nil_r. unfold transition.
      destruct (latched v w); simpl; by split_and!. }
  simpl. unfold bind at 1, get at 1.
  destruct (activeConsensus w !! consensusKey v) as [cd|] eqn:Hcd.
  - destruct (addReportToConsensus_spec (consensusKey v) r cd w Hcd)
      as (w' & cd' & -> & Hfr & Hcd' & Hother & Hvid & Hmono & new & Hnew).
    pose proof (Hwf cd Hcd) as Hcdv.
    exists w'. split; [reflexivity|]. split_and!; try done.
    + intros cd2 Hcd2. unfold window in Hcd2. congruence.
    + unfold latched, window. by rewrite Hcd, Hcd'.
    + exists new. unfold transition, latched, window. rewrite Hcd, Hcd'.
      by rewrite Hcdv in Hnew.
  - unfold bind at 1, modify at 1.
    set (cd0 := mkConsensus v UNHEALTHY [r] false (consensusThreshold w)).
    set (W1 := set_activeConsensus <[consensusKey v := cd0]> w).
    assert (HW1 : activeConsensus W1 !! consensusKey v = Some cd0).
    { subst W1; simpl. by rewrite lookup_insert_eq. }
    destruct (addReportToConsensus_spec (consensusKey v) r cd0 W1 HW1)
      as (w' & cd' & -> & Hfr & Hcd' & Hother & Hvid & Hmono & new & Hnew).
    exists w'. split; [reflexivity|]. split_and!; try done.
    + intros cd2 Hcd2. unfold window in Hcd2.
      assert (cd2 = cd') as -> by congruence. by rewrite Hvid.
    + unfold latched, window. by rewrite Hcd.
    + intros k Hk. rewrite Hother by done. subst W1; simpl.
      by rewrite lookup_insert_ne.
    + exists new. unfold transition, latched, window. rewrite Hcd, Hcd'. simpl.
      by simpl in Hnew.
Qed.

Lemma cancelConsensus_spec v' w :
  ∃ o w', cancelConsensus v' w = (o, w') ∧ frame w w' ∧
    alerts (db w') = alerts (db w) ∧
    (activeConsensus w' = activeConsensus w ∨
     activeConsensus w' = delete (consensusKey v') (activeConsensus w)).
Proof.
  unfold cancelConsensus, agentReport_updateMany. run_m.
  destruct (activeConsensus w !! consensusKey v') as [cd|] eqn:Hcd; simpl.
  2:{ eexists _, _. split; [reflexivity|]. split_and!; auto using frame_refl. }
  destruct (storageFails (env w) ReportsMarkCancelled); simpl.
  { eexists _, _. split; [reflexivity|]. split_and!; auto using frame_refl. }
  eexists _, _. split; [reflexivity|]. split_and!; simpl; auto.
  unfold frame, static; simpl. split_and!; try done.
  by apply update_where_ids.
Qed.

Lemma agent_update_lastSeen_cases op id w :
  (∃ e, agent_update_lastSeen op id w = (Throw e, w)) ∨
  (is_Some (agents (db w) !! id) ∧ storageFails (env w) op = false ∧
   agent_update_lastSeen op id w =
     (Ok tt, set_db (set_agents (alter (touch_lastSeen (now w)) id)) w)).
Proof.
  unfold agent_update_lastSeen. run_m.
  destruct (storageFails (env w) op) eqn:Hop; simpl; [eauto|].
  destruct (agents (db w) !! id) as [a|] eqn:Ha; simpl; [|eauto].
  right. eauto.
Qed.

Lemma addToReportHistory_eq a w :
  ∃ f, addToReportHistory a w = (Ok tt, set_reportHistory f w).
Proof. unfold addToReportHistory. run_m. eauto. Qed.

(** *** One report through [processReport] *)

Lemma processReport_total r w : ∃ w', processReport r w = (Ok tt, w').
Proof.
  unfold processReport, try_catch.
  match goal with |- context [match ?m w with _ => _ end] =>
    destruct (m w) as [[[]|e] w'] end; run_m; eauto.
Qed.

Lemma window_wf_agree v w w' :
  activeConsensus w' = activeConsensus w → window_wf v w → window_wf v w'.
Proof. unfold window_wf, window. by intros ->. Qed.

Lemma latched_agree v w w' :
  activeConsensus w' = activeConsensus w → latched v w' = latched v w.
Proof. unfold latched, window. by intros ->. Qed.

Lemma transition_agree v w1 w1' w2 w2' :
  activeConsensus w2 = activeConsensus w1 →
  activeConsensus w2' = activeConsensus w1' →
  transition v w2 w2' = transition v w1 w1'.
Proof.
  intros H1 H2. unfold transition.
  by rewrite (latched_agree v w1 w2 H1), (latched_agree v w1' w2' H2).
Qed.

Lemma transition_same v w w' :
  activeConsensus w' = activeConsensus w → transition v w w' = 0.
Proof.
  intros H. unfold transition. rewrite (latched_agree v w w' H).
  by destruct (latched v w).
Qed.

Lemma transition_delete v k w w' :
  activeConsensus w' = delete k (activeConsensus w) → transition v w w' = 0.
Proof.
  intros H. unfold transition, latched, window. rewrite H.
  rewrite lookup_delete. case_decide; [by rewrite andb_false_r|].
  by destruct (activeConsensus w !! consensusKey v) as [[? ? ? [] ?]|].
Qed.

Lemma processReport_step v r w :
  rep_validatorId r = Some v → window_wf v w →
  ∃ w', processReport r w = (Ok tt, w') ∧ static w w' ∧ window_wf v w' ∧
    (rep_status r ≠ HEALTHY → latched v w = true → latched v w' = true) ∧
    (∀ k, k ≠ consensusKey v → activeConsensus w' !! k = activeConsensus w !! k) ∧
    ∃ new, alerts (db w') = alerts (db w) ++ new ∧
      length new ≤ transition v w w' ∧ Forall (alert_for v) new ∧
      (storage_ok w → is_Some (validators (db w) !! v) →
       length new = transition v w w') ∧
      (storageFails (env w) AlertCreate = true → new = []).
Proof.
  intros Hv Hwf.
  assert (Hnone : ∀ w0 : World,
            (activeConsensus w0 = activeConsensus w ∨
             activeConsensus w0 = delete (consensusKey v) (activeConsensus w)) →
            alerts (db w0) = alerts (db w) →
            ∃ new, alerts (db w0) = alerts (db w) ++ new ∧
              length new ≤ transition v w w0 ∧ Forall (alert_for v) new ∧
              (storage_ok w → is_Some (validators (db w) !! v) →
               length new = transition v w w0) ∧
              (storageFails (env w) AlertCreate = true → new = [])).
  { intros w0 Hac Hal. exists []. rewrite app_nil_r.
    assert (transition v w w0 = 0) as ->
      by (destruct Hac; eauto using transition_same, transition_delete).
    by split_and!. }
  unfold processReport, try_catch.
  unfold bind at 1, tell at 1, modify at 1.
  set (W0 := emit _ w).
  unfold bind at 1.
  destruct (agent_update_lastSeen_cases AgentUpdateAggregator (rep_agentId r) W0)
    as [[e ->] | (Ha & Hop & ->)].
  { run_m. eexists; split; [reflexivity|]. split_and!; try done.
    apply Hnone; auto. }
  set (W1 := set_db _ W0).
  assert (HwfW1 : window_wf v W1) by done.
  unfold bind at 1.
  destruct (rep_status r) eqn:Hs.
  - (* HEALTHY *)
    rewrite Hv; simpl.
    destruct (cancelConsensus_spec v W1) as (o & w2 & -> & Hfr & Hal & Hac).
    destruct Hfr as (Hst & _).
    assert (Hwf2 : window_wf v w2).
    { destruct Hac as [Hac|Hac]; [by eapply window_wf_agree|].
      intros cd. unfold window. by rewrite Hac, lookup_delete_eq. }
    assert (Hother : ∀ k, k ≠ consensusKey v →
              activeConsensus w2 !! k = activeConsensus w !! k).
    { intros k Hk. destruct Hac as [->| ->]; [done|]. by rewrite lookup_delete_ne. }
    destruct o as [[]|e].
    + destruct (addToReportHistory_eq (rep_agentId r) w2) as [f ->].
      eexists; split; [reflexivity|]. split_and!; try done.
      apply Hnone; auto.
    + run_m. eexists; split; [reflexivity|]. split_and!; try done.
      apply Hnone; auto.
  - (* UNHEALTHY *)
    destruct (initiateConsensus_spec v r W1 Hv HwfW1)
      as (w2 & -> & Hfr & Hwf2 & Hlat & Hother & new & Hnew).
    destruct Hfr as (Hst & _).
    destruct (addToReportHistory_eq (rep_agentId r) w2) as [f ->].
    eexists; split; [reflexivity|]. split_and!; try done.
    exists new. done.
  - unfold ret at 1; cbv beta iota.
    destruct (addToReportHistory_eq (rep_agentId r) W1) as [f ->].
    eexists; split; [reflexivity|]. split_and!; try done. apply Hnone; auto.
  - unfold ret at 1; cbv beta iota.
    destruct (addToReportHistory_eq (rep_agentId r) W1) as [f ->].
    eexists; split; [reflexivity|]. split_and!; try done. apply Hnone; auto.
Qed.

(** *** [processReport] on an arbitrary report *)

Lemma processReport_frame r w :
  ∃ w', processReport r w = (Ok tt, w') ∧ static w w' ∧
    map rep_id (agentReports (db w')) = map rep_id (agentReports (db w)) ∧
    (∃ new, alerts (db w') = alerts (db w) ++ new) ∧
    (storageFails (env w) AlertCreate = true → alerts (db w') = alerts (db w)) ∧
    (agents (db w') = agents (db w) ∨
     agents (db w') = alter (touch_lastSeen (now w)) (rep_agentId r) (agents (db w))).
Proof.
  assert (Hnil : ∀ l : list Alert, ∃ new, l = l ++ new)
    by (intros l; exists []; by rewrite app_nil_r).
  unfold processReport, try_catch.
  unfold bind at 1, tell at 1, modify at 1.
  set (W0 := emit _ w).
  unfold bind at 1.
  destruct (agent_update_lastSeen_cases AgentUpdateAggregator (rep_agentId r) W0)
    as [[e ->] | (Ha & Hop & ->)].
  { run_m. eexists; split; [reflexivity|]. split_and!; simpl; try done; eauto. }
  set (W1 := set_db _ W0).
  unfold bind at 1.
  assert (Hinner : ∃ o w2,
    (match rep_status r with
     | UNHEALTHY => initiateConsensus r
     | HEALTHY => cancelConsensus (default "undefined" (rep_validatorId r))
     | _ => ret tt
     end) W1 = (o, w2) ∧ frame W1 w2 ∧
    (∃ new, alerts (db w2) = alerts (db W1) ++ new) ∧
    (storageFails (env W1) AlertCreate = true → alerts (db w2) = alerts (db W1))).
  { destruct (rep_status r).
    - destruct (cancelConsensus_spec (default "undefined" (rep_validatorId r)) W1)
        as (o & w2 & -> & Hfr & Hal & _).
      exists o, w2. split_and!; auto. rewrite Hal. apply Hnil.
    - destruct (initiateConsensus_frame r W1) as (w2 & -> & Hfr & Hnew & Hfail).
      exists (Ok tt), w2. by split_and!.
    - exists (Ok tt), W1. split_and!; auto using frame_refl.
    - exists (Ok tt), W1. split_and!; auto using frame_refl. }
  destruct Hinner as (o & w2 & -> & (Hst & Hag & Hrh & Hids) & Hnew & Hfail).
  destruct o as [[]|e].
  - destruct (addToReportHistory_eq (rep_agentId r) w2) as [f ->].
    eexists; split; [reflexivity|]. split_and!; simpl; try done.
    right. by rewrite Hag.
  - run_m. eexists; split; [reflexivity|]. split_and!; simpl; try done.
    right. by rewrite Hag.
Qed.

(** A report whose status is neither UNHEALTHY nor HEALTHY only touches
    [lastSeen], the report history and the console. *)
Lemma processReport_other r w :
  rep_status r ≠ UNHEALTHY → rep_status r ≠ HEALTHY →
  ∃ w', processReport r w = (Ok tt, w') ∧ static w w' ∧
    activeConsensus w' = activeConsensus w ∧
    agentReports (db w') = agentReports (db w) ∧
    alerts (db w') = alerts (db w) ∧
    (agents (db w') = agents (db w) ∨
     agents (db w') = alter (touch_lastSeen (now w)) (rep_agentId r) (agents (db w))) ∧
    ∃ es, effects w' = effects w ++ es ∧ Forall console_effect es.
Proof.
  intros Hu Hh.
  unfold processReport, try_catch.
  unfold bind at 1, tell at 1, modify at 1.
  set (W0 := emit _ w).
  unfold bind at 1.
  destruct (agent_update_lastSeen_cases AgentUpdateAggregator (rep_agentId r) W0)
    as [[e ->] | (Ha & Hop & ->)].
  { run_m. eexists; split; [reflexivity|]. split_and!; simpl; try done; eauto.
    rewrite <- app_assoc. eexists; split; [done|]. by repeat constructor. }
  set (W1 := set_db _ W0).
  unfold bind at 1.
  destruct (rep_status r); try done.
  - unfold ret at 1; cbv beta iota.
    destruct (addToReportHistory_eq (rep_agentId r) W1) as [f ->].
    eexists; split; [reflexivity|]. split_and!; simpl; try done; eauto.
    eexists; split; [done|]. by repeat constructor.
  - unfold ret at 1; cbv beta iota.
    destruct (addToReportHistory_eq (rep_agentId r) W1) as [f ->].
    eexists; split; [reflexivity|]. split_and!; simpl; try done; eauto.
    eexists; split; [done|]. by repeat constructor.
Qed.

(** What such a report does to the aggregator's report history: the time
    is pushed on the agent's list when [agent.update] works, and nothing is
    when it fails, the error being logged. *)
Lemma processReport_other_history r w :
  rep_status r ≠ UNHEALTHY → rep_status r ≠ HEALTHY →
  let w' := (processReport r w).2 in
  let history := default [] (reportHistory w !! rep_agentId r) ++ [now w] in
  nextId (db w') = nextId (db w) ∧
  (is_Some (agents (db w) !! rep_agentId r) →
   storageFails (env w) AgentUpdateAggregator = false →
   reportHistory w' =
     <[rep_agentId r := if decide (100 < length history) then tail history else history]>
       (reportHistory w) ∧
   effects w' =
     effects w ++ [Console (LogProcessingReport (rep_agentId r) (rep_status r))]) ∧
  (storageFails (env w) AgentUpdateAggregator = true →
   reportHistory w' = reportHistory w ∧
   effects w' =
     effects w ++ [Console (LogProcessingReport (rep_agentId r) (rep_status r));
                   Console ErrProcessingReport]).
Proof.
  intros Hu Hh. cbv zeta.
  remember (processReport r w).2 as w' eqn:Hw'. revert Hw'.
  unfold processReport, try_catch.
  unfold bind at 1, tell at 1, modify at 1.
  set (W0 := emit _ w).
  unfold bind at 1.
  destruct (agent_update_lastSeen_cases AgentUpdateAggregator (rep_agentId r) W0)
    as [[e He] | (Ha & Hop & ->)].
  { rewrite He. run_m. intros ->. simpl. split_and!; [done| |].
    - intros [a Hag] Hok. exfalso. revert He.
      unfold agent_update_lastSeen. run_m. simpl. rewrite Hok. simpl.
      rewrite Hag. discriminate.
    - intros _. split; [done|]. by rewrite <- ?app_assoc. }
  set (W1 := set_db _ W0).
  unfold bind at 1.
  assert (Hop' : storageFails (env w) AgentUpdateAggregator = false) by exact Hop.
  destruct (rep_status r); try done;
    unfold ret at 1, addToReportHistory; run_m; intros ->; simpl;
    (split_and!; [done|done|congruence]).
Qed.

(** The window map changes only as the status of the report allows. *)
Lemma processReport_windows r w :
  ∃ w', processReport r w = (Ok tt, w') ∧
    match rep_status r with
    | UNHEALTHY => True
    | HEALTHY =>
        activeConsensus w' = activeConsensus w ∨
        activeConsensus w' =
          delete (consensusKey (default "undefined" (rep_validatorId r)))
                 (activeConsensus w)
    | _ => activeConsensus w' = activeConsensus w
    end.
Proof.
  destruct (decide (rep_status r = UNHEALTHY)) as [Hu|Hu].
  { destruct (processReport_total r w) as [w' ->]. exists w'. by rewrite Hu. }
  destruct (decide (rep_status r = HEALTHY)) as [Hh|Hh].
  2:{ destruct (processReport_other r w Hu Hh) as (w' & -> & _ & Hac & _).
      exists w'. split; [done|]. by destruct (rep_status r). }
  unfold processReport, try_catch.
  unfold bind at 1, tell at 1, modify at 1.
  set (W0 := emit _ w).
  unfold bind at 1.
  destruct (agent_update_lastSeen_cases AgentUpdateAggregator (rep_agentId r) W0)
    as [[e ->] | (Ha & Hop & ->)].
  { run_m. eexists; split; [reflexivity|]. rewrite Hh. by left. }
  set (W1 := set_db _ W0).
  unfold bind at 1. rewrite Hh.
  destruct (cancelConsensus_spec (default "undefined" (rep_validatorId r)) W1)
    as (o & w2 & -> & _ & _ & Hac).
  destruct o as [[]|e].
  - destruct (addToReportHistory_eq (rep_agentId r) w2) as [f ->].
    eexists; split; [reflexivity|]. done.
  - run_m. eexists; split; [reflexivity|]. done.
Qed.

(** *** The ingress, case by case *)

Lemma postReport_cases req w :
  ∃ res w', postReport req w = (Ok res, w') ∧
    ((malformed req ∧ res_status res = 400%Z ∧ w' = w) ∨
     (¬ malformed req ∧ ¬ readOk w ∧ res_status res = 500%Z ∧
      alerts (db w') = alerts (db w) ∧ activeConsensus w' = activeConsensus w) ∨
     (¬ malformed req ∧ readOk w ∧ authFails req w ∧ res_status res = 401%Z ∧ w' = w) ∨
     (¬ malformed req ∧ readOk w ∧ ¬ authFails req w ∧ scopeFails req w ∧
      res_status res = 403%Z ∧ w' = w) ∨
     (¬ malformed req ∧ readOk w ∧ ¬ authFails req w ∧ ¬ scopeFails req w ∧
      ¬ ingressOk w ∧ res_status res = 500%Z ∧ alerts (db w') = alerts (db w) ∧
      activeConsensus w' = activeConsensus w) ∨
     (¬ malformed req ∧ ingressOk w ∧ ¬ authFails req w ∧ ¬ scopeFails req w ∧
      accepted req w res w')).
Proof.
  unfold postReport, try_catch.
  destruct (req_agentId req) as [agentId|] eqn:E1;
    [|eexists _, _; split; [reflexivity|]; left; split_and!; try done;
      left; unfold missingField; by rewrite E1].
  destruct (req_agentApiKey req) as [agentApiKey|] eqn:E2;
    [|eexists _, _; split; [reflexivity|]; left; split_and!; try done;
      left; unfold missingField; by rewrite E1, E2, andb_false_r].
  destruct (req_validatorId req) as [validatorId|] eqn:E3;
    [|eexists _, _; split; [reflexivity|]; left; split_and!; try done;
      left; unfold missingField; by rewrite E1, E2, E3, andb_false_r].
  destruct (req_status req) as [status|] eqn:E4;
    [|eexists _, _; split; [reflexivity|]; left; split_and!; try done;
      left; unfold missingField; by rewrite E1, E2, E3, E4, andb_false_r].
  destruct (truthy (Some agentId) && truthy (Some agentApiKey)
            && truthy (Some validatorId) && truthy (Some status)) eqn:Ht; simpl.
  2:{ eexists _, _; split; [reflexivity|]. left. split_and!; try done.
      left. unfold missingField. by rewrite E1, E2, E3, E4. }
  destruct (allowedStatus status) as [reportStatus|] eqn:Est.
  2:{ eexists _, _; split; [reflexivity|]. left. split_and!; try done.
      right. unfold badStatus. by rewrite E4. }
  assert (Hwell : ¬ malformed req).
  { intros [Hm|Hb].
    - unfold missingField in Hm. rewrite E1, E2, E3, E4 in Hm. congruence.
    - unfold badStatus in Hb. rewrite E4 in Hb. congruence. }
  unfold agent_findUnique. unfold bind at 1. unfold bind at 1. unfold prisma.
  destruct (storageFails (env w) AgentFindUnique) eqn:Hread.
  { run_m. eexists _, _; split; [reflexivity|]. right; left. split_and!; try done.
    unfold readOk. congruence. }
  unfold bind at 1, get at 1, ret at 1.
  assert (HagentOf : agentOf req w = agents (db w) !! agentId)
    by (unfold agentOf; by rewrite E1).
  destruct (agents (db w) !! agentId) as [agent|] eqn:Hagent.
  2:{ eexists _, _; split; [reflexivity|]. right; right; left. split_and!; try done.
      unfold authFails. by rewrite HagentOf. }
  destruct (agent_isActive agent) eqn:Hactive; simpl.
  2:{ eexists _, _; split; [reflexivity|]. right; right; left. split_and!; try done.
      unfold authFails. rewrite HagentOf. by left. }
  destruct (decide (agent_apiKey agent ≠ agentApiKey)) as [Hkey|Hkey].
  { eexists _, _; split; [reflexivity|]. right; right; left. split_and!; try done.
    unfold authFails. rewrite HagentOf, E2. right. congruence. }
  assert (Hauth : ¬ authFails req w).
  { unfold authFails. rewrite HagentOf, E2. intros [?|Hk]; [congruence|].
    apply Hk. f_equal. by destruct (decide (agent_apiKey agent = agentApiKey)). }
  assert (HvalOf : validatorOf req w =
            match agent_validatorId agent with
            | Some v => validators (db w) !! v
            | None => None
            end)
    by (unfold validatorOf; by rewrite HagentOf).
  destruct (match agent_validatorId agent with
            | Some v => validators (db w) !! v
            | None => None
            end) as [v|] eqn:Hval.
  2:{ eexists _, _; split; [reflexivity|]. do 3 right; left. split_and!; try done.
      unfold scopeFails. by rewrite HvalOf. }
  destruct (decide (val_id v ≠ validatorId)) as [Hvid|Hvid].
  { eexists _, _; split; [reflexivity|]. do 3 right; left. split_and!; try done.
    unfold scopeFails. rewrite HvalOf, E3. left. congruence. }
  destruct (val_isActive v) eqn:Hvactive; simpl.
  2:{ eexists _, _; split; [reflexivity|]. do 3 right; left. split_and!; try done.
      unfold scopeFails. rewrite HvalOf. by right. }
  assert (Hscope : ¬ scopeFails req w).
  { unfold scopeFails. rewrite HvalOf, E3. intros [Hk|?]; [|congruence].
    apply Hk. f_equal. by destruct (decide (val_id v = validatorId)). }
  unfold agentReport_create. unfold bind at 1. unfold bind at 1. unfold prisma.
  destruct (storageFails (env w) AgentReportCreate) eqn:Hcreate.
  { run_m. eexists _, _; split; [reflexivity|]. do 4 right; left. split_and!; try done.
    unfold ingressOk. intros (?&?&?). congruence. }
  unfold bind at 1, get at 1. unfold bind at 1, modify at 1. unfold ret at 1.
  fold (acceptedRow agentId validatorId reportStatus req w).
  set (row := acceptedRow agentId validatorId reportStatus req w).
  set (W0 := set_db _ w).
  unfold bind at 1.
  destruct (agent_update_lastSeen_cases AgentUpdateIngress agentId W0)
    as [[e He] | (Ha & Hop & He)]; rewrite He.
  { run_m. eexists _, _; split; [reflexivity|]. do 4 right; left. split_and!; try done.
    intros (?&?&Hu). revert He. unfold agent_update_lastSeen. run_m.
    subst W0; simpl. rewrite Hu. unfold set_db at 1; simpl.
    rewrite Hagent. discriminate. }
  unfold bind at 1.
  set (W2 := set_db (set_agents _) W0).
  destruct (processReport_total row W2) as [w' Hrun].
  rewrite Hrun. run_m.
  eexists _, _; split; [reflexivity|]. do 5 right. split_and!; try done.
  exists agentId, validatorId, status, reportStatus. split_and!; try done.
  transitivity ((processReport row W2).2); [by rewrite Hrun | reflexivity].
Qed.

(** C1.  Quorum does not destroy the window, and the sweep does not look at
    the latch: after two agents reach the quorum of 2 for [v1], both stored
    reports are CONSENSUS_REACHED and the window is still open with its
    latch set; the sweep that runs once the window is older than ten minutes
    rewrites both reports to CONSENSUS_FAILED and drops the window. *)
Theorem sweep_rewrites_reached_reports :
  map rep_status (agentReports (db afterQuorum))
    = [CONSENSUS_REACHED; CONSENSUS_REACHED] ∧
  length (alerts (db afterQuorum)) = 1 ∧
  latched "v1" afterQuorum = true ∧
  map rep_status (agentReports (db afterSweep))
    = [CONSENSUS_FAILED; CONSENSUS_FAILED] ∧
  window "v1" afterSweep = None.
Proof. split_and!; by vm_compute. Qed.

(** *** Every window is stored under the key of its validator *)

Lemma consensusKey_inj v v' : consensusKey v = consensusKey v' → v = v'.
Proof. unfold consensusKey. simpl. intros H. by simplify_eq. Qed.

Lemma window_wf_empty v w : activeConsensus w = ∅ → window_wf v w.
Proof. intros H cd. unfold window. by rewrite H, lookup_empty. Qed.

Lemma window_wf_submap w w' :
  (∀ k cd, activeConsensus w' !! k = Some cd → activeConsensus w !! k = Some cd) →
  (∀ v, window_wf v w) → ∀ v, window_wf v w'.
Proof. intros Hsub Hwf v cd Hcd. apply (Hwf v). by apply Hsub. Qed.

Lemma processReport_no_validator r w :
  rep_validatorId r = None → rep_status r = UNHEALTHY →
  activeConsensus (processReport r w).2 = activeConsensus w.
Proof.
  intros Hv Hs. unfold processReport, try_catch.
  unfold bind at 1, tell at 1, modify at 1.
  set (W0 := emit _ w).
  unfold bind at 1.
  destruct (agent_update_lastSeen_cases AgentUpdateAggregator (rep_agentId r) W0)
    as [[e ->] | (Ha & Hop & ->)]; [by run_m|].
  set (W1 := set_db _ W0).
  unfold bind at 1. rewrite Hs. unfold initiateConsensus. rewrite Hv.
  cbn [truthy]. unfold ret at 1. cbv beta iota.
  by destruct (addToReportHistory_eq (rep_agentId r) W1) as [f ->].
Qed.

Lemma processReport_wf r w :
  (∀ v, window_wf v w) → ∀ v, window_wf v (processReport r w).2.
Proof.
  intros Hwf.
  destruct (rep_validatorId r) as [v'|] eqn:Hv.
  - destruct (processReport_step v' r w Hv (Hwf v'))
      as (w' & -> & _ & Hwf' & _ & Hother & _).
    cbn [snd]. intros v. destruct (decide (v = v')) as [->|Hne]; [done|].
    intros cd. unfold window. rewrite Hother.
    + apply (Hwf v).
    + intros Hk. by apply consensusKey_inj in Hk.
  - destruct (decide (rep_status r = UNHEALTHY)) as [Hu|Hu].
    + intros v. eapply window_wf_agree; [|apply Hwf].
      by apply processReport_no_validator.
    + destruct (processReport_windows r w) as (w' & -> & Hw). cbn [snd].
      apply (window_wf_submap w); [|done].
      intros k cd. destruct (rep_status r); try done; try (by rewrite Hw).
      destruct Hw as [-> | ->]; [done|].
      rewrite lookup_delete. by case_decide.
Qed.

Lemma cleanupEntry_submap entry w :
  ∀ k cd, activeConsensus (cleanupEntry entry w).2 !! k = Some cd →
          activeConsensus w !! k = Some cd.
Proof.
  destruct entry as [key consensus]. unfold cleanupEntry, agentReport_updateMany.
  run_m. destruct (cd_reports consensus) as [|first rest]; [done|].
  destruct (maxAge <? now w - rep_createdAt first)%Z; [|done].
  destruct (storageFails (env w) ReportsMarkAged); simpl;
    intros k cd; rewrite lookup_delete; by case_decide.
Qed.

Lemma for_each_cleanup_submap entries : ∀ w k cd,
  activeConsensus (for_each entries cleanupEntry w).2 !! k = Some cd →
  activeConsensus w !! k = Some cd.
Proof.
  induction entries as [|entry entries IH]; intros w k cd; [done|].
  simpl. unfold bind.
  pose proof (cleanupEntry_submap entry w k cd) as Hone.
  destruct (cleanupEntry entry w) as [[[]|e] w1]; simpl in *; [|done].
  intros H. apply Hone. by apply IH.
Qed.

Lemma postReport_wf req w :
  (∀ v, window_wf v w) → ∀ v, window_wf v (postReport req w).2.
Proof.
  intros Hwf.
  destruct (postReport_cases req w) as (res & w' & -> & Hcases). cbn [snd].
  destruct Hcases as
    [(Hm & Hs & Hw) | [(Hm & Hr & Hs & Hal & Hac0) | [(Hm & Hr & Ha & Hs & Hw) |
    [(Hm & Hr & Ha & Hsc & Hs & Hw) | [(Hm & Hr & Ha & Hsc & Hi & Hs & Hal' & Hac0') |
     (Hm & _ & Ha & Hsc & Hacc)]]]]]; try (by subst);
    try (by intros v; eapply window_wf_agree; [eassumption|apply Hwf]).
  destruct Hacc as (agentId & validatorId & s & status & _ & _ & _ & _ & _ & ->).
  by apply processReport_wf.
Qed.

(** From a collector that boots with no window, every window ever in the
    map is stored under the key of its own validator. *)
Lemma window_wf_reachable w events :
  activeConsensus w = ∅ → ∀ v, window_wf v (runEvents w events).
Proof.
  intros Hboot.
  assert (Hinit : ∀ v, window_wf v w) by (intros v; by apply window_wf_empty).
  clear Hboot. unfold runEvents. revert w Hinit.
  induction events as [|e events IH]; intros w Hwf; [done|].
  simpl. apply IH. destruct e as [req| |t]; simpl.
  - by apply postReport_wf.
  - apply (window_wf_submap w); [|done].
    unfold cleanupOldConsensus, bind, get. apply for_each_cleanup_submap.
  - done.
Qed.

Lemma touch_lastSeen_idemp t a :
  touch_lastSeen t (touch_lastSeen t a) = touch_lastSeen t a.
Proof. reflexivity. Qed.


(** A HEALTHY report creates no alert. *)
Lemma processReport_healthy r w :
  rep_status r = HEALTHY → alerts (db (processReport r w).2) = alerts (db w).
Proof.
  intros Hh. unfold processReport, try_catch.
  unfold bind at 1, tell at 1, modify at 1.
  set (W0 := emit _ w).
  unfold bind at 1.
  destruct (agent_update_lastSeen_cases AgentUpdateAggregator (rep_agentId r) W0)
    as [[e ->] | (Ha & Hop & ->)]; [by run_m|].
  set (W1 := set_db _ W0).
  unfold bind at 1. rewrite Hh.
  destruct (cancelConsensus_spec (default "undefined" (rep_validatorId r)) W1)
    as (o & w2 & -> & _ & Hal & _).
  destruct o as [[]|e].
  - destruct (addToReportHistory_eq (rep_agentId r) w2) as [f ->]. by simpl.
  - by run_m.
Qed.

Lemma postReport_healthy req w :
  req_status req = Some "HEALTHY" →
  alerts (db (postReport req w).2) = alerts (db w).
Proof.
  intros Hst.
  destruct (postReport_cases req w) as (res & w' & -> & Hcases). cbn [snd].
  destruct Hcases as
    [(Hm & Hs & Hw) | [(Hm & Hr & Hs & Hal & Hac0) | [(Hm & Hr & Ha & Hs & Hw) |
    [(Hm & Hr & Ha & Hsc & Hs & Hw) | [(Hm & Hr & Ha & Hsc & Hi & Hs & Hal' & Hac0') |
     (Hm & _ & Ha & Hsc & Hacc)]]]]]; try congruence.
  destruct Hacc as (agentId & validatorId & s & status & E1 & E3 & E4 & Est & -> & ->).
  rewrite E4 in Hst. injection Hst as ->. vm_compute in Est. injection Est as <-.
  by rewrite processReport_healthy.
Qed.



(** C4, as the code has it.  Nothing the aggregator does reaches its
    caller: [processReport] always returns normally, and when
    [alert.create] fails it leaves the stored alerts as they were; a request
    is answered 500 only when one of the handler's own storage calls fails.
    Webhooks are swallowed as well: with a working storage and a stored
    validator, reaching consensus stores its one alert whatever the
    deliveries do. *)
Theorem alert_failure_is_swallowed :
  (∀ r w, ∃ w', processReport r w = (Ok tt, w') ∧
     (storageFails (env w) AlertCreate = true → alerts (db w') = alerts (db w))) ∧
  (∀ req w res w', postReport req w = (Ok res, w') → ingressOk w →
     res_status res ≠ 500%Z) ∧
  (∀ key cd w, activeConsensus w !! key = Some cd → storage_ok w →
     is_Some (validators (db w) !! cd_validatorId cd) →
     ∃ w' a, reachConsensus key w = (Ok tt, w') ∧
       alerts (db w') = alerts (db w) ++ [a]).
Proof.
  split_and!.
  - intros r w. destruct (processReport_frame r w) as (w' & Hrun & _ & _ & _ & Hf & _).
    eauto.
  - intros req w res w' Hrun Hi.
    destruct (postReport_cases req w) as (res0 & w0 & Hrun0 & Hcases).
    rewrite Hrun in Hrun0. injection Hrun0 as <- <-.
    destruct Hcases as
      [(Hm & Hs & Hw) | [(Hm & Hr & Hs & Hal & Hac0) | [(Hm & Hr & Ha & Hs & Hw) |
      [(Hm & Hr & Ha & Hsc & Hs & Hw) | [(Hm & Hr & Ha & Hsc & Hni & Hs & Hal' & Hac0') |
       (Hm & _ & Ha & Hsc & Hacc)]]]]]; try (rewrite Hs; discriminate).
    + exfalso. apply Hr. apply Hi.
    + exfalso. by apply Hni.
    + destruct Hacc as (?&?&?&?&_&_&_&_&->&_). discriminate.
  - intros key cd w Hcd Hok Hval.
    destruct (reachConsensus_spec key cd w Hcd)
      as (w' & Hrun & _ & _ & new & Hal & _ & _ & Hex & _).
    specialize (Hex Hok Hval).
    destruct new as [|a [|??]]; try discriminate.
    exists w', a. by split.
Qed.

Lemma alert_failure_is_swallowed_witness :
  storageFails (env alertFaultWorld) AlertCreate = true ∧
  ∃ w', processReport (demoReport "r1" "a1" UNHEALTHY) alertFaultWorld = (Ok tt, w') ∧
    alerts (db w') = alerts (db alertFaultWorld).
Proof.
  split; [reflexivity|].
  destruct alert_failure_is_swallowed as (H & _ & _).
  destruct (H (demoReport "r1" "a1" UNHEALTHY) alertFaultWorld) as (w' & Hrun & Hal).
  exists w'. split; [exact Hrun|]. apply Hal. reflexivity.
Defined.

(** C4, as the specification states it, fails: with a storage that
    refuses [alert.create], the second UNHEALTHY report reaches the quorum
    of 2 (the latch is set by this request) and is answered 200 with a
    report id, and no alert is stored. *)
Lemma alert_failure_answered_200 :
  storageFails (env alertFaultWorld) AlertCreate = true ∧
  let w1 := (postReport (demoRequest "a1" "UNHEALTHY") alertFaultWorld).2 in
  let out := postReport (demoRequest "a2" "UNHEALTHY") w1 in
  latched "v1" w1 = false ∧ latched "v1" out.2 = true ∧
  out.1 = Ok (mkResponse 200 (SuccessBody "id1")) ∧
  alerts (db out.2) = [].
Proof. split_and!; by vm_compute. Qed.

(** C10, as the code has it.  An accepted report whose status is
    CONSENSUS_REACHED or CONSENSUS_FAILED leaves the window map and the
    alerts as they were.  Its effects are these and no others: the report is
    stored, the agent's [lastSeen] is set, the time is pushed on the
    aggregator's report history of the agent (which keeps the last 100), and
    one line is written to the console; when the aggregator's own
    [agent.update] fails, the history is left as it was and the error is
    logged too.  For any report, a window that differs after [processReport]
    means the report was UNHEALTHY, or it was HEALTHY and the window is
    gone. *)
Theorem consensus_status_reports_leave_windows :
  (∀ req w res w',
     postReport req w = (Ok res, w') → res_status res = 200%Z →
     req_status req = Some "CONSENSUS_REACHED" ∨
     req_status req = Some "CONSENSUS_FAILED" →
     activeConsensus w' = activeConsensus w ∧
     alerts (db w') = alerts (db w) ∧
     static w w' ∧
     (∃ agentId row,
         req_agentId req = Some agentId ∧
         agentReports (db w') = agentReports (db w) ++ [row] ∧
         res_body res = SuccessBody (rep_id row) ∧
         agents (db w') = alter (touch_lastSeen (now w)) agentId (agents (db w)) ∧
         nextId (db w') = S (nextId (db w)) ∧
         (storageFails (env w) AgentUpdateAggregator = false →
          reportHistory w' =
            <[agentId := pushed (now w) (default [] (reportHistory w !! agentId))]>
              (reportHistory w) ∧
          effects w' =
            effects w ++ [Console (LogProcessingReport agentId (rep_status row))]) ∧
         (storageFails (env w) AgentUpdateAggregator = true →
          reportHistory w' = reportHistory w ∧
          effects w' =
            effects w ++ [Console (LogProcessingReport agentId (rep_status row));
                          Console ErrProcessingReport]))) ∧
  (∀ r w k,
     activeConsensus (processReport r w).2 !! k ≠ activeConsensus w !! k →
     rep_status r = UNHEALTHY ∨
     (rep_status r = HEALTHY ∧ activeConsensus (processReport r w).2 !! k = None)).
Proof.
  split.
  - intros req w res w' Hrun H200 Hstatus.
    destruct (postReport_cases req w) as (res0 & w0 & Hrun0 & Hcases).
    rewrite Hrun in Hrun0. injection Hrun0 as <- <-.
    destruct Hcases as
      [(Hm & Hs & Hw) | [(Hm & Hr & Hs & Hal & Hac0) | [(Hm & Hr & Ha & Hs & Hw) |
      [(Hm & Hr & Ha & Hsc & Hs & Hw) | [(Hm & Hr & Ha & Hsc & Hni & Hs & Hal' & Hac0') |
       (Hm & _ & Ha & Hsc & Hacc)]]]]]; try lia.
    destruct Hacc as (agentId & validatorId & s & status & E1 & E3 & E4 & Est & -> & ->).
    set (row := acceptedRow agentId validatorId status req w).
    set (W := acceptedWorld agentId validatorId status req w).
    assert (Hne : rep_status row ≠ UNHEALTHY ∧ rep_status row ≠ HEALTHY).
    { subst row; simpl.
      destruct Hstatus as [Hst|Hst]; rewrite E4 in Hst; injection Hst as ->;
        vm_compute in Est; injection Est as <-; by split. }
    destruct Hne as [Hu Hh].
    assert (Hstored : is_Some (agents (db W) !! rep_agentId row)).
    { subst W row; simpl. apply lookup_alter_is_Some.
      unfold authFails, agentOf in Ha. rewrite E1 in Ha.
      destruct (agents (db w) !! agentId) as [a|]; [by eexists|]. by exfalso; apply Ha. }
    destruct (processReport_other_history row W Hu Hh) as (Hid & Hpush & Hkeep).
    destruct (processReport_other row W Hu Hh)
      as (w' & Hrun' & Hst & Hac & Hrep & Hal & Hag & es & Hes & Hcon).
    rewrite Hrun' in Hid, Hpush, Hkeep |- *.
    cbn [snd] in *. split_and!; try done.
    exists agentId, row. split_and!; try done.
    + destruct Hag as [-> | ->]; simpl; [done|].
      rewrite alter_alter_eq. apply alter_ext. intros a _.
      apply touch_lastSeen_idemp.
    + intros Hok. by apply Hpush.
  - intros r w k Hk.
    destruct (processReport_windows r w) as (w' & Hrun & Hw).
    rewrite Hrun in Hk |- *. cbn [snd] in *.
    destruct (rep_status r); auto; try (by rewrite Hw in Hk).
    right. split; [done|].
    destruct Hw as [Hw|Hw]; rewrite Hw in Hk |- *; [done|].
    rewrite lookup_delete in Hk |- *. by case_decide.
Qed.

Lemma consensus_status_reports_leave_windows_witness :
  ∃ res w',
    postReport (demoRequest "a3" "CONSENSUS_FAILED") afterQuorum = (Ok res, w') ∧
    res_status res = 200%Z ∧
    req_status (demoRequest "a3" "CONSENSUS_FAILED") = Some "CONSENSUS_FAILED" ∧
    activeConsensus w' = activeConsensus afterQuorum ∧
    alerts (db w') = alerts (db afterQuorum).
Proof.
  destruct consensus_status_reports_leave_windows as [H _].
  destruct (postReport (demoRequest "a3" "CONSENSUS_FAILED") afterQuorum)
    as [[res|e] w'] eqn:Hrun; [|vm_compute in Hrun; discriminate Hrun].
  assert (H200 : res_status res = 200%Z).
  { vm_compute in Hrun. injection Hrun as <- _. reflexivity. }
  exists res, w'. split; [reflexivity|]. split; [exact H200|]. split; [reflexivity|].
  destruct (H _ _ res w' Hrun H200 (or_intror eq_refl)) as (Hac & Hal & _).
  split; [exact Hac | exact Hal].
Defined.

(** C10, as the specification states it, fails: storing the report and
    setting [lastSeen] are not the only effects.  An accepted
    CONSENSUS_FAILED report of [a3], which had no report history, leaves one
    with the time of the report in it. *)
Lemma consensus_status_report_extends_history :
  let out := postReport (demoRequest "a3" "CONSENSUS_FAILED") afterQuorum in
  (∃ reportId, out.1 = Ok (mkResponse 200 (SuccessBody reportId))) ∧
  activeConsensus out.2 = activeConsensus afterQuorum ∧
  reportHistory afterQuorum !! "a3" = None ∧
  reportHistory out.2 !! "a3" = Some [now afterQuorum] ∧
  reportHistory out.2 ≠ reportHistory afterQuorum.
Proof.
  cbv zeta. split_and!.
  - eexists. by vm_compute.
  - by vm_compute.
  - by vm_compute.
  - by vm_compute.
  - intros H.
    assert (Hl : reportHistory
                   (postReport (demoRequest "a3" "CONSENSUS_FAILED") afterQuorum).2
                 !! "a3" = None) by (rewrite H; by vm_compute).
    vm_compute in Hl. discriminate Hl.
Qed.

End CollectorFacts.

Module PeerNetworkFacts.
Import PeerNetwork.

(** *** Collecting responses *)

Lemma deliver_agentId id e n rs : agentId (deliver id e (n, rs)).1 = agentId n.
Proof.
  destruct e as [r|p|p]; simpl; try done.
  unfold registerPeer. by destruct (decide (peer_id p = agentId n)).
Qed.

(** The collected responses are the addressed ones, upserted in order of
    arrival; the peers that come and go do not matter to them. *)
Lemma waitFor_responses id events n rs :
  agentId (waitFor id events (n, rs)).1 = agentId n ∧
  (waitFor id events (n, rs)).2 =
    foldl (fun acc r => upsertResponse r acc) rs
          (addressedResponses id (agentId n) events).
Proof.
  unfold waitFor. revert n rs.
  induction events as [|e events IH]; intros n rs; [done|].
  cbn [foldl]. destruct (deliver id e (n, rs)) as [n1 rs1] eqn:Hd.
  pose proof (deliver_agentId id e n rs) as Hid. rewrite Hd in Hid. simpl in Hid.
  destruct (IH n1 rs1) as [IH1 IH2]. rewrite IH1, IH2, Hid. split; [done|].
  destruct e as [r|p|p]; simpl in Hd; injection Hd as <- <-; simpl; try done.
  unfold handler. by destruct (decide (addressed id (agentId n) r)).
Qed.

Lemma upsertResponse_agents r rs :
  ∀ a, a ∈ map cr_agentId (upsertResponse r rs) ↔
       a = cr_agentId r ∨ a ∈ map cr_agentId rs.
Proof.
  intros a. induction rs as [|x rs IH]; simpl.
  - rewrite list_elem_of_singleton, elem_of_nil. tauto.
  - destruct (decide (cr_agentId x = cr_agentId r)) as [Heq|Hne]; simpl.
    + rewrite !elem_of_cons, Heq. tauto.
    + rewrite !elem_of_cons, IH. tauto.
Qed.

Lemma upsertResponse_NoDup r rs :
  NoDup (map cr_agentId rs) → NoDup (map cr_agentId (upsertResponse r rs)).
Proof.
  induction rs as [|x rs IH]; simpl; intros Hnd.
  - apply NoDup_singleton.
  - apply NoDup_cons in Hnd as [Hx Hnd].
    destruct (decide (cr_agentId x = cr_agentId r)) as [Heq|Hne]; simpl.
    + apply NoDup_cons. by rewrite <- Heq.
    + apply NoDup_cons. split; [|by apply IH].
      rewrite upsertResponse_agents. intros [?|?]; congruence.
Qed.

Lemma keptFrom_upsert peer r rs :
  keptFrom peer (upsertResponse r rs) =
    if decide (cr_agentId r = peer) then
      match keptFrom peer rs with Some _ => Some r | None => Some r end
    else keptFrom peer rs.
Proof.
  unfold keptFrom. induction rs as [|x rs IH]; simpl.
  - rewrite filter_cons, filter_nil. by destruct (decide (cr_agentId r = peer)).
  - destruct (decide (cr_agentId x = cr_agentId r)) as [Heq|Hne].
    + rewrite !filter_cons.
      destruct (decide (cr_agentId r = peer)) as [Hp|Hp].
      * destruct (decide (cr_agentId x = peer)); [|congruence]. simpl.
        by destruct (head (filter _ rs)).
      * by destruct (decide (cr_agentId x = peer)); [congruence|].
    + rewrite !filter_cons.
      destruct (decide (cr_agentId x = peer)) as [Hx|Hx]; simpl.
      * destruct (decide (cr_agentId r = peer)); [congruence|done].
      * apply IH.
Qed.

Lemma latestFrom_snoc peer rs r :
  latestFrom peer (rs ++ [r]) =
    if decide (cr_agentId r = peer) then Some r else latestFrom peer rs.
Proof.
  unfold latestFrom. rewrite filter_app, filter_cons, filter_nil.
  destruct (decide (cr_agentId r = peer)).
  - by rewrite last_snoc.
  - by rewrite app_nil_r.
Qed.

Lemma collected_kept peer rs :
  keptFrom peer (foldl (fun acc r => upsertResponse r acc) [] rs) = latestFrom peer rs.
Proof.
  induction rs as [|r rs IH] using rev_ind; [done|].
  rewrite foldl_app. simpl. rewrite keptFrom_upsert, latestFrom_snoc.
  destruct (decide (cr_agentId r = peer)); [|done].
  by destruct (keptFrom peer _).
Qed.

Lemma collected_NoDup rs :
  NoDup (map cr_agentId (foldl (fun acc r => upsertResponse r acc) [] rs)).
Proof.
  induction rs as [|r rs IH] using rev_ind; [apply NoDup_nil_2|].
  rewrite foldl_app. simpl. by apply upsertResponse_NoDup.
Qed.

Lemma awaitTimer_arrivedBefore id fires arrivals : ∀ st,
  awaitTimer id fires arrivals st = waitFor id (arrivedBefore fires arrivals) st.
Proof.
  unfold awaitTimer, waitFor, arrivedBefore.
  induction arrivals as [|a arrivals IH]; intros st; [done|].
  cbn [foldl]. rewrite filter_cons. unfold arrive at 2.
  destruct (decide (a.1 < fires)%Z); [|by rewrite IH].
  cbn [map foldl]. by rewrite IH.
Qed.

Lemma arrivedBefore_late t arrivals late :
  Forall (fun a => (t ≤ a.1)%Z) late →
  arrivedBefore t (arrivals ++ late) = arrivedBefore t arrivals.
Proof.
  intros Hlate. unfold arrivedBefore. rewrite filter_app.
  replace (filter (fun a => (a.1 < t)%Z) late) with (@nil (Z * WireEvent)).
  - by rewrite app_nil_r.
  - symmetry. induction Hlate as [|a late Ha _ IH]; [done|].
    rewrite filter_cons. destruct (decide (a.1 < t)%Z); [lia|done].
Qed.

Lemma setTimeout_in_range after :
  (1 ≤ after ≤ 2147483647)%Z → setTimeout after = after.
Proof. intros H. unfold setTimeout, TIMEOUT_MAX. by rewrite decide_True. Qed.

Lemma setTimeout_out_of_range after :
  ¬ (1 ≤ after ≤ 2147483647)%Z → setTimeout after = 1%Z.
Proof. intros H. unfold setTimeout, TIMEOUT_MAX. by rewrite decide_False. Qed.

(** What [requestConsensus] returns with peers: the responses upserted in
    order of arrival, among the events that arrived before its timer
    fired. *)
Lemma requestConsensus_collected n uuid request timeoutMs arrivals :
  size (peers n) ≠ 0 →
  let out := requestConsensus n uuid request timeoutMs arrivals in
  elapsed out = setTimeout timeoutMs ∧
  consensusId (consensus out) = uuid ∧
  responses (consensus out) =
    foldl (fun acc r => upsertResponse r acc) []
      (addressedResponses uuid (agentId n)
         (arrivedBefore (setTimeout timeoutMs) arrivals)) ∧
  agreeCount (consensus out) =
    length (filter (fun r => agree r = true) (responses (consensus out))) ∧
  network out = (waitFor uuid (arrivedBefore (setTimeout timeoutMs) arrivals) (n, [])).1.
Proof.
  intros Hn. unfold requestConsensus.
  destruct (decide (size (peers n) = 0)); [done|]. cbv zeta.
  rewrite awaitTimer_arrivedBefore.
  destruct (waitFor_responses uuid (arrivedBefore (setTimeout timeoutMs) arrivals) n [])
    as [_ Hrs].
  destruct (waitFor uuid (arrivedBefore (setTimeout timeoutMs) arrivals) (n, []))
    as [n' collected].
  simpl in *. by subst.
Qed.

Lemma addressedResponses_app id self events more :
  addressedResponses id self (events ++ more) =
    addressedResponses id self events ++ addressedResponses id self more.
Proof.
  induction events as [|[r|p|p] events IH]; simpl; try done.
  destruct (decide (addressed id self r)); [|done]. by rewrite IH.
Qed.

Lemma arrivedBefore_snoc t arrivals a :
  (a.1 < t)%Z → arrivedBefore t (arrivals ++ [a]) = arrivedBefore t arrivals ++ [a.2].
Proof.
  intros Ha. unfold arrivedBefore.
  by rewrite filter_app, filter_cons, decide_True, filter_nil, map_app.
Qed.

(** C6, as the code has it.  [requestConsensus] without peers returns
    [{uuid, [], 0, 0}] at once and sends nothing.  With peers it returns
    after exactly [timeoutMs] when that lies in the range of the timer, 1 to
    2147483647 ms, and after 1 ms for any other [timeoutMs]; whatever
    arrived, it does not return earlier.  The responses it holds have
    pairwise distinct agent ids; the one held for a peer is the latest
    response addressed to this request that arrived from that peer before
    the function returned; [agreeCount] counts the held responses with
    [agree]; whatever arrives at or after the return changes nothing; and
    however many peers have answered, the function is still listening: one
    more response to this request that arrives before the return is the one
    held for its peer. *)
Theorem requestConsensus_spec n uuid request timeoutMs arrivals :
  let out := requestConsensus n uuid request timeoutMs arrivals in
  (size (peers n) = 0 →
     consensus out = mkConsensusResult uuid [] 0 0 ∧ elapsed out = 0%Z ∧
     broadcastTo out = []) ∧
  (size (peers n) ≠ 0 →
     ((1 ≤ timeoutMs ≤ 2147483647)%Z → elapsed out = timeoutMs) ∧
     (¬ (1 ≤ timeoutMs ≤ 2147483647)%Z → elapsed out = 1%Z) ∧
     consensusId (consensus out) = uuid ∧
     NoDup (map cr_agentId (responses (consensus out))) ∧
     (∀ peer, keptFrom peer (responses (consensus out)) =
              latestFrom peer (addressedResponses uuid (agentId n)
                                 (arrivedBefore (elapsed out) arrivals))) ∧
     agreeCount (consensus out) =
       length (filter (fun r => agree r = true) (responses (consensus out))) ∧
     (∀ late, Forall (fun a => (elapsed out ≤ a.1)%Z) late →
        requestConsensus n uuid request timeoutMs (arrivals ++ late) = out) ∧
     (∀ t response, (t < elapsed out)%Z → addressed uuid (agentId n) response →
        keptFrom (cr_agentId response)
          (responses (consensus
             (requestConsensus n uuid request timeoutMs
                (arrivals ++ [(t, ResponseReceived response)]))))
        = Some response)).
Proof.
  cbv zeta. split.
  - intros H0. unfold requestConsensus. by destruct (decide (size (peers n) = 0)).
  - intros Hn.
    destruct (requestConsensus_collected n uuid request timeoutMs arrivals Hn)
      as (Hel & Hid & Hrs & Hag & _).
    rewrite Hel, Hrs. split_and!.
    + apply setTimeout_in_range.
    + apply setTimeout_out_of_range.
    + done.
    + apply collected_NoDup.
    + intros peer. apply collected_kept.
    + by rewrite Hag, Hrs.
    + intros late Hlate. unfold requestConsensus.
      destruct (decide (size (peers n) = 0)); [done|]. cbv zeta.
      by rewrite !awaitTimer_arrivedBefore, arrivedBefore_late.
    + intros t response Ht Ha.
      destruct (requestConsensus_collected n uuid request timeoutMs
                  (arrivals ++ [(t, ResponseReceived response)]) Hn)
        as (_ & _ & -> & _).
      rewrite collected_kept, (arrivedBefore_snoc _ _ (t, ResponseReceived response))
        by done.
      rewrite addressedResponses_app. cbn [addressedResponses snd].
      rewrite decide_True by done. rewrite latestFrom_snoc. by rewrite decide_True.
Qed.

Lemma requestConsensus_spec_witness :
  let arrivals :=
    [(10%Z, ResponseReceived (demoResponse "a2" false));
     (20%Z, ResponseReceived (demoResponse "a3" true));
     (30%Z, ResponseReceived (demoResponse "a2" true))] in
  let out := requestConsensus demoNetwork "uuid-1" demoConsensusRequest 100 arrivals in
  size (peers demoNetwork) ≠ 0 ∧ (1 ≤ 100 ≤ 2147483647)%Z ∧
  elapsed out = 100%Z ∧
  (∀ peer, keptFrom peer (responses (consensus out)) =
           latestFrom peer (addressedResponses "uuid-1" (agentId demoNetwork)
                              (arrivedBefore (elapsed out) arrivals))) ∧
  agreeCount (consensus out) =
    length (filter (fun r => agree r = true) (responses (consensus out))) ∧
  (∀ late, Forall (fun a => (elapsed out ≤ a.1)%Z) late →
     requestConsensus demoNetwork "uuid-1" demoConsensusRequest 100 (arrivals ++ late)
     = out).
Proof.
  intros arrivals out.
  assert (Hpeers : size (peers demoNetwork) ≠ 0) by (vm_compute; discriminate).
  assert (Hrange : (1 ≤ 100 ≤ 2147483647)%Z) by lia.
  split; [exact Hpeers|]. split; [exact Hrange|].
  destruct (proj2 (requestConsensus_spec demoNetwork "uuid-1" demoConsensusRequest 100
                     arrivals) Hpeers) as (Hin & _ & _ & _ & Hkept & Hagree & Hlate & _).
  split; [exact (Hin Hrange)|]. split; [exact Hkept|]. split; [exact Hagree|exact Hlate].
Defined.

(** C6, as the specification states it, fails: with a timeout of
    3000000000 ms, which is beyond the range of the timer, and a peer whose
    agreeing answer arrives after 100 ms, [requestConsensus] returns after
    1 ms, holding no response. *)
Lemma timeout_beyond_timer_range :
  let answer := demoResponse "a2" true in
  let out := requestConsensus demoNetwork "uuid-1" demoConsensusRequest 3000000000
               [(100%Z, ResponseReceived answer)] in
  size (peers demoNetwork) ≠ 0 ∧ addressed "uuid-1" (agentId demoNetwork) answer ∧
  elapsed out ≠ 3000000000%Z ∧ elapsed out = 1%Z ∧
  responses (consensus out) = [] ∧ agreeCount (consensus out) = 0.
Proof. cbv zeta. split_and!; by vm_compute. Qed.

End PeerNetworkFacts.

Module ProbeFacts.
Import Probe.

Lemma answered200_dec x : {answered200 x} + {¬ answered200 x}.
Proof.
  unfold answered200. destruct (outcome x) as [status statusText| |].
  - destruct (decide (status = 200%Z)) as [->|Hne].
    + left. by exists statusText.
    + right. intros [t Ht]. congruence.
  - right. intros [t Ht]. discriminate.
  - right. intros [t Ht]. discriminate.
Qed.

(** One iteration of the loop on an attempt that is not answered 200. *)
Lemma attempts_failed_step cfg b remaining attempt lastError clock done :
  ¬ answered200 (health b attempt) →
  ∃ clock',
    attempts cfg b (S remaining) attempt lastError clock done =
    attempts cfg b remaining (S attempt) (Some (attemptError (health b attempt)))
      clock'
      (done ++ GetHealth attempt ::
         (if throws (health b attempt) && negb (remaining =? 0)%nat
          then [Delay 1000] else [])).
Proof.
  intros Hno. simpl. unfold throws, attemptError.
  destruct (axios_get _ (outcome (health b attempt))) as [[status statusText]|thrown] eqn:Hget.
  - destruct (decide (status = 200%Z)) as [->|Hne].
    + exfalso. apply Hno. exists statusText.
      unfold axios_get in Hget. destruct (outcome (health b attempt)); try discriminate.
      destruct (_ <? _)%Z; [|discriminate]. congruence.
    + simpl. eexists. rewrite <- ?app_assoc. reflexivity.
  - simpl. destruct (decide (remaining ≠ 0)) as [Hr|Hr].
    + destruct remaining; [done|]. simpl. eexists. rewrite <- ?app_assoc. reflexivity.
    + assert (remaining = 0) as -> by (destruct remaining; [done|by exfalso; apply Hr]).
      simpl. eexists. rewrite <- ?app_assoc. reflexivity.
Qed.

(** The loop when none of the remaining attempts is answered 200. *)
Lemma attempts_all_failed cfg b n : ∀ attempt total lastError clock done,
  total + 1 = attempt + n →
  (∀ i, attempt ≤ i < attempt + n → ¬ answered200 (health b i)) →
  let run := attempts cfg b n attempt lastError clock done in
  isHealthy (result run) = false ∧
  trace run = done ++ failedActions b total attempt n ∧
  bs_error (result run) =
    Some (finalError (match n with
                      | O => lastError
                      | S _ => Some (attemptError (health b total))
                      end)).
Proof.
  induction n as [|n IH]; intros attempt total lastError clock done Htot Hall.
  - simpl. by rewrite app_nil_r.
  - destruct (attempts_failed_step cfg b n attempt lastError clock done) as [clock' ->].
    { apply Hall. lia. }
    destruct (IH (S attempt) total (Some (attemptError (health b attempt))) clock'
                 (done ++ GetHealth attempt ::
                    (if throws (health b attempt) && negb (n =? 0)%nat
                     then [Delay 1000] else [])))
      as (H1 & H2 & H3); [lia | intros i Hi; apply Hall; lia |].
    cbv zeta. rewrite H1, H2, H3. split_and!; [done| |].
    + simpl. rewrite <- app_assoc. simpl. do 4 f_equal.
      destruct (throws (health b attempt)); simpl; [|done].
      destruct (Nat.eqb_spec n 0), (Nat.eqb_spec attempt total); simpl; try done; lia.
    + destruct n; [|done]. by replace total with attempt by lia.
Qed.

(** The loop when attempt [k] is the first that is answered 200. *)
Lemma attempts_first_success cfg b n : ∀ attempt total k lastError clock done,
  total + 1 = attempt + n → attempt ≤ k ≤ total →
  (∀ i, attempt ≤ i < k → ¬ answered200 (health b i)) →
  answered200 (health b k) →
  let run := attempts cfg b n attempt lastError clock done in
  isHealthy (result run) = true ∧ bs_error (result run) = None ∧
  blockHeight (result run) =
    match blockHead b with BlockFetched slot => slot | BlockFailed => None end ∧
  trace run = done ++ failedActions b total attempt (k - attempt)
                   ++ [GetHealth k; GetBlockHead].
Proof.
  induction n as [|n IH]; intros attempt total k lastError clock done Htot Hk Hbefore H200;
    [lia|].
  destruct (decide (attempt = k)) as [->|Hne].
  - destruct H200 as [statusText H200]. simpl. rewrite H200. simpl.
    rewrite Nat.sub_diag. simpl. rewrite <- app_assoc. by split_and!.
  - destruct (attempts_failed_step cfg b n attempt lastError clock done) as [clock' ->].
    { apply Hbefore. lia. }
    destruct (IH (S attempt) total k (Some (attemptError (health b attempt))) clock'
                 (done ++ GetHealth attempt ::
                    (if throws (health b attempt) && negb (n =? 0)%nat
                     then [Delay 1000] else [])))
      as (H1 & H2 & H3 & H4); [lia | lia | intros i Hi; apply Hbefore; lia | done |].
    cbv zeta. rewrite H1, H2, H3, H4. split_and!; try done.
    replace (k - attempt) with (S (k - S attempt)) by lia.
    simpl. rewrite <- !app_assoc. simpl. do 3 f_equal.
    destruct (throws (health b attempt)); simpl; [|done].
    destruct (Nat.eqb_spec n 0), (Nat.eqb_spec attempt total); simpl; try done; lia.
Qed.

Lemma failedActions_attempts b total first n :
  length (filter (fun a => isGetHealth a = true) (failedActions b total first n)) = n.
Proof.
  revert first. induction n as [|n IH]; intros first; [done|].
  cbn [failedActions]. rewrite filter_cons_True by done.
  cbn [length]. rewrite filter_app, length_app, IH.
  by destruct (throws (health b first) && negb (first =? total)%nat).
Qed.

(** C7, as the code has it.  With [n] the configured number of attempts: if
    attempt [k <= n] is the first that is answered 200, the result is
    HEALTHY whatever the block-head request does (its failure only leaves
    [blockHeight] undefined), and the probe has done the [k - 1] failed
    attempts, the request and the block-head request.  If none of the [n]
    attempts is answered 200, the result is UNHEALTHY after exactly [n]
    requests, with the error string of the last attempt (the default text
    when there was no attempt or the string is empty).  Between the
    attempts, a delay of 1000 ms follows exactly the attempts that throw (a
    status of 500 or more, or a transport error) and are not the last. *)
Theorem probe_result cfg b startTime :
  let n := Z.to_nat (healthCheckRetries cfg) in
  let r := performHealthCheck cfg b startTime in
  (∀ k, 1 ≤ k ≤ n → answered200 (health b k) →
     (∀ i, 1 ≤ i < k → ¬ answered200 (health b i)) →
     hc_status r.1 = StatusHealthy ∧
     (∃ bs, beaconStatus r.1 = Some bs ∧ isHealthy bs = true ∧
        blockHeight bs =
          match blockHead b with BlockFetched slot => slot | BlockFailed => None end) ∧
     r.2 = failedActions b n 1 (k - 1) ++ [GetHealth k; GetBlockHead]) ∧
  ((∀ i, 1 ≤ i ≤ n → ¬ answered200 (health b i)) →
     hc_status r.1 = StatusUnhealthy ∧
     r.2 = failedActions b n 1 n ∧
     length (filter (fun a => isGetHealth a = true) r.2) = n ∧
     (∃ bs, beaconStatus r.1 = Some bs ∧
        bs_error bs =
          Some (finalError (match n with
                            | O => None
                            | S _ => Some (attemptError (health b n))
                            end)))).
Proof.
  cbv zeta. unfold performHealthCheck, checkBeaconNodeHealth.
  set (n := Z.to_nat (healthCheckRetries cfg)). split.
  - intros k Hk H200 Hbefore.
    destruct (attempts_first_success cfg b n 1 n k None startTime [])
      as (H1 & H2 & H3 & H4); [lia | lia | done | done |].
    simpl. rewrite H1. split_and!; [done| |].
    + eexists. by split_and!.
    + by rewrite H4.
  - intros Hall.
    destruct (attempts_all_failed cfg b n 1 n None startTime [])
      as (H1 & H2 & H3); [lia | intros i Hi; apply Hall; lia |].
    simpl. rewrite H1. split_and!; [done|by rewrite H2| |].
    + rewrite H2. simpl. apply failedActions_attempts.
    + eexists. by split.
Qed.

Lemma probe_result_witness :
  let b := steadyBeacon 200 "OK" in
  let r := performHealthCheck demoProbeConfig b 0 in
  1 ≤ 1 ≤ Z.to_nat (healthCheckRetries demoProbeConfig) ∧
  answered200 (health b 1) ∧
  (∀ i, 1 ≤ i < 1 → ¬ answered200 (health b i)) ∧
  hc_status r.1 = StatusHealthy ∧
  (∃ bs, beaconStatus r.1 = Some bs ∧ isHealthy bs = true ∧
     blockHeight bs =
       match blockHead b with BlockFetched slot => slot | BlockFailed => None end) ∧
  r.2 = failedActions b (Z.to_nat (healthCheckRetries demoProbeConfig)) 1 (1 - 1)
          ++ [GetHealth 1; GetBlockHead].
Proof.
  cbv zeta.
  assert (H1 : 1 ≤ 1 ≤ Z.to_nat (healthCheckRetries demoProbeConfig))
    by (vm_compute; lia).
  assert (H2 : answered200 (health (steadyBeacon 200 "OK") 1))
    by (exists "OK"; reflexivity).
  assert (H3 : ∀ i, 1 ≤ i < 1 → ¬ answered200 (health (steadyBeacon 200 "OK") i))
    by (intros i Hi; lia).
  split; [exact H1|]. split; [exact H2|]. split; [exact H3|].
  exact (proj1 (probe_result demoProbeConfig (steadyBeacon 200 "OK") 0) 1 H1 H2 H3).
Defined.

(** C7, as the specification states it, fails twice: a beacon that answers
    204 (a 2xx status) is reported UNHEALTHY, and neither after a 204 nor
    after a 404 does the probe wait before the next attempt. *)
Lemma no_content_is_unhealthy :
  hc_status (performHealthCheck demoProbeConfig (steadyBeacon 204 "No Content") 0).1
    = StatusUnhealthy ∧
  (performHealthCheck demoProbeConfig (steadyBeacon 204 "No Content") 0).2
    = [GetHealth 1; GetHealth 2; GetHealth 3] ∧
  (performHealthCheck demoProbeConfig (steadyBeacon 404 "Not Found") 0).2
    = [GetHealth 1; GetHealth 2; GetHealth 3].
Proof. split_and!; by vm_compute. Qed.

End ProbeFacts.

Module AgentFacts.
Import Probe PeerNetwork Agent.

Lemma sent_app out1 out2 : sent (out1 ++ out2) = sent out1 ++ sent out2.
Proof. unfold sent. apply omap_app. Qed.

Lemma sendHealthReport_sent cfg env st hr :
  ∃ p, sent (sendHealthReport cfg env st hr).2 = [p] ∧ pl_status p = hc_status hr.
Proof. unfold sendHealthReport. simpl. eauto. Qed.

(** C3.  On an UNHEALTHY probe result the agent sends at most one report,
    an UNHEALTHY one.  Without P2P (disabled, or no peer network) it sends
    it.  With P2P, where [c] is what [requestConsensus] returns: if
    [totalPeers] is 0 it sends it; otherwise it sends it exactly when
    [agreeCount + 1 >= consensusThreshold]. *)
Theorem unhealthy_report_rule cfg env st hr :
  hc_status hr = StatusUnhealthy →
  let out := (handleHealthResult cfg env st hr).2 in
  Forall (fun p => pl_status p = StatusUnhealthy) (sent out) ∧
  length (sent out) ≤ 1 ∧
  (isP2PEnabled cfg = false ∨ peerNetwork st = None → length (sent out) = 1) ∧
  (∀ n, isP2PEnabled cfg = true → peerNetwork st = Some n →
     let c := consensus
                (requestConsensus n (uuid env)
                   (mkConsensusRequest (hc_validatorId hr) (cfg_agentId cfg)
                                       (requestTime env) [hr])
                   (getConsensusTimeout cfg) (arrivals env)) in
     (totalPeers c = 0 → length (sent out) = 1) ∧
     (totalPeers c ≠ 0 →
      (length (sent out) = 1 ↔
       (getConsensusThreshold cfg ≤ Z.of_nat (agreeCount c) + 1)%Z))).
Proof.
  intros Hun. cbv zeta. unfold handleHealthResult. rewrite Hun.
  destruct (decide (StatusUnhealthy = StatusUnhealthy)) as [_|]; [|done].
  unfold confirmUnhealthyWithPeers.
  destruct (isP2PEnabled cfg) eqn:Hp2p; [destruct (peerNetwork st) as [n|] eqn:Hpn|].
  - set (o := requestConsensus n _ _ _ _).
    destruct (decide (totalPeers (consensus o) = 0)) as [H0|H0].
    + cbn [negb]. simpl. rewrite Hun.
      split_and!; try done; try (by repeat constructor).
      intros n' _ Heq. assert (n' = n) as -> by congruence. fold o. split; [done|]. by intros.
    + destruct (getConsensusThreshold cfg <=? Z.of_nat (agreeCount (consensus o)) + 1)%Z
        eqn:Hth; simpl.
      * rewrite Hun.
        split_and!; try done; try (by repeat constructor).
        intros n' _ Heq. assert (n' = n) as -> by congruence. fold o. split; [done|]. intros _.
        split; [|done]. intros _. by apply Z.leb_le.
      * split_and!; try done; try lia; try (by intros [?|?]).
        intros n' _ Heq. assert (n' = n) as -> by congruence. fold o. split; [done|]. intros _.
        split; [done|]. intros Hle. apply Z.leb_le in Hle. congruence.
  - simpl. rewrite Hun. split_and!; try done. by repeat constructor.
  - simpl. rewrite Hun. split_and!; try done. by repeat constructor.
Qed.

Lemma unhealthy_report_rule_witness :
  hc_status unhealthyResult = StatusUnhealthy ∧
  isP2PEnabled demoConfig = true ∧
  let env := mkCycleEnv "uuid-1"
               [(10%Z, ResponseReceived (demoResponse "a2" true))] 0 true in
  let st := initial (Some demoNetwork) in
  let out := (handleHealthResult demoConfig env st unhealthyResult).2 in
  let c := consensus
             (requestConsensus demoNetwork (uuid env)
                (mkConsensusRequest (hc_validatorId unhealthyResult)
                   (cfg_agentId demoConfig) (requestTime env) [unhealthyResult])
                (getConsensusTimeout demoConfig) (arrivals env)) in
  totalPeers c ≠ 0 ∧
  (length (sent out) = 1 ↔
   (getConsensusThreshold demoConfig ≤ Z.of_nat (agreeCount c) + 1)%Z).
Proof.
  split; [reflexivity|]. split; [reflexivity|]. cbv zeta.
  assert (Hpeers : totalPeers (consensus
             (requestConsensus demoNetwork "uuid-1"
                (mkConsensusRequest (hc_validatorId unhealthyResult)
                   (cfg_agentId demoConfig) 0 [unhealthyResult])
                (getConsensusTimeout demoConfig)
                [(10%Z, ResponseReceived (demoResponse "a2" true))])) ≠ 0).
  { vm_compute. discriminate. }
  split; [exact Hpeers|].
  refine (proj2 (proj2 (proj2 (proj2
            (unhealthy_report_rule demoConfig
               (mkCycleEnv "uuid-1"
                  [(10%Z, ResponseReceived (demoResponse "a2" true))] 0 true)
               (initial (Some demoNetwork)) unhealthyResult _)))
            demoNetwork _ _) Hpeers); reflexivity.
Defined.

(** *** Runs of HEALTHY probe results *)

Lemma cycle_suppressed cfg env st hr :
  hc_status hr = StatusHealthy → lastReportedStatus st = Some StatusHealthy →
  (performMonitoringCycle cfg env st hr).2 = [] ∧
  lastReportedStatus (performMonitoringCycle cfg env st hr).1 = Some StatusHealthy.
Proof.
  intros Hh Hl. unfold performMonitoringCycle, handleHealthResult, hasStatusChanged.
  simpl. rewrite Hh, Hl. simpl.
  destruct (decide (StatusHealthy = StatusUnhealthy)); [done|]. by simpl.
Qed.

Lemma run_suppressed cfg cycles : ∀ st,
  Forall (fun c => hc_status c.1 = StatusHealthy) cycles →
  lastReportedStatus st = Some StatusHealthy →
  (run cfg st cycles).2 = [] ∧
  lastReportedStatus (run cfg st cycles).1 = Some StatusHealthy.
Proof.
  induction cycles as [|[hr env] cycles IH]; intros st Hall Hl; [done|].
  apply Forall_cons in Hall as [Hh Hall]. simpl in Hh.
  destruct (cycle_suppressed cfg env st hr Hh Hl) as [Hout Hst].
  simpl. destruct (performMonitoringCycle cfg env st hr) as [st1 out1].
  simpl in Hout, Hst. subst out1.
  destruct (IH st1 Hall Hst) as [Hout2 Hst2].
  destruct (run cfg st1 cycles) as [st2 out2]. simpl in *. by subst.
Qed.

Lemma cycle_first_report cfg env st hr :
  hc_status hr = StatusHealthy → lastReportedStatus st = None →
  (∃ p, sent (performMonitoringCycle cfg env st hr).2 = [p] ∧
        pl_status p = StatusHealthy) ∧
  lastReportedStatus (performMonitoringCycle cfg env st hr).1 =
    if reportAccepted env then Some StatusHealthy else None.
Proof.
  intros Hh Hl. unfold performMonitoringCycle, handleHealthResult, hasStatusChanged.
  simpl. rewrite Hh, Hl. simpl.
  destruct (decide (StatusHealthy = StatusUnhealthy)); [done|].
  unfold sendHealthReport. rewrite Hh. simpl. split; [eauto|].
  by destruct (reportAccepted env).
Qed.

Lemma cycle_healthy_sent cfg env st hr :
  hc_status hr = StatusHealthy →
  Forall (fun p => pl_status p = StatusHealthy)
         (sent (performMonitoringCycle cfg env st hr).2).
Proof.
  intros Hh. unfold performMonitoringCycle, handleHealthResult.
  rewrite Hh. destruct (decide (StatusHealthy = StatusUnhealthy)); [done|].
  destruct (hasStatusChanged _ _); [|by constructor].
  unfold sendHealthReport. simpl. rewrite Hh. by repeat constructor.
Qed.

Lemma run_healthy_sent cfg cycles : ∀ st,
  Forall (fun c => hc_status c.1 = StatusHealthy) cycles →
  Forall (fun p => pl_status p = StatusHealthy) (sent (run cfg st cycles).2).
Proof.
  induction cycles as [|[hr env] cycles IH]; intros st Hall; [by constructor|].
  apply Forall_cons in Hall as [Hh Hall]. simpl in Hh.
  pose proof (cycle_healthy_sent cfg env st hr Hh) as H1.
  simpl. destruct (performMonitoringCycle cfg env st hr) as [st1 out1].
  specialize (IH st1 Hall). destruct (run cfg st1 cycles) as [st2 out2].
  simpl in *. rewrite sent_app. by apply Forall_app.
Qed.

Lemma run_until_accepted cfg cycles : ∀ st,
  Forall (fun c => hc_status c.1 = StatusHealthy) cycles →
  lastReportedStatus st = None →
  length (sent (run cfg st cycles).2) = reportsUntilAccepted cycles.
Proof.
  induction cycles as [|[hr env] cycles IH]; intros st Hall Hl; [done|].
  apply Forall_cons in Hall as [Hh Hall]. simpl in Hh.
  destruct (cycle_first_report cfg env st hr Hh Hl) as [(p & Hp & _) Hst].
  simpl. destruct (performMonitoringCycle cfg env st hr) as [st1 out1].
  simpl in Hp, Hst.
  destruct (reportAccepted env).
  - destruct (run_suppressed cfg cycles st1 Hall Hst) as [Hout2 _].
    destruct (run cfg st1 cycles) as [st2 out2]. simpl in *. subst out2.
    by rewrite app_nil_r, Hp.
  - specialize (IH st1 Hall Hst).
    destruct (run cfg st1 cycles) as [st2 out2]. simpl in *.
    by rewrite sent_app, length_app, Hp, IH.
Qed.

(** C8, as the code has it.  Along a run of HEALTHY probe results every
    report the agent sends is a HEALTHY one.  Once a HEALTHY report has been
    accepted, the run sends nothing.  From the start (nothing reported yet)
    the agent sends one report per cycle up to and including the first that
    the collector accepts, so exactly one, the initial one, with a collector
    that accepts.  At the collector, a HEALTHY report creates no alert. *)
Theorem healthy_reports_suppressed cfg st cycles :
  Forall (fun c => hc_status c.1 = StatusHealthy) cycles →
  Forall (fun p => pl_status p = StatusHealthy) (sent (run cfg st cycles).2) ∧
  (lastReportedStatus st = Some StatusHealthy →
     sent (run cfg st cycles).2 = [] ∧
     lastReportedStatus (run cfg st cycles).1 = Some StatusHealthy) ∧
  (lastReportedStatus st = None →
     length (sent (run cfg st cycles).2) = reportsUntilAccepted cycles ∧
     (cycles ≠ [] → Forall (fun c => reportAccepted c.2 = true) cycles →
      length (sent (run cfg st cycles).2) = 1)) ∧
  (∀ req w, Collector.req_status req = Some "HEALTHY" →
     Collector.alerts (Collector.db (Collector.postReport req w).2)
     = Collector.alerts (Collector.db w)).
Proof.
  intros Hall. split_and!.
  - by apply run_healthy_sent.
  - intros Hl. by destruct (run_suppressed cfg cycles st Hall Hl) as [-> ->].
  - intros Hl. rewrite (run_until_accepted cfg cycles st Hall Hl). split; [done|].
    intros Hne Hacc. destruct cycles as [|[hr env] cycles]; [done|].
    apply Forall_cons in Hacc as [Ha _]. simpl in Ha. simpl. by rewrite Ha.
  - intros req w. apply CollectorFacts.postReport_healthy.
Qed.

Lemma healthy_reports_suppressed_witness :
  let cycles := [(healthyResult, quietEnv); (healthyResult, quietEnv)] in
  let st := mkState None None (Some StatusHealthy) in
  Forall (fun c => hc_status c.1 = StatusHealthy) cycles ∧
  lastReportedStatus st = Some StatusHealthy ∧
  sent (run demoConfig st cycles).2 = [] ∧
  lastReportedStatus (run demoConfig st cycles).1 = Some StatusHealthy.
Proof.
  cbv zeta.
  assert (Hall : Forall (fun c : HealthCheckResult * CycleEnv =>
                           hc_status c.1 = StatusHealthy)
                   [(healthyResult, quietEnv); (healthyResult, quietEnv)])
    by (repeat constructor).
  split; [exact Hall|]. split; [reflexivity|].
  exact (proj1 (proj2 (healthy_reports_suppressed demoConfig
                         (mkState None None (Some StatusHealthy)) _ Hall)) eq_refl).
Defined.

(** C8, as the specification states it, fails: an agent that starts on a
    healthy beacon, and only ever probes HEALTHY, sends a report in its
    first cycle. *)
Lemma healthy_start_sends_report :
  Forall (fun c => hc_status c.1 = StatusHealthy)
         [(healthyResult, quietEnv); (healthyResult, quietEnv);
          (healthyResult, quietEnv)] ∧
  sent (run demoConfig (initial None)
          [(healthyResult, quietEnv); (healthyResult, quietEnv);
           (healthyResult, quietEnv)]).2
  = [mkPayload "a1" "v1" StatusHealthy "Validator is healthy" "k"].
Proof. split; [by repeat constructor | by vm_compute]. Qed.

End AgentFacts.

Module WebhookFacts.
Import Webhook.

Lemma digest_truthy (s : string) : String.length s = 64 → truthy (Some s) = true.
Proof. intros Hlen. unfold truthy. by destruct (decide (s = "")) as [->|]. Qed.

Lemma truthy_default (o : option string) :
  truthy o = true → o = Some (default "" o).
Proof. by destruct o. Qed.

(** C9.  For a webhook whose secret is set (present and not empty), with a
    hex digest of 64 characters as [createHmac(...).digest("hex")] gives:
    every request the dispatcher writes has the JSON text of the payload as
    its body and carries [X-Sentinel-Signature] equal to the HMAC of exactly
    that body under the secret, and [validateSignature] accepts that body
    with that header and secret. *)
Theorem signature_round_trip {Payload : Type}
    (hmacSha256Hex : string → string → string)
    (JSON_stringify : Payload → string) (parseUrl : string → option Url)
    (webhook : Collector.WebhookConfig) (payload : Payload)
    (net : HttpRequest → Delivery) (req : HttpRequest) (settled : bool + string) :
  (∀ key message, String.length (hmacSha256Hex key message) = 64) →
  truthy (Collector.wh_secret webhook) = true →
  sendWebhook hmacSha256Hex JSON_stringify parseUrl webhook payload net
    = (Some req, settled) →
  ∃ secret signature,
    Collector.wh_secret webhook = Some secret ∧
    rq_body req = JSON_stringify payload ∧
    header "X-Sentinel-Signature" req = Some (HeaderText signature) ∧
    signature = hmacSha256Hex secret (rq_body req) ∧
    validateSignature hmacSha256Hex (rq_body req) (Some signature) (Some secret) = true.
Proof.
  intros Hlen Hsecret Hsend.
  pose proof (truthy_default _ Hsecret) as Hs.
  set (secret := default "" (Collector.wh_secret webhook)) in *.
  exists secret, (hmacSha256Hex secret (JSON_stringify payload)).
  unfold sendWebhook, generateSignature in Hsend.
  rewrite Hsecret in Hsend. cbn [negb] in Hsend.
  destruct (parseUrl (Collector.wh_url webhook)) as [url|]; [|discriminate].
  cbv zeta in Hsend.
  match type of Hsend with context [invalidHeader ?h] =>
    destruct (invalidHeader h) as [name|] end; [discriminate|].
  injection Hsend as <- _.
  cbn [rq_body]. split_and!; try done.
  - unfold header. cbn [rq_headers]. fold secret.
    destruct (decide (hmacSha256Hex secret (JSON_stringify payload) = "")) as [Hempty|_].
    + pose proof (Hlen secret (JSON_stringify payload)) as H64.
      rewrite Hempty in H64. discriminate H64.
    + reflexivity.
  - unfold validateSignature. rewrite <- Hs, Hsecret.
    rewrite (digest_truthy _ (Hlen secret (JSON_stringify payload))). simpl.
    by destruct (decide _).
Qed.

Lemma signature_round_trip_witness :
  (∀ key message, String.length (toyDigest key message) = 64) ∧
  truthy (Collector.wh_secret demoWebhook) = true ∧
  ∃ req settled secret signature,
    sendWebhook toyDigest (fun p : string => p) toyParseUrl demoWebhook
                "{}" (fun _ => Responded (Some 200) "ok") = (Some req, settled) ∧
    Collector.wh_secret demoWebhook = Some secret ∧
    rq_body req = "{}" ∧
    header "X-Sentinel-Signature" req = Some (HeaderText signature) ∧
    signature = toyDigest secret (rq_body req) ∧
    validateSignature toyDigest (rq_body req) (Some signature) (Some secret) = true.
Proof.
  assert (Hlen : ∀ key message, String.length (toyDigest key message) = 64).
  { intros key message. unfold toyDigest.
    destruct (Nat.even (String.length key + String.length message)); reflexivity. }
  split; [exact Hlen|]. split; [reflexivity|].
  destruct (sendWebhook toyDigest (fun p : string => p) toyParseUrl demoWebhook
              "{}" (fun _ => Responded (Some 200) "ok")) as [[req|] settled] eqn:Hsend;
    [|vm_compute in Hsend; discriminate Hsend].
  destruct (signature_round_trip toyDigest (fun p : string => p) toyParseUrl
              demoWebhook "{}" (fun _ => Responded (Some 200) "ok") req settled
              Hlen eq_refl Hsend) as (secret & signature & H).
  exists req, settled, secret, signature. split; [reflexivity | exact H].
Defined.

End WebhookFacts.

Module CollectorExtras.
Import Collector CollectorFacts.

(** *** The window after an UNHEALTHY report *)

Lemma addReportToConsensus_window key report cd w :
  activeConsensus w !! key = Some cd →
  activeConsensus (addReportToConsensus key report w).2 !! key =
    Some (mkConsensus (cd_validatorId cd) (cd_status cd)
            (upsert report (cd_reports cd))
            (cd_consensusReached cd
             || (cd_threshold cd <=?
                 Z.of_nat (length (unhealthyReports (upsert report (cd_reports cd)))))%Z)
            (cd_threshold cd)).
Proof.
  intros Hcd. unfold addReportToConsensus.
  unfold bind at 1, get at 1. rewrite Hcd.
  unfold bind at 1, modify at 1.
  set (reports := upsert report (cd_reports cd)).
  set (W1 := set_activeConsensus (alter (set_reports reports) key) w).
  assert (HW1 : activeConsensus W1 !! key = Some (set_reports reports cd)).
  { subst W1; simpl. by rewrite lookup_alter_eq, Hcd. }
  unfold bind at 1.
  destruct ((cd_threshold cd <=? Z.of_nat (length (unhealthyReports reports)))%Z
            && negb (cd_consensusReached cd)) eqn:Hq.
  - destruct (reachConsensus_spec key _ W1 HW1) as (w' & -> & _ & Hac & _).
    apply andb_true_iff in Hq as [Hth Hnl]. apply negb_true_iff in Hnl.
    run_m. rewrite Hac, lookup_alter_eq, HW1. simpl.
    unfold set_consensusReached, set_reports; simpl. by rewrite Hth, Hnl.
  - assert (Hrest : ∀ m : M unit,
              (m = resetConsensusTimer key ∨ m = ret tt) → m W1 = (Ok tt, W1)).
    { intros m [-> | ->]; reflexivity. }
    rewrite Hrest by (destruct (_ <? _)%Z; auto).
    run_m. rewrite lookup_alter_eq, Hcd. simpl.
    unfold set_reports. do 2 f_equal.
    destruct (cd_consensusReached cd); [done|]. simpl in *.
    by rewrite andb_true_r in Hq.
Qed.

Lemma initiateConsensus_window v r w :
  rep_validatorId r = Some v → v ≠ "" →
  activeConsensus (initiateConsensus r w).2 !! consensusKey v =
    Some (joined r (consensusThreshold w) v (activeConsensus w !! consensusKey v)).
Proof.
  intros Hv Hne. unfold initiateConsensus. rewrite Hv.
  rewrite (proj2 (truthy_Some v) Hne). simpl.
  unfold bind at 1, get at 1.
  destruct (activeConsensus w !! consensusKey v) as [cd|] eqn:Hcd.
  - by rewrite (addReportToConsensus_window _ r cd w Hcd).
  - unfold bind at 1, modify at 1.
    set (cd0 := mkConsensus v UNHEALTHY [r] false (consensusThreshold w)).
    set (W1 := set_activeConsensus <[consensusKey v := cd0]> w).
    assert (HW1 : activeConsensus W1 !! consensusKey v = Some cd0).
    { subst W1; simpl. by rewrite lookup_insert_eq. }
    by rewrite (addReportToConsensus_window _ r cd0 W1 HW1).
Qed.

Lemma initiateConsensus_no_validator r w :
  truthy (rep_validatorId r) = false → initiateConsensus r w = (Ok tt, w).
Proof. intros Ht. unfold initiateConsensus. by rewrite Ht. Qed.

(** A report whose [agent.update] throws changes no window. *)
Lemma processReport_unprocessed r w :
  ¬ processed r w → activeConsensus (processReport r w).2 = activeConsensus w.
Proof.
  intros Hnp. unfold processReport, try_catch.
  unfold bind at 1, tell at 1, modify at 1.
  set (W0 := emit _ w).
  unfold bind at 1.
  destruct (agent_update_lastSeen_cases AgentUpdateAggregator (rep_agentId r) W0)
    as [[e ->] | (Ha & Hop & _)]; [by run_m|].
  exfalso. apply Hnp. by split.
Qed.

Lemma processReport_processed_unfold r w :
  processed r w →
  ∃ W1 : World,
    activeConsensus W1 = activeConsensus w ∧
    consensusThreshold W1 = consensusThreshold w ∧
    agentReports (db W1) = agentReports (db w) ∧
    alerts (db W1) = alerts (db w) ∧ env W1 = env w ∧
    reportHistory W1 = reportHistory w ∧ now W1 = now w ∧
    effects W1 = effects w ++ [Console (LogProcessingReport (rep_agentId r) (rep_status r))] ∧
    processReport r w =
      try_catch
        ((match rep_status r with
          | UNHEALTHY => initiateConsensus r
          | HEALTHY => cancelConsensus (default "undefined" (rep_validatorId r))
          | _ => ret tt
          end) ;; addToReportHistory (rep_agentId r))
        (fun _ => tell (Console ErrProcessingReport)) W1.
Proof.
  intros [Ha Hop]. unfold processReport, try_catch.
  unfold bind at 1, tell at 1, modify at 1.
  set (W0 := emit _ w).
  unfold bind at 1.
  destruct (agent_update_lastSeen_cases AgentUpdateAggregator (rep_agentId r) W0)
    as [[e He] | (_ & _ & He)].
  - exfalso. revert He. unfold agent_update_lastSeen. run_m.
    rewrite Hop. simpl. destruct Ha as [a ->]. discriminate.
  - rewrite He. eexists. split_and!; [..|reflexivity]; done.
Qed.

Lemma processReport_unhealthy_window v r w :
  rep_validatorId r = Some v → v ≠ "" → rep_status r = UNHEALTHY → processed r w →
  window v (processReport r w).2
  = Some (joined r (consensusThreshold w) v (window v w)).
Proof.
  intros Hv Hne Hs Hp.
  destruct (processReport_processed_unfold r w Hp)
    as (W1 & Hac & Hth & _ & _ & _ & _ & _ & _ & ->).
  unfold try_catch, bind. rewrite Hs.
  pose proof (initiateConsensus_window v r W1 Hv Hne) as Hw.
  destruct (initiateConsensus_frame r W1) as (w2 & Hrun & _).
  rewrite Hrun in Hw |- *. cbn [snd] in Hw.
  destruct (addToReportHistory_eq (rep_agentId r) w2) as [f ->].
  unfold window. simpl. by rewrite Hw, Hac, Hth.
Qed.

Lemma upsert_not_nil r rs : upsert r rs ≠ [].
Proof. destruct rs as [|x rs]; simpl; [done|]. by destruct (decide _). Qed.

Lemma upsert_agents r rs a :
  a ∈ map rep_agentId (upsert r rs) ↔ a = rep_agentId r ∨ a ∈ map rep_agentId rs.
Proof.
  induction rs as [|x rs IH]; simpl.
  - rewrite list_elem_of_singleton, elem_of_nil. tauto.
  - destruct (decide (rep_agentId x = rep_agentId r)) as [Heq|Hne]; simpl.
    + rewrite !elem_of_cons, Heq. tauto.
    + rewrite !elem_of_cons, IH. tauto.
Qed.

Lemma upsert_NoDup r rs :
  NoDup (map rep_agentId rs) → NoDup (map rep_agentId (upsert r rs)).
Proof.
  induction rs as [|x rs IH]; simpl; intros Hnd.
  - apply NoDup_singleton.
  - apply NoDup_cons in Hnd as [Hx Hnd].
    destruct (decide (rep_agentId x = rep_agentId r)) as [Heq|Hne]; simpl.
    + by apply NoDup_cons.
    + apply NoDup_cons. split; [|by apply IH].
      rewrite upsert_agents. intros [?|?]; congruence.
Qed.

Lemma upsert_unhealthy r rs :
  rep_status r = UNHEALTHY →
  Forall (fun x => rep_status x = UNHEALTHY) rs →
  Forall (fun x => rep_status x = UNHEALTHY) (upsert r rs).
Proof.
  intros Hr. induction 1 as [|x rs Hx Hrs IH]; simpl.
  - by repeat constructor.
  - destruct (decide (rep_agentId x = rep_agentId r)); constructor; auto.
Qed.

Lemma joined_ok r threshold v old :
  rep_status r = UNHEALTHY →
  (∀ cd, old = Some cd → window_ok cd) →
  window_ok (joined r threshold v old).
Proof.
  intros Hr Hold. unfold joined, window_ok. simpl.
  destruct old as [cd|]; simpl.
  - destruct (Hold cd eq_refl) as (_ & Hnd & Hall).
    split_and!; [apply upsert_not_nil | by apply upsert_NoDup | by apply upsert_unhealthy].
  - destruct (decide (rep_agentId r = rep_agentId r)); [|done].
    split_and!; [done|apply NoDup_singleton|by repeat constructor].
Qed.

Lemma addReportToConsensus_others key report cd w :
  activeConsensus w !! key = Some cd →
  ∀ k, k ≠ key →
    activeConsensus (addReportToConsensus key report w).2 !! k = activeConsensus w !! k.
Proof.
  intros Hcd k Hk.
  destruct (addReportToConsensus_spec key report cd w Hcd)
    as (w' & cd' & -> & _ & _ & Hother & _).
  by apply Hother.
Qed.

Lemma initiateConsensus_map v r w :
  rep_validatorId r = Some v → v ≠ "" →
  activeConsensus (initiateConsensus r w).2 =
    <[consensusKey v := joined r (consensusThreshold w) v (window v w)]>
      (activeConsensus w).
Proof.
  intros Hv Hne. apply map_eq. intros k.
  destruct (decide (k = consensusKey v)) as [->|Hk].
  { rewrite lookup_insert_eq. by apply initiateConsensus_window. }
  rewrite lookup_insert_ne by done.
  unfold initiateConsensus. rewrite Hv, (proj2 (truthy_Some v) Hne). simpl.
  unfold bind at 1, get at 1.
  destruct (activeConsensus w !! consensusKey v) as [cd|] eqn:Hcd.
  - by apply (addReportToConsensus_others _ r cd).
  - unfold bind at 1, modify at 1.
    set (cd0 := mkConsensus v UNHEALTHY [r] false (consensusThreshold w)).
    set (W1 := set_activeConsensus <[consensusKey v := cd0]> w).
    assert (HW1 : activeConsensus W1 !! consensusKey v = Some cd0).
    { subst W1; simpl. by rewrite lookup_insert_eq. }
    rewrite (addReportToConsensus_others _ r cd0 W1 HW1 k Hk).
    subst W1; simpl. by rewrite lookup_insert_ne.
Qed.

Lemma processReport_unhealthy_map v r w :
  rep_status r = UNHEALTHY → rep_validatorId r = Some v → v ≠ "" → processed r w →
  activeConsensus (processReport r w).2 =
    <[consensusKey v := joined r (consensusThreshold w) v (window v w)]>
      (activeConsensus w).
Proof.
  intros Hs Hv Hne Hp.
  destruct (processReport_processed_unfold r w Hp)
    as (W1 & Hac & Hth & _ & _ & _ & _ & _ & _ & ->).
  unfold try_catch, bind. rewrite Hs.
  pose proof (initiateConsensus_map v r W1 Hv Hne) as Hw.
  destruct (initiateConsensus_frame r W1) as (w2 & Hrun & _).
  rewrite Hrun in Hw |- *. cbn [snd] in Hw.
  destruct (addToReportHistory_eq (rep_agentId r) w2) as [f ->].
  unfold window in *. simpl. by rewrite Hw, Hac, Hth.
Qed.

Lemma processReport_unhealthy_quiet r w :
  rep_status r = UNHEALTHY → truthy (rep_validatorId r) = false →
  activeConsensus (processReport r w).2 = activeConsensus w ∧
  alerts (db (processReport r w).2) = alerts (db w).
Proof.
  intros Hs Hv.
  enough (∃ w', processReport r w = (Ok tt, w') ∧
            activeConsensus w' = activeConsensus w ∧ alerts (db w') = alerts (db w))
    as (w' & -> & ? & ?) by done.
  unfold processReport, try_catch.
  unfold bind at 1, tell at 1, modify at 1.
  set (W0 := emit _ w).
  unfold bind at 1.
  destruct (agent_update_lastSeen_cases AgentUpdateAggregator (rep_agentId r) W0)
    as [[e ->] | (Ha & Hop & ->)]; [run_m; eauto|].
  set (W1 := set_db _ W0).
  unfold bind at 1. rewrite Hs, (initiateConsensus_no_validator r W1 Hv).
  destruct (addToReportHistory_eq (rep_agentId r) W1) as [f ->]. eauto.
Qed.

(** X1.  What an UNHEALTHY report does to the windows.  When the report
    names a validator [v] (not the empty string) and [processReport] gets
    past its [agent.update], the window map afterwards is the old one with
    the window of [v] replaced by [joined]: the report upserted into the
    open window, or into a fresh window with the service's threshold, the
    latch being set once the UNHEALTHY reports reach the threshold.  When
    the report names no validator, or [agent.update] throws, no window
    changes. *)
Theorem unhealthy_report_joins_window r w :
  rep_status r = UNHEALTHY →
  (∀ v, rep_validatorId r = Some v → v ≠ "" → processed r w →
     activeConsensus (processReport r w).2 =
       <[consensusKey v := joined r (consensusThreshold w) v (window v w)]>
         (activeConsensus w)) ∧
  (truthy (rep_validatorId r) = false ∨ ¬ processed r w →
     activeConsensus (processReport r w).2 = activeConsensus w).
Proof.
  intros Hs. split.
  - intros v Hv Hne Hp. by apply processReport_unhealthy_map.
  - intros [Hv|Hp].
    + by apply processReport_unhealthy_quiet.
    + by apply processReport_unprocessed.
Qed.

(** *** The ingress, as the aggregator sees it *)

Lemma postReport_shape req w :
  ∃ res w', postReport req w = (Ok res, w') ∧
    ((activeConsensus w' = activeConsensus w ∧ reportHistory w' = reportHistory w ∧
      alerts (db w') = alerts (db w) ∧ static w w') ∨
     (∃ agentId validatorId status,
        req_agentId req = Some agentId ∧ validatorId ≠ "" ∧
        is_Some (agents (db w) !! agentId) ∧
        w' = (processReport (acceptedRow agentId validatorId status req w)
                            (acceptedWorld agentId validatorId status req w)).2)).
Proof.
  unfold postReport, try_catch.
  destruct (req_agentId req) as [agentId|] eqn:E1;
    [|eexists _, _; split; [reflexivity|]; left; by split_and!].
  destruct (req_agentApiKey req) as [agentApiKey|] eqn:E2;
    [|eexists _, _; split; [reflexivity|]; left; by split_and!].
  destruct (req_validatorId req) as [validatorId|] eqn:E3;
    [|eexists _, _; split; [reflexivity|]; left; by split_and!].
  destruct (req_status req) as [status|] eqn:E4;
    [|eexists _, _; split; [reflexivity|]; left; by split_and!].
  destruct (truthy (Some agentId) && truthy (Some agentApiKey)
            && truthy (Some validatorId) && truthy (Some status)) eqn:Ht; simpl;
    [|eexists _, _; split; [reflexivity|]; left; by split_and!].
  assert (Hv : validatorId ≠ "").
  { apply truthy_Some. by destruct (truthy (Some agentId)), (truthy (Some agentApiKey)),
      (truthy (Some validatorId)). }
  destruct (allowedStatus status) as [reportStatus|] eqn:Est;
    [|eexists _, _; split; [reflexivity|]; left; by split_and!].
  unfold agent_findUnique. unfold bind at 1. unfold bind at 1. unfold prisma.
  destruct (storageFails (env w) AgentFindUnique) eqn:Hread.
  { run_m. eexists _, _; split; [reflexivity|]. left. by split_and!. }
  unfold bind at 1, get at 1, ret at 1.
  destruct (agents (db w) !! agentId) as [agent|] eqn:Hagent;
    [|eexists _, _; split; [reflexivity|]; left; by split_and!].
  destruct (agent_isActive agent) eqn:Hactive; simpl;
    [|eexists _, _; split; [reflexivity|]; left; by split_and!].
  destruct (decide (agent_apiKey agent ≠ agentApiKey)) as [Hkey|Hkey];
    [eexists _, _; split; [reflexivity|]; left; by split_and!|].
  destruct (match agent_validatorId agent with
            | Some v => validators (db w) !! v
            | None => None
            end) as [v|] eqn:Hval;
    [|eexists _, _; split; [reflexivity|]; left; by split_and!].
  destruct (decide (val_id v ≠ validatorId)) as [Hvid|Hvid];
    [eexists _, _; split; [reflexivity|]; left; by split_and!|].
  destruct (val_isActive v) eqn:Hvactive; simpl;
    [|eexists _, _; split; [reflexivity|]; left; by split_and!].
  unfold agentReport_create. unfold bind at 1. unfold bind at 1. unfold prisma.
  destruct (storageFails (env w) AgentReportCreate) eqn:Hcreate.
  { run_m. eexists _, _; split; [reflexivity|]. left. by split_and!. }
  unfold bind at 1, get at 1. unfold bind at 1, modify at 1. unfold ret at 1.
  fold (acceptedRow agentId validatorId reportStatus req w).
  set (row := acceptedRow agentId validatorId reportStatus req w).
  set (W0 := set_db _ w).
  unfold bind at 1.
  destruct (agent_update_lastSeen_cases AgentUpdateIngress agentId W0)
    as [[e He] | (Ha & Hop & He)]; rewrite He.
  { run_m. eexists _, _; split; [reflexivity|]. left. by split_and!. }
  unfold bind at 1.
  set (W2 := set_db (set_agents _) W0).
  destruct (processReport_total row W2) as [w' Hrun].
  rewrite Hrun. run_m.
  eexists _, _; split; [reflexivity|]. right.
  exists agentId, validatorId, reportStatus. split_and!; try done.
  transitivity ((processReport row W2).2); [by rewrite Hrun | reflexivity].
Qed.

(** *** Every window is as the aggregator keeps it *)

Lemma unhealthy_all rs :
  Forall (fun x => rep_status x = UNHEALTHY) rs → unhealthyReports rs = rs.
Proof.
  unfold unhealthyReports. induction 1 as [|x rs Hx _ IH]; [done|].
  by rewrite filter_cons_True, IH.
Qed.

Lemma upsert_length r rs : length rs ≤ length (upsert r rs).
Proof.
  induction rs as [|x rs IH]; simpl; [lia|].
  destruct (decide (rep_agentId x = rep_agentId r)); simpl; lia.
Qed.

Lemma joined_inv r threshold v old :
  rep_status r = UNHEALTHY →
  (∀ cd, old = Some cd → window_inv threshold (consensusKey v) cd) →
  window_inv threshold (consensusKey v) (joined r threshold v old).
Proof.
  intros Hr Hold. split_and!.
  - destruct old as [cd|]; [|done]. by destruct (Hold cd eq_refl).
  - apply joined_ok; [done|]. intros cd ->. by destruct (Hold cd eq_refl) as (_&?&_).
  - destruct old as [cd|]; [|done]. by destruct (Hold cd eq_refl) as (_&_&?&_).
  - pose proof (joined_ok r threshold v old Hr) as Hok.
    destruct old as [cd|]; unfold joined in *; simpl in *.
    + destruct (Hold cd eq_refl) as (_ & Hcd & Hth & Hl).
      destruct (Hok ltac:(by intros ? [= <-])) as (_ & _ & Hall).
      simpl in Hall. rewrite (unhealthy_all _ Hall), Hth, Hl.
      pose proof (upsert_length r (cd_reports cd)).
      destruct (threshold <=? Z.of_nat (length (cd_reports cd)))%Z eqn:E; simpl; [|done].
      symmetry. apply Z.leb_le. apply Z.leb_le in E. lia.
    + destruct (decide (rep_agentId r = rep_agentId r)); [|done].
      simpl. unfold unhealthyReports. rewrite filter_cons_True by done. done.
Qed.

Lemma windows_ok_agree w w' :
  activeConsensus w' = activeConsensus w →
  consensusThreshold w' = consensusThreshold w →
  windows_ok w → windows_ok w'.
Proof. unfold windows_ok. by intros -> ->. Qed.

Lemma windows_ok_submap w w' :
  (∀ k cd, activeConsensus w' !! k = Some cd → activeConsensus w !! k = Some cd) →
  consensusThreshold w' = consensusThreshold w →
  windows_ok w → windows_ok w'.
Proof. unfold windows_ok. intros Hsub -> Hok k cd Hcd. by apply Hok, Hsub. Qed.

Lemma processReport_threshold r w :
  consensusThreshold (processReport r w).2 = consensusThreshold w.
Proof.
  destruct (processReport_frame r w) as (w' & -> & (_ & _ & Hth & _) & _). done.
Qed.

Lemma processed_dec r w : Decision (processed r w).
Proof. unfold processed. apply _. Qed.

Lemma processReport_windows_ok r w : windows_ok w → windows_ok (processReport r w).2.
Proof.
  intros Hok.
  pose proof (processReport_threshold r w) as Hth.
  destruct (decide (rep_status r = UNHEALTHY)) as [Hu|Hu].
  - destruct (processed_dec r w) as [Hp|Hp];
      [|by apply (windows_ok_agree w); [apply processReport_unprocessed|..]].
    destruct (truthy (rep_validatorId r)) eqn:Ht;
      [|by apply (windows_ok_agree w); [apply processReport_unhealthy_quiet|..]].
    destruct (rep_validatorId r) as [v|] eqn:Hv; [|done].
    apply truthy_Some in Ht.
    intros k cd. rewrite Hth, (processReport_unhealthy_map v r w Hu Hv Ht Hp).
    destruct (decide (k = consensusKey v)) as [->|Hk].
    + rewrite lookup_insert_eq. intros [= <-]. apply joined_inv; [done|].
      intros cd0 Hcd0. by apply Hok.
    + rewrite lookup_insert_ne by done. apply Hok.
  - destruct (processReport_windows r w) as (w' & Hrun & Hw).
    rewrite Hrun in Hth |- *. cbn [snd] in *.
    apply (windows_ok_submap w); [|done|done].
    intros k cd. destruct (rep_status r); try done; try (by rewrite Hw).
    destruct Hw as [-> | ->]; [done|].
    rewrite lookup_delete. by case_decide.
Qed.

Lemma postReport_windows_ok req w : windows_ok w → windows_ok (postReport req w).2.
Proof.
  intros Hok.
  destruct (postReport_shape req w)
    as (res & w' & -> & [(Hac & _ & _ & (_ & _ & Hth & _)) | Hacc]); cbn [snd].
  - by apply (windows_ok_agree w).
  - destruct Hacc as (agentId & validatorId & status & _ & _ & _ & ->).
    by apply processReport_windows_ok.
Qed.

(** *** The sweep *)

Lemma update_where_app ids1 ids2 s rows :
  update_where ids2 (with_status s) (update_where ids1 (with_status s) rows)
  = update_where (ids1 ++ ids2) (with_status s) rows.
Proof.
  unfold update_where. rewrite map_map. apply map_ext. intros r.
  destruct (decide (rep_id r ∈ ids1)) as [H1|H1];
    destruct (decide (rep_id r ∈ ids1 ++ ids2)) as [H12|H12]; simpl;
    destruct (decide (rep_id r ∈ ids2)) as [H2|H2]; try done;
    rewrite elem_of_app in H12; tauto.
Qed.

Lemma update_where_nil f rows : update_where [] f rows = rows.
Proof.
  unfold update_where. rewrite <- (map_id rows) at 2. apply map_ext.
  intros r. rewrite decide_False; [done|]. apply not_elem_of_nil.
Qed.

Lemma cleanupEntry_spec key cd w :
  cd_reports cd ≠ [] →
  ∃ w', cleanupEntry (key, cd) w = (Ok tt, w') ∧ static w w' ∧
    alerts (db w') = alerts (db w) ∧ agents (db w') = agents (db w) ∧
    reportHistory w' = reportHistory w ∧
    activeConsensus w' = (if expired (now w) cd then delete key (activeConsensus w)
                          else activeConsensus w) ∧
    agentReports (db w') =
      (if expired (now w) cd && negb (storageFails (env w) ReportsMarkAged)
       then update_where (map rep_id (cd_reports cd)) (with_status CONSENSUS_FAILED)
              (agentReports (db w))
       else agentReports (db w)).
Proof.
  intros Hne. unfold cleanupEntry, expired, agentReport_updateMany. run_m.
  destruct (cd_reports cd) as [|first rest] eqn:Hrs; [done|].
  destruct (maxAge <? now w - rep_createdAt first)%Z; simpl.
  2:{ eexists; split; [reflexivity|]. by split_and!. }
  destruct (storageFails (env w) ReportsMarkAged); simpl.
  - eexists; split; [reflexivity|]. by split_and!.
  - eexists; split; [reflexivity|]. by split_and!.
Qed.

Lemma for_each_cleanup_spec entries : ∀ w,
  Forall (fun kc : string * ConsensusData => cd_reports kc.2 ≠ []) entries →
  ∃ w', for_each entries cleanupEntry w = (Ok tt, w') ∧ static w w' ∧
    alerts (db w') = alerts (db w) ∧ agents (db w') = agents (db w) ∧
    reportHistory w' = reportHistory w ∧
    (∀ k, activeConsensus w' !! k =
          if decide (k ∈ (filter (fun kc => expired (now w) kc.2 = true) entries).*1)
          then None else activeConsensus w !! k) ∧
    agentReports (db w') =
      (if storageFails (env w) ReportsMarkAged then agentReports (db w)
       else update_where (expiredIds (now w) entries) (with_status CONSENSUS_FAILED)
              (agentReports (db w))).
Proof.
  induction entries as [|[key cd] entries IH]; intros w Hall.
  - exists w. split; [done|]. split_and!; auto using static_refl.
    unfold expiredIds. simpl. rewrite update_where_nil. by destruct (storageFails _ _).
  - apply Forall_cons in Hall as [Hne Hall]. simpl in Hne.
    destruct (cleanupEntry_spec key cd w Hne)
      as (w1 & Hrun1 & Hst1 & Hal1 & Hag1 & Hrh1 & Hac1 & Hrows1).
    destruct (IH w1 Hall) as (w' & Hrun & Hst & Hal & Hag & Hrh & Hac & Hrows).
    exists w'. cbn [for_each]. unfold bind. rewrite Hrun1.
    split; [exact Hrun|].
    pose proof Hst1 as (He1 & Hn1 & _).
    split_and!; try congruence.
    + by eapply static_trans.
    + intros k. rewrite Hac, Hn1, Hac1.
      rewrite filter_cons. cbn [snd].
      destruct (decide (expired (now w) cd = true)) as [Hex|Hex].
      * rewrite Hex. rewrite fmap_cons. cbn [fst].
        destruct (decide (k = key)) as [->|Hk].
        -- rewrite (decide_True (P := key ∈ key :: _)) by left.
           rewrite lookup_delete_eq. by destruct (decide _).
        -- rewrite lookup_delete_ne by done.
           destruct (decide (k ∈ _)) as [Hin|Hin].
           ++ by rewrite decide_True by (by right).
           ++ rewrite decide_False; [done|]. rewrite elem_of_cons. tauto.
      * apply not_true_is_false in Hex. by rewrite Hex.
    + rewrite Hrows, He1, Hn1, Hrows1.
      destruct (storageFails (env w) ReportsMarkAged); simpl.
      * by rewrite andb_false_r.
      * rewrite andb_true_r. unfold expiredIds. rewrite filter_cons. cbn [snd].
        destruct (decide (expired (now w) cd = true)) as [Hex|Hex].
        -- rewrite Hex. rewrite bind_cons. cbn [snd].
           by rewrite update_where_app.
        -- apply not_true_is_false in Hex. by rewrite Hex.
Qed.

Lemma cleanupOldConsensus_spec w :
  (∀ k cd, activeConsensus w !! k = Some cd → cd_reports cd ≠ []) →
  ∃ w', cleanupOldConsensus w = (Ok tt, w') ∧
    activeConsensus w' =
      filter (fun kc => expired (now w) kc.2 = false) (activeConsensus w) ∧
    agentReports (db w') =
      (if storageFails (env w) ReportsMarkAged then agentReports (db w)
       else update_where (expiredIds (now w) (map_to_list (activeConsensus w)))
              (with_status CONSENSUS_FAILED) (agentReports (db w))) ∧
    alerts (db w') = alerts (db w) ∧ agents (db w') = agents (db w) ∧
    reportHistory w' = reportHistory w ∧ static w w'.
Proof.
  intros Hne. unfold cleanupOldConsensus, bind, get.
  destruct (for_each_cleanup_spec (map_to_list (activeConsensus w)) w)
    as (w' & Hrun & Hst & Hal & Hag & Hrh & Hac & Hrows).
  { apply Forall_forall. intros [k cd] Hin. apply elem_of_map_to_list in Hin.
    simpl. by eapply Hne. }
  exists w'. split_and!; try done.
  apply map_eq. intros k. rewrite Hac. apply option_eq. intros cd.
  rewrite map_lookup_filter_Some. cbn [snd].
  destruct (decide (k ∈ _)) as [Hin|Hin].
  - split; [done|]. intros [Hcd Hex]. exfalso.
    apply list_elem_of_fmap in Hin as ([k' cd'] & -> & Hin').
    apply list_elem_of_filter in Hin' as [Hex' Hin']. cbn [snd fst] in *.
    apply elem_of_map_to_list in Hin'. congruence.
  - split; [|by intros [? ?]]. intros Hcd. split; [done|].
    destruct (expired (now w) cd) eqn:Hex; [|done]. exfalso. apply Hin.
    apply list_elem_of_fmap. exists (k, cd). split; [done|].
    apply list_elem_of_filter. split; [done|]. by apply elem_of_map_to_list.
Qed.

(** X3.  The sweep, on a collector none of whose windows is empty: it
    returns normally and keeps exactly the windows that are not expired, a
    window staying exactly when its first report is at most ten minutes old
    (an age of exactly ten minutes stays); when [updateMany] works the
    stored rows whose id is held by a removed window are set to
    CONSENSUS_FAILED, and when it fails the rows stay while the windows are
    removed all the same; alerts, agents and the report history are left
    alone. *)
Theorem sweep_removes_expired_windows w :
  (∀ k cd, activeConsensus w !! k = Some cd → cd_reports cd ≠ []) →
  ∃ w', cleanupOldConsensus w = (Ok tt, w') ∧
    activeConsensus w' =
      filter (fun kc => expired (now w) kc.2 = false) (activeConsensus w) ∧
    (∀ k cd first rest, activeConsensus w !! k = Some cd →
       cd_reports cd = first :: rest →
       (activeConsensus w' !! k = Some cd ↔ now w - rep_createdAt first ≤ maxAge)%Z) ∧
    agentReports (db w') =
      (if storageFails (env w) ReportsMarkAged then agentReports (db w)
       else update_where (expiredIds (now w) (map_to_list (activeConsensus w)))
              (with_status CONSENSUS_FAILED) (agentReports (db w))) ∧
    alerts (db w') = alerts (db w) ∧ agents (db w') = agents (db w) ∧
    reportHistory w' = reportHistory w ∧ static w w'.
Proof.
  intros Hne.
  destruct (cleanupOldConsensus_spec w Hne)
    as (w' & Hrun & Hmap & Hrows & Hal & Hag & Hrh & Hst).
  exists w'. split_and!; try done.
  intros k cd first rest Hcd Hrs. rewrite Hmap, map_lookup_filter_Some. cbn [snd].
  unfold expired. rewrite Hrs. rewrite Z.ltb_ge. tauto.
Qed.

(** X2.  From a collector that boots with no window, whatever requests,
    sweeps and clock ticks follow, every window is as the aggregator keeps
    it; so the sweep, which reads [reports[0]] of every window, never
    throws, and what [getConsensusData] returns for [v] is a window of [v]
    that holds at least one report, at most one per agent, and whose latch
    is set exactly when it holds at least [consensusThreshold] reports. *)
Theorem windows_ok_reachable w events :
  activeConsensus w = ∅ →
  windows_ok (runEvents w events) ∧
  (∃ w', cleanupOldConsensus (runEvents w events) = (Ok tt, w')) ∧
  (∀ v cd, getConsensusData v (runEvents w events) = Some cd →
     cd_validatorId cd = v ∧ cd_reports cd ≠ [] ∧
     NoDup (map rep_agentId (cd_reports cd)) ∧
     (cd_consensusReached cd = true ↔
      (consensusThreshold w ≤ Z.of_nat (length (cd_reports cd)))%Z)).
Proof.
  intros Hboot.
  assert (Hinit : windows_ok w).
  { intros k cd. by rewrite Hboot, lookup_empty. }
  clear Hboot.
  assert (Hrun : windows_ok (runEvents w events) ∧
                 consensusThreshold (runEvents w events) = consensusThreshold w).
  { unfold runEvents. revert w Hinit.
    induction events as [|e events IH]; intros w Hok; [done|].
    simpl.
    assert (Hstep : windows_ok (step w e) ∧
                    consensusThreshold (step w e) = consensusThreshold w).
    { destruct e as [req| |t]; simpl.
      - split; [by apply postReport_windows_ok|].
        destruct (postReport_shape req w)
          as (res & w' & -> & [(_ & _ & _ & (_ & _ & Hth & _)) | Hacc]); [done|].
        destruct Hacc as (agentId & validatorId & status & _ & _ & _ & ->).
        cbn [snd]. by rewrite processReport_threshold.
      - destruct (cleanupOldConsensus_spec w)
          as (w' & -> & Hac & _ & _ & _ & _ & (_ & _ & Hth & _)).
        { intros k cd Hcd. by destruct (Hok k cd Hcd) as (_ & (? & _) & _). }
        cbn [snd]. split; [|done].
        apply (windows_ok_submap w); [|done|done].
        intros k cd. rewrite Hac. by intros [? _]%map_lookup_filter_Some.
      - done. }
    destruct Hstep as [Hok' Hth']. destruct (IH _ Hok') as [? ?].
    split; [done|congruence]. }
  destruct Hrun as [Hok Hth]. split_and!; [done|..].
  - destruct (cleanupOldConsensus_spec (runEvents w events)) as (w' & -> & _);
      [|by eauto].
    intros k cd Hcd. by destruct (Hok k cd Hcd) as (_ & (? & _) & _).
  - intros v cd Hcd. destruct (Hok _ cd Hcd) as (Hk & (Hne & Hnd & _) & _ & Hl).
    apply consensusKey_inj in Hk. split_and!; try done.
    rewrite Hl, Hth. apply Z.leb_le.
Qed.

(** *** No alert without a quorum of distinct agents *)

Lemma window_size (S : gset string) w k cd :
  windows_ok w → reporters_in S w → activeConsensus w !! k = Some cd →
  length (cd_reports cd) ≤ size S.
Proof.
  intros Hok Hin Hcd. destruct (Hok k cd Hcd) as (_ & (_ & Hnd & _) & _).
  rewrite <- (length_map rep_agentId), <- (size_list_to_set (C := gset string)) by done.
  apply subseteq_size. intros a Ha. apply elem_of_list_to_set in Ha.
  apply list_elem_of_fmap in Ha as (r & -> & Hr). by eapply Hin.
Qed.

Lemma below_quorum_unlatched (S : gset string) w v :
  windows_ok w → reporters_in S w → (Z.of_nat (size S) < consensusThreshold w)%Z →
  latched v w = false.
Proof.
  intros Hok Hin Hlt. unfold latched, window.
  destruct (activeConsensus w !! consensusKey v) as [cd|] eqn:Hcd; [|done].
  pose proof (window_size S w _ cd Hok Hin Hcd).
  destruct (Hok _ cd Hcd) as (_ & _ & _ & ->). apply Z.leb_gt. lia.
Qed.

Lemma upsert_elem r x rs : x ∈ upsert r rs → rep_agentId x = rep_agentId r ∨ x ∈ rs.
Proof.
  induction rs as [|y rs IH]; simpl.
  - intros ->%list_elem_of_singleton. by left.
  - destruct (decide (rep_agentId y = rep_agentId r)) as [Heq|Hne].
    + intros [->|?]%elem_of_cons; [by left|right; by right].
    + intros [->|?]%elem_of_cons; [right; by left|].
      destruct IH as [?|?]; auto. right. by right.
Qed.

Lemma reporters_in_agree S w w' :
  activeConsensus w' = activeConsensus w → reporters_in S w → reporters_in S w'.
Proof. unfold reporters_in. by intros ->. Qed.

Lemma reporters_in_submap S w w' :
  (∀ k cd, activeConsensus w' !! k = Some cd → activeConsensus w !! k = Some cd) →
  reporters_in S w → reporters_in S w'.
Proof. intros Hsub Hin k cd r Hcd. apply (Hin k). by apply Hsub. Qed.

Lemma processReport_reporters S r w :
  rep_agentId r ∈ S → reporters_in S w → reporters_in S (processReport r w).2.
Proof.
  intros Ha Hin.
  destruct (decide (rep_status r = UNHEALTHY)) as [Hu|Hu].
  - destruct (processed_dec r w) as [Hp|Hp];
      [|by apply (reporters_in_agree S w); [apply processReport_unprocessed|]].
    destruct (truthy (rep_validatorId r)) eqn:Ht;
      [|by apply (reporters_in_agree S w); [apply processReport_unhealthy_quiet|]].
    destruct (rep_validatorId r) as [v|] eqn:Hv; [|done].
    apply truthy_Some in Ht.
    intros k cd x. rewrite (processReport_unhealthy_map v r w Hu Hv Ht Hp).
    destruct (decide (k = consensusKey v)) as [->|Hk].
    + rewrite lookup_insert_eq. intros [= <-]. unfold joined. simpl.
      intros [Hx|Hx]%upsert_elem; [congruence|].
      unfold window in Hx.
      destruct (activeConsensus w !! consensusKey v) as [cd0|] eqn:Hcd0; simpl in Hx.
      * by eapply Hin.
      * apply list_elem_of_singleton in Hx. by subst.
    + rewrite lookup_insert_ne by done. apply Hin.
  - destruct (processReport_windows r w) as (w' & -> & Hw). cbn [snd].
    apply (reporters_in_submap S w); [|done].
    intros k cd. destruct (rep_status r); try done; try (by rewrite Hw).
    destruct Hw as [-> | ->]; [done|].
    rewrite lookup_delete. by case_decide.
Qed.

Lemma windows_ok_wf w v : windows_ok w → window_wf v w.
Proof.
  intros Hok cd Hcd. destruct (Hok _ cd Hcd) as (Hk & _).
  symmetry. by apply consensusKey_inj.
Qed.

Lemma processReport_below_quorum (S : gset string) r w :
  windows_ok w → reporters_in S w → rep_agentId r ∈ S →
  (Z.of_nat (size S) < consensusThreshold w)%Z →
  alerts (db (processReport r w).2) = alerts (db w).
Proof.
  intros Hok Hin Ha Hlt.
  destruct (decide (rep_status r = HEALTHY)) as [Hh|Hh];
    [by apply processReport_healthy|].
  destruct (decide (rep_status r = UNHEALTHY)) as [Hu|Hu].
  2:{ by destruct (processReport_other r w Hu Hh) as (w' & -> & _ & _ & _ & ? & _). }
  destruct (truthy (rep_validatorId r)) eqn:Ht;
    [|by apply processReport_unhealthy_quiet].
  destruct (rep_validatorId r) as [v|] eqn:Hv; [|done].
  pose proof (processReport_windows_ok r w Hok) as Hok'.
  pose proof (processReport_reporters S r w Ha Hin) as Hin'.
  pose proof (processReport_threshold r w) as Hth.
  destruct (processReport_step v r w Hv (windows_ok_wf w v Hok))
    as (w' & Hrun & _ & _ & _ & _ & new & Hal & Hlen & _).
  rewrite Hrun in *. cbn [snd] in *.
  assert (Hl : latched v w' = false).
  { apply (below_quorum_unlatched S); try done. by rewrite Hth. }
  unfold transition in Hlen. rewrite Hl, andb_false_r in Hlen.
  destruct new; [|simpl in Hlen; lia]. by rewrite Hal, app_nil_r.
Qed.

Lemma runEvents_below_quorum (S : gset string) events : ∀ w,
  windows_ok w → reporters_in S w →
  (∀ a, a ∈ requesters events → a ∈ S) →
  (Z.of_nat (size S) < consensusThreshold w)%Z →
  alerts (db (runEvents w events)) = alerts (db w) ∧
  windows_ok (runEvents w events) ∧ reporters_in S (runEvents w events) ∧
  consensusThreshold (runEvents w events) = consensusThreshold w.
Proof.
  unfold runEvents.
  induction events as [|e events IH]; intros w Hok Hin Hreq Hlt; [done|].
  simpl.
  assert (Hstep : windows_ok (step w e) ∧ reporters_in S (step w e) ∧
                  consensusThreshold (step w e) = consensusThreshold w ∧
                  alerts (db (step w e)) = alerts (db w)).
  { destruct e as [req| |t]; simpl.
    - split; [by apply postReport_windows_ok|].
      destruct (postReport_shape req w)
        as (res & w' & -> & [(Hac & _ & Hal & (_ & _ & Hth & _)) | Hacc]); cbn [snd].
      { split_and!; try done. by apply (reporters_in_agree S w). }
      destruct Hacc as (agentId & validatorId & status & E1 & _ & _ & ->).
      assert (HaS : agentId ∈ S).
      { apply Hreq. simpl. rewrite E1. by left. }
      split_and!.
      + by apply processReport_reporters.
      + by rewrite processReport_threshold.
      + by rewrite (processReport_below_quorum S).
    - destruct (cleanupOldConsensus_spec w)
        as (w' & -> & Hac & _ & Hal & _ & _ & (_ & _ & Hth & _)).
      { intros k cd Hcd. by destruct (Hok k cd Hcd) as (_ & (? & _) & _). }
      cbn [snd].
      assert (Hsub : ∀ k cd, activeConsensus w' !! k = Some cd →
                             activeConsensus w !! k = Some cd).
      { intros k cd. rewrite Hac. by intros [? _]%map_lookup_filter_Some. }
      split_and!; try done.
      + by apply (windows_ok_submap w).
      + by apply (reporters_in_submap S w).
    - done. }
  destruct Hstep as (Hok' & Hin' & Hth' & Hal').
  destruct (IH (step w e)) as (Hal & ? & ? & Hth); try done.
  - intros a Ha. apply Hreq. destruct e as [req| |t]; simpl; try done.
    destruct (req_agentId req); [by right|done].
  - by rewrite Hth'.
  - split_and!; try done; congruence.
Qed.

(** X4.  No alert without a quorum of distinct agents: from a collector
    that boots with no window, if fewer distinct agents than the threshold
    send requests, then whatever they send and however often, and whatever
    sweeps and clock ticks occur, no alert is stored and no window is ever
    latched. *)
Theorem alert_needs_quorum w events :
  activeConsensus w = ∅ →
  (Z.of_nat (distinct (requesters events)) < consensusThreshold w)%Z →
  alerts (db (runEvents w events)) = alerts (db w) ∧
  ∀ v, latched v (runEvents w events) = false.
Proof.
  intros Hboot Hlt.
  assert (Hok : windows_ok w) by (intros k cd; by rewrite Hboot, lookup_empty).
  assert (Hin : reporters_in (list_to_set (requesters events)) w)
    by (intros k cd r; by rewrite Hboot, lookup_empty).
  destruct (runEvents_below_quorum (list_to_set (requesters events)) events w)
    as (Hal & Hok' & Hin' & Hth); try done.
  { intros a Ha. by apply elem_of_list_to_set. }
  split; [done|]. intros v.
  apply (below_quorum_unlatched (list_to_set (requesters events))); try done.
  by rewrite Hth.
Qed.

(** *** An alert exactly when a quorum of distinct agents has reported *)

Lemma distinct_NoDup ids : NoDup ids → distinct ids = length ids.
Proof. intros. unfold distinct. by rewrite size_list_to_set. Qed.

Lemma distinct_app_le ids more : distinct ids ≤ distinct (ids ++ more).
Proof.
  unfold distinct. apply subseteq_size. rewrite list_to_set_app_L. set_solver.
Qed.

Lemma distinct_ext ids ids' : (∀ a, a ∈ ids ↔ a ∈ ids') → distinct ids = distinct ids'.
Proof.
  intros H. unfold distinct. f_equal. apply set_eq. intros a.
  by rewrite !elem_of_list_to_set.
Qed.

Lemma windowAgents_joined v r w w' :
  window v w' = Some (joined r (consensusThreshold w) v (window v w)) →
  ∀ a, a ∈ windowAgents v w' ↔ a = rep_agentId r ∨ a ∈ windowAgents v w.
Proof.
  intros Hw a. unfold windowAgents. rewrite Hw. unfold joined. simpl.
  rewrite upsert_agents. destruct (window v w); simpl; [done|].
  rewrite list_elem_of_singleton, elem_of_nil. tauto.
Qed.

Lemma run_quorum v rs : ∀ w,
  v ≠ "" →
  (∀ cd, window v w = Some cd → window_inv (consensusThreshold w) (consensusKey v) cd) →
  (rs ≠ [] ∨ is_Some (window v w)) →
  storage_ok w → is_Some (validators (db w) !! v) →
  storageFails (env w) AgentUpdateAggregator = false →
  Forall (fun r => rep_status r = UNHEALTHY ∧ rep_validatorId r = Some v ∧
                   is_Some (agents (db w) !! rep_agentId r)) rs →
  let n := distinct (windowAgents v w ++ map rep_agentId rs) in
  latched v (processReports rs w) = (consensusThreshold w <=? Z.of_nat n)%Z ∧
  length (alerts (db (processReports rs w))) =
    length (alerts (db w)) +
    (if negb (latched v w) && (consensusThreshold w <=? Z.of_nat n)%Z then 1 else 0).
Proof.
  induction rs as [|r rest IH]; intros w Hv Hinv Hsome Hok Hval Hop Hall n.
  - destruct Hsome as [?|[cd Hcd]]; [done|].
    destruct (Hinv cd Hcd) as (_ & (_ & Hnd & _) & _ & Hl).
    subst n. unfold windowAgents. rewrite Hcd, app_nil_r.
    rewrite (distinct_NoDup _ Hnd), length_map. simpl.
    unfold latched. rewrite Hcd, Hl. split; [done|].
    destruct (_ <=? _)%Z; simpl; lia.
  - apply Forall_cons in Hall as [(Hs & Hrv & Hag) Hall].
    cbn [processReports].
    assert (Hp : processed r w) by done.
    pose proof (processReport_unhealthy_window v r w Hrv Hv Hs Hp) as Hwin.
    assert (Hwf : window_wf v w).
    { intros cd Hcd. destruct (Hinv cd Hcd) as (Hk & _).
      symmetry. by apply consensusKey_inj. }
    destruct (processReport_step v r w Hrv Hwf)
      as (w1 & Hrun & Hst & _ & Hmono & _ & new & Hal & _ & _ & Hlen & _).
    destruct (processReport_frame r w) as (w1' & Hrun' & _ & _ & _ & _ & Hagents).
    rewrite Hrun in Hrun'. injection Hrun' as <-.
    rewrite Hrun in Hwin |- *. cbn [snd] in *.
    specialize (Hlen Hok Hval). specialize (Hmono ltac:(congruence)).
    pose proof Hst as (He & _ & Hth & Hvals & _).
    assert (Hinv1 : window_inv (consensusThreshold w) (consensusKey v)
                      (joined r (consensusThreshold w) v (window v w)))
      by (by apply joined_inv).
    destruct (IH w1) as (Hlat & Hcount); try done.
    { intros cd. rewrite Hwin, Hth. by intros [= <-]. }
    { right. by rewrite Hwin. }
    { by eapply storage_ok_static. }
    { by rewrite Hvals. }
    { by rewrite He. }
    { eapply Forall_impl; [exact Hall|]. intros x (? & ? & Hx). split_and!; try done.
      destruct Hagents as [-> | ->]; [done|]. by apply lookup_alter_is_Some. }
    assert (Hn : distinct (windowAgents v w1 ++ map rep_agentId rest) = n).
    { subst n. apply distinct_ext. intros a. cbn [map].
      rewrite !elem_of_app, elem_of_cons, (windowAgents_joined v r w w1 Hwin). tauto. }
    rewrite Hn, Hth in Hlat, Hcount. split; [done|].
    rewrite Hcount, Hal, length_app, Hlen. unfold transition.
    assert (Hl1 : latched v w1 = true → (consensusThreshold w <=? Z.of_nat n)%Z = true).
    { intros Hl1. unfold latched in Hl1. rewrite Hwin in Hl1.
      destruct Hinv1 as (_ & (_ & Hnd & _) & _ & Hl). rewrite Hl in Hl1.
      apply Z.leb_le in Hl1. apply Z.leb_le.
      pose proof (distinct_app_le (windowAgents v w1) (map rep_agentId rest)) as Hle.
      rewrite Hn in Hle. unfold windowAgents in Hle at 1. rewrite Hwin in Hle.
      rewrite (distinct_NoDup _ Hnd), length_map in Hle. lia. }
    destruct (latched v w) eqn:Hl0.
    + rewrite Hmono by done. simpl. lia.
    + destruct (latched v w1) eqn:Hl1'; simpl.
      * rewrite Hl1 by done. lia.
      * lia.
Qed.

(** X5.  An alert exactly when a quorum of distinct agents has reported.
    Starting without a window for [v], let UNHEALTHY reports of [v] be
    processed one after the other, storage working and [v] being stored:
    afterwards the latch of [v] is set, and one alert has been stored, if
    the number of distinct reporting agents has reached the threshold, and
    otherwise the latch is clear and no alert has been stored. *)
Theorem alert_iff_quorum v rs w :
  v ≠ "" → rs ≠ [] → window v w = None →
  storage_ok w → is_Some (validators (db w) !! v) →
  storageFails (env w) AgentUpdateAggregator = false →
  Forall (fun r => rep_status r = UNHEALTHY ∧ rep_validatorId r = Some v ∧
                   is_Some (agents (db w) !! rep_agentId r)) rs →
  let quorum := (consensusThreshold w <=? Z.of_nat (distinct (map rep_agentId rs)))%Z in
  latched v (processReports rs w) = quorum ∧
  length (alerts (db (processReports rs w))) =
    length (alerts (db w)) + (if quorum then 1 else 0).
Proof.
  intros Hv Hne Hnone Hok Hval Hop Hall.
  destruct (run_quorum v rs w) as (Hlat & Hcount); try done; [by rewrite Hnone|by left|].
  unfold windowAgents, latched in Hlat, Hcount. rewrite Hnone in Hlat, Hcount.
  simpl in Hlat, Hcount. done.
Qed.

(** *** A HEALTHY report closes the window *)

Lemma cancelConsensus_exact v w :
  cancelConsensus v w =
    match window v w with
    | None => (Ok tt, w)
    | Some cd =>
        if storageFails (env w) ReportsMarkCancelled
        then (Throw "storage failure", w)
        else (Ok tt,
              emit (Console (LogConsensusCancelled v))
                (set_activeConsensus (delete (consensusKey v))
                   (emit (WsValidatorUpdate v "healthy" ExtraConsensusCancelled)
                      (set_db (set_agentReports
                                 (update_where (map rep_id (cd_reports cd))
                                    (with_status CONSENSUS_FAILED))) w))))
    end.
Proof.
  unfold cancelConsensus, agentReport_updateMany, window. run_m.
  destruct (activeConsensus w !! consensusKey v) as [cd|]; [|done].
  by destruct (storageFails (env w) ReportsMarkCancelled).
Qed.

(** X6.  A HEALTHY report of [v] that gets past [agent.update] never
    stores an alert.  When [updateMany] works (or no window of [v] is open)
    the window of [v] is gone afterwards, the stored rows held by it are set
    to CONSENSUS_FAILED, the time stamp is pushed on the agent's history,
    and a ["healthy"] update is broadcast exactly when a window was open.
    When a window is open and [updateMany] fails, the window stays as it
    was, latch included, no row changes, nothing is broadcast and the
    history is not extended: the error is only logged. *)
Theorem healthy_report_closes_window r v w :
  rep_status r = HEALTHY → rep_validatorId r = Some v → processed r w →
  ∃ w', processReport r w = (Ok tt, w') ∧
    alerts (db w') = alerts (db w) ∧
    (storageFails (env w) ReportsMarkCancelled = false ∨ window v w = None →
       activeConsensus w' = delete (consensusKey v) (activeConsensus w) ∧
       agentReports (db w') =
         update_where (windowIds v w) (with_status CONSENSUS_FAILED)
                      (agentReports (db w)) ∧
       reportHistory w' =
         <[rep_agentId r := pushed (now w) (default [] (reportHistory w !! rep_agentId r))]>
           (reportHistory w) ∧
       effects w' = effects w ++
         Console (LogProcessingReport (rep_agentId r) HEALTHY) ::
         match window v w with
         | Some _ => [WsValidatorUpdate v "healthy" ExtraConsensusCancelled;
                      Console (LogConsensusCancelled v)]
         | None => []
         end) ∧
    (storageFails (env w) ReportsMarkCancelled = true → is_Some (window v w) →
       activeConsensus w' = activeConsensus w ∧
       agentReports (db w') = agentReports (db w) ∧
       reportHistory w' = reportHistory w ∧
       effects w' = effects w ++
         [Console (LogProcessingReport (rep_agentId r) HEALTHY);
          Console ErrProcessingReport]).
Proof.
  intros Hs Hv Hp.
  destruct (processReport_processed_unfold r w Hp)
    as (W1 & Hac & Hth & Hrows & Hal & He & Hrh & Hnow & Heff & ->).
  unfold try_catch, bind. rewrite Hs, Hv. cbn [default from_option id].
  rewrite cancelConsensus_exact.
  assert (Hwin : window v W1 = window v w) by (unfold window; by rewrite Hac).
  rewrite Hwin, He. unfold windowIds.
  destruct (window v w) as [cd|] eqn:Hcd.
  - destruct (storageFails (env w) ReportsMarkCancelled) eqn:Hfail.
    + run_m. eexists; split; [reflexivity|]. simpl. split_and!; try done.
      * intros [?|?]; congruence.
      * intros _ _. rewrite Hs in Heff. rewrite Heff, <- app_assoc. by split_and!.
    + unfold addToReportHistory. run_m. eexists; split; [reflexivity|]. simpl.
      split_and!; try done.
      intros _. rewrite Hac, Hrows, Hrh, Hnow, Heff, Hs. unfold pushed.
      split_and!; try done. by rewrite <- !app_assoc.
  - unfold addToReportHistory. run_m. eexists; split; [reflexivity|]. simpl.
    split_and!; try done.
    intros _. rewrite Hac, Hrows, Hrh, Hnow, Heff, Hs, update_where_nil. unfold pushed.
    split_and!; try done.
    symmetry. apply delete_id. exact Hcd.
Qed.

(** *** Webhook dispatch *)

Lemma for_each_webhooks_exact event hs : ∀ w,
  Forall (fun h => event ∈ wh_events h) hs →
  for_each hs (triggerWebhook event) w =
    (Ok tt, add_effects (hs ≫= webhookOutput event (env w)) w).
Proof.
  induction hs as [|h hs IH]; intros w Hall.
  - simpl. by rewrite add_effects_nil.
  - apply Forall_cons in Hall as [Hh Hall]. cbn [for_each].
    rewrite bind_cons. unfold webhookOutput at 1.
    unfold bind, triggerWebhook at 1, try_catch, sendWebhook_call.
    rewrite decide_True by done. run_m.
    destruct (webhookDelivers (env w) (wh_id h)); simpl.
    + rewrite IH by done. by rewrite emit_add_effects, add_effects_app.
    + rewrite IH by done. by rewrite !emit_add_effects, !add_effects_app.
Qed.

Lemma triggerWebhooks_exact userId event w :
  triggerWebhooks userId event w =
    (Ok tt, add_effects
              (if storageFails (env w) WebhookFindMany
               then [Console ErrFetchingWebhooks]
               else subscribed userId event w ≫= webhookOutput event (env w)) w).
Proof.
  unfold triggerWebhooks, webhookConfig_findMany. run_m.
  destruct (storageFails (env w) WebhookFindMany); simpl; [done|].
  fold (subscribed userId event w).
  rewrite for_each_webhooks_exact; [done|].
  apply Forall_forall. intros h Hh. unfold subscribed in Hh.
  apply list_elem_of_filter in Hh. tauto.
Qed.

Lemma deliveries_app es1 es2 : deliveries (es1 ++ es2) = deliveries es1 ++ deliveries es2.
Proof. unfold deliveries. by rewrite omap_app. Qed.

Lemma deliveries_output event e hs :
  deliveries (hs ≫= webhookOutput event e) =
    map (fun h => (wh_id h, webhookDelivers e (wh_id h))) hs.
Proof.
  induction hs as [|h hs IH]; [done|].
  rewrite bind_cons, deliveries_app, IH. unfold webhookOutput.
  by destruct (webhookDelivers e (wh_id h)) eqn:Hd; simpl; rewrite Hd.
Qed.

Lemma output_webhook_effect event e hs :
  Forall webhook_effect (hs ≫= webhookOutput event e).
Proof.
  induction hs as [|h hs IH]; [by constructor|].
  rewrite bind_cons. apply Forall_app. split; [|done].
  unfold webhookOutput. destruct (webhookDelivers e (wh_id h)); by repeat constructor.
Qed.

(** X7.  [triggerWebhooks] never throws and changes nothing but the
    output.  When [findMany] works one delivery is attempted for every
    active configuration of the user subscribed to the event, in the order
    of the configurations, a rejected delivery being logged without stopping
    the later ones; when [findMany] fails nothing is delivered and one error
    line is written. *)
Theorem webhooks_reach_every_subscriber userId event w :
  ∃ es, triggerWebhooks userId event w = (Ok tt, add_effects es w) ∧
    es = (if storageFails (env w) WebhookFindMany
          then [Console ErrFetchingWebhooks]
          else subscribed userId event w ≫= webhookOutput event (env w)) ∧
    deliveries es =
      (if storageFails (env w) WebhookFindMany then []
       else map (fun h => (wh_id h, webhookDelivers (env w) (wh_id h)))
                (subscribed userId event w)).
Proof.
  eexists. split; [apply triggerWebhooks_exact|]. split; [done|].
  destruct (storageFails (env w) WebhookFindMany); [done|].
  apply deliveries_output.
Qed.

(** *** Reaching quorum *)

(** X9.  What reaching quorum does, when the validator is stored and
    [findUnique] and [alert.create] work: the latch of the window is set and
    one PENDING alert of the validator and its user is stored, whose message
    counts the reports of the window.  If the following [updateMany] works,
    the stored rows held by the window are marked CONSENSUS_REACHED, the
    ["unhealthy"] update and the alert notification are broadcast in that
    order, and then the webhooks of the validator's user subscribed to
    [validator.unhealthy] are attempted.  If that [updateMany] fails, the
    alert stays stored, no row is marked, and nothing is broadcast or
    delivered: one error line is written. *)
Theorem quorum_stores_alert_then_notifies key cd validator w :
  activeConsensus w !! key = Some cd →
  validators (db w) !! cd_validatorId cd = Some validator →
  storage_ok w →
  let a := mkAlert (genId (env w) (nextId (db w))) (cd_validatorId cd)
             (val_userId validator)
             (alertMessage (val_name validator) (length (cd_reports cd)))
             PENDING (now w) in
  ∃ w' es, reachConsensus key w = (Ok tt, w') ∧
    activeConsensus w' = alter (set_consensusReached true) key (activeConsensus w) ∧
    alerts (db w') = alerts (db w) ++ [a] ∧
    effects w' = effects w ++ es ∧
    if storageFails (env w) ReportsMarkReached
    then agentReports (db w') = agentReports (db w) ∧
         es = [Console ErrReachingConsensus]
    else agentReports (db w') =
           update_where (map rep_id (cd_reports cd)) mark_reached (agentReports (db w)) ∧
         ∃ hooks,
           es = [WsValidatorUpdate (val_id validator) "unhealthy"
                   (ExtraUnhealthy (alert_id a) (length (cd_reports cd)));
                 WsAlertNotification a] ++ hooks ++
                [Console (LogConsensusReached (val_name validator) (alert_id a))] ∧
           Forall webhook_effect hooks ∧
           deliveries hooks =
             (if storageFails (env w) WebhookFindMany then []
              else map (fun h => (wh_id h, webhookDelivers (env w) (wh_id h)))
                       (subscribed (val_userId validator) "validator.unhealthy" w)).
Proof.
  intros Hcd Hval [Hvf Hac] a.
  unfold reachConsensus, validator_findUnique, alert_create, agentReport_updateMany.
  run_m. rewrite lookup_alter_eq, Hcd. simpl. rewrite Hvf. simpl. rewrite Hval. simpl.
  rewrite Hac. simpl.
  destruct (storageFails (env w) ReportsMarkReached) eqn:Hmr; simpl.
  { eexists _, _. split; [reflexivity|]. simpl. split_and!; try done. }
  rewrite triggerWebhooks_exact. unfold modify. simpl.
  eexists _, _. split; [reflexivity|]. simpl. split_and!; try done.
  { rewrite <- !app_assoc. reflexivity. }
  eexists. split; [reflexivity|].
  unfold subscribed. simpl.
  destruct (storageFails (env w) WebhookFindMany).
  - split; [by repeat constructor|done].
  - split; [apply output_webhook_effect|apply deliveries_output].
Qed.

(** *** The report history *)

Lemma addToReportHistory_exact a w :
  addToReportHistory a w =
    (Ok tt, set_reportHistory
              <[a := pushed (now w) (default [] (reportHistory w !! a))]> w).
Proof. reflexivity. Qed.

Lemma pushed_length t l : length l ≤ 100 → length (pushed t l) ≤ 100.
Proof.
  intros Hl. unfold pushed. case_decide as Hd; [|lia].
  destruct l as [|x l]; simpl in *; rewrite ?length_app in *; simpl in *; lia.
Qed.

Lemma pushed_last t l : length l ≤ 100 → last (pushed t l) = Some t.
Proof.
  intros Hl. unfold pushed. case_decide as Hd; [|by rewrite last_snoc].
  destruct l as [|x l]; simpl in *.
  - lia.
  - by rewrite last_snoc.
Qed.

Lemma history_bounded_push a w :
  history_bounded w →
  history_bounded
    (set_reportHistory <[a := pushed (now w) (default [] (reportHistory w !! a))]> w).
Proof.
  intros Hb a' l. simpl. destruct (decide (a' = a)) as [->|Hne].
  - rewrite lookup_insert_eq. intros [= <-]. apply pushed_length.
    destruct (reportHistory w !! a) as [l0|] eqn:Hl0; simpl; [by eapply Hb|lia].
  - rewrite lookup_insert_ne by done. apply Hb.
Qed.

Lemma history_bounded_agree w w' :
  reportHistory w' = reportHistory w → history_bounded w → history_bounded w'.
Proof. unfold history_bounded. by intros ->. Qed.

Lemma processReport_history r w :
  reportHistory (processReport r w).2 = reportHistory w ∨
  reportHistory (processReport r w).2 =
    <[rep_agentId r := pushed (now w) (default [] (reportHistory w !! rep_agentId r))]>
      (reportHistory w).
Proof.
  destruct (processed_dec r w) as [Hp|Hp].
  2:{ left. unfold processReport, try_catch.
      unfold bind at 1, tell at 1, modify at 1.
      set (W0 := emit _ w).
      unfold bind at 1.
      destruct (agent_update_lastSeen_cases AgentUpdateAggregator (rep_agentId r) W0)
        as [[e ->] | (Ha & Hop & _)]; [by run_m|].
      exfalso. apply Hp. by split. }
  destruct (processReport_processed_unfold r w Hp)
    as (W1 & _ & _ & _ & _ & _ & Hrh & Hnow & _ & ->).
  unfold try_catch, bind.
  assert (Hinner : ∃ o w2,
    (match rep_status r with
     | UNHEALTHY => initiateConsensus r
     | HEALTHY => cancelConsensus (default "undefined" (rep_validatorId r))
     | _ => ret tt
     end) W1 = (o, w2) ∧ frame W1 w2).
  { destruct (rep_status r).
    - destruct (cancelConsensus_spec (default "undefined" (rep_validatorId r)) W1)
        as (o & w2 & -> & Hfr & _). eauto.
    - destruct (initiateConsensus_frame r W1) as (w2 & -> & Hfr & _). eauto.
    - exists (Ok tt), W1. auto using frame_refl.
    - exists (Ok tt), W1. auto using frame_refl. }
  destruct Hinner as (o & w2 & -> & ((_ & Hn2 & _) & _ & Hrh2 & _)).
  destruct o as [[]|e].
  - right. rewrite addToReportHistory_exact. simpl. by rewrite Hrh2, Hn2, Hrh, Hnow.
  - left. run_m. by rewrite Hrh2.
Qed.

Lemma cleanupEntry_history entry w :
  reportHistory (cleanupEntry entry w).2 = reportHistory w.
Proof.
  destruct entry as [key cd]. unfold cleanupEntry, agentReport_updateMany. run_m.
  destruct (cd_reports cd) as [|first rest]; [done|].
  destruct (maxAge <? now w - rep_createdAt first)%Z; [|done].
  by destruct (storageFails (env w) ReportsMarkAged).
Qed.

Lemma for_each_cleanup_history entries : ∀ w,
  reportHistory (for_each entries cleanupEntry w).2 = reportHistory w.
Proof.
  induction entries as [|entry entries IH]; intros w; [done|].
  simpl. unfold bind.
  pose proof (cleanupEntry_history entry w) as Hone.
  destruct (cleanupEntry entry w) as [[[]|e] w1]; simpl in *; [|done].
  by rewrite IH.
Qed.

Lemma step_history_bounded w e : history_bounded w → history_bounded (step w e).
Proof.
  intros Hb. destruct e as [req| |t]; simpl.
  - destruct (postReport_shape req w)
      as (res & w' & -> & [(_ & Hrh & _) | Hacc]); cbn [snd].
    { by apply (history_bounded_agree w). }
    destruct Hacc as (agentId & validatorId & status & _ & _ & _ & ->).
    set (row := acceptedRow _ _ _ _ _). set (W := acceptedWorld _ _ _ _ _).
    assert (HbW : history_bounded W) by done.
    destruct (processReport_history row W) as [Hh|Hh].
    + by apply (history_bounded_agree W).
    + intros a l. rewrite Hh. apply (history_bounded_push (rep_agentId row) W HbW).
  - apply (history_bounded_agree w); [|done].
    unfold cleanupOldConsensus, bind, get. apply for_each_cleanup_history.
  - done.
Qed.

(** X8.  The report history is bounded: if every agent's history holds at
    most 100 time stamps, it still does after any requests, sweeps and clock
    ticks; and pushing onto such a history leaves the current time as the
    last of at most 100 time stamps. *)
Theorem report_history_stays_bounded w events :
  history_bounded w →
  history_bounded (runEvents w events) ∧
  ∀ a, ∃ l, reportHistory (addToReportHistory a w).2 !! a = Some l ∧
            last l = Some (now w) ∧ length l ≤ 100.
Proof.
  intros Hb. split.
  - unfold runEvents. revert w Hb.
    induction events as [|e events IH]; intros w Hb; [done|].
    simpl. apply IH. by apply step_history_bounded.
  - intros a. rewrite addToReportHistory_exact. simpl.
    rewrite lookup_insert_eq. eexists. split; [done|].
    assert (length (default [] (reportHistory w !! a)) ≤ 100).
    { destruct (reportHistory w !! a) as [l0|] eqn:Hl0; simpl; [by eapply Hb|lia]. }
    split; [by apply pushed_last | by apply pushed_length].
Qed.

(** *** A repeated report *)

Lemma upsert_present r rs :
  rep_agentId r ∈ map rep_agentId rs →
  map rep_id (upsert r rs) = map rep_id rs ∧
  map rep_agentId (upsert r rs) = map rep_agentId rs.
Proof.
  induction rs as [|x rs IH]; simpl; [by intros ?%elem_of_nil|].
  destruct (decide (rep_agentId x = rep_agentId r)) as [Heq|Hne]; [done|].
  intros [?|Hin]%elem_of_cons; [congruence|]. simpl.
  destruct (IH Hin) as [-> ->]. done.
Qed.

(** X10.  A repeated UNHEALTHY report counts once: when the agent already
    has a report in the window of [v], the window keeps the ids of the rows
    it held (the agent's first row, not the new one), holds the same agents,
    its latch stays as it was, and no alert is stored. *)
Theorem repeated_report_counts_once v r cd w :
  rep_status r = UNHEALTHY → rep_validatorId r = Some v → v ≠ "" → processed r w →
  window v w = Some cd → window_inv (consensusThreshold w) (consensusKey v) cd →
  rep_agentId r ∈ windowAgents v w →
  windowIds v (processReport r w).2 = windowIds v w ∧
  windowAgents v (processReport r w).2 = windowAgents v w ∧
  latched v (processReport r w).2 = latched v w ∧
  alerts (db (processReport r w).2) = alerts (db w).
Proof.
  intros Hs Hv Hne Hp Hcd Hinv Hin.
  pose proof (processReport_unhealthy_window v r w Hv Hne Hs Hp) as Hwin.
  assert (Hwf : window_wf v w).
  { intros cd0 Hcd0. rewrite Hcd in Hcd0. injection Hcd0 as <-.
    destruct Hinv as (Hk & _). symmetry. by apply consensusKey_inj. }
  destruct (processReport_step v r w Hv Hwf)
    as (w1 & Hrun & _ & _ & _ & _ & new & Hal & Hlen & _).
  rewrite Hrun in Hwin |- *. cbn [snd] in *.
  unfold windowAgents in Hin. rewrite Hcd in Hin.
  destruct (upsert_present r (cd_reports cd) Hin) as [Hids Hags].
  assert (Hlat : latched v w1 = latched v w).
  { unfold latched. rewrite Hwin, Hcd. unfold joined. simpl.
    destruct Hinv as (_ & (_ & _ & Hall) & Hth & Hl).
    rewrite (unhealthy_all (upsert r (cd_reports cd)))
      by (by apply upsert_unhealthy).
    rewrite <- (length_map rep_id (upsert _ _)), Hids, length_map, Hth, Hl.
    by destruct (_ <=? _)%Z. }
  unfold windowIds, windowAgents. rewrite Hwin, Hcd. unfold joined. simpl.
  split_and!; try done.
  unfold transition in Hlen. rewrite Hlat in Hlen.
  destruct (latched v w); simpl in Hlen;
    (destruct new; [by rewrite Hal, app_nil_r | simpl in Hlen; lia]).
Qed.

(** *** A request answered 500 *)

(** X11.  A request answered 500 never reaches the aggregator: windows,
    alerts, report history and agents are as before and one error line is
    written.  It may still leave a stored report: when [findUnique] and
    [agentReport.create] worked, the answer is 500 because the handler's
    [agent.update] failed, and the row created for the request stays in
    storage. *)
Theorem server_error_skips_aggregator req w :
  ∃ res w', postReport req w = (Ok res, w') ∧
    (res_status res = 500%Z →
       activeConsensus w' = activeConsensus w ∧ alerts (db w') = alerts (db w) ∧
       reportHistory w' = reportHistory w ∧ agents (db w') = agents (db w) ∧
       effects w' = effects w ++ [Console ErrIngress] ∧
       if storageFails (env w) AgentFindUnique || storageFails (env w) AgentReportCreate
       then agentReports (db w') = agentReports (db w)
       else storageFails (env w) AgentUpdateIngress = true ∧
            ∃ agentId validatorId status,
              req_agentId req = Some agentId ∧
              agentReports (db w') =
                agentReports (db w) ++ [acceptedRow agentId validatorId status req w]).
Proof.
  unfold postReport, try_catch.
  destruct (req_agentId req) as [agentId|] eqn:E1;
    [|eexists _, _; split; [reflexivity|]; simpl; intros [=]].
  destruct (req_agentApiKey req) as [agentApiKey|] eqn:E2;
    [|eexists _, _; split; [reflexivity|]; simpl; intros [=]].
  destruct (req_validatorId req) as [validatorId|] eqn:E3;
    [|eexists _, _; split; [reflexivity|]; simpl; intros [=]].
  destruct (req_status req) as [status|] eqn:E4;
    [|eexists _, _; split; [reflexivity|]; simpl; intros [=]].
  destruct (truthy (Some agentId) && truthy (Some agentApiKey)
            && truthy (Some validatorId) && truthy (Some status)) eqn:Ht; simpl;
    [|eexists _, _; split; [reflexivity|]; simpl; intros [=]].
  destruct (allowedStatus status) as [reportStatus|] eqn:Est;
    [|eexists _, _; split; [reflexivity|]; simpl; intros [=]].
  unfold agent_findUnique. unfold bind at 1. unfold bind at 1. unfold prisma.
  destruct (storageFails (env w) AgentFindUnique) eqn:Hread.
  { run_m. eexists _, _; split; [reflexivity|]. intros _. simpl. by split_and!. }
  unfold bind at 1, get at 1, ret at 1.
  destruct (agents (db w) !! agentId) as [agent|] eqn:Hagent;
    [|eexists _, _; split; [reflexivity|]; simpl; intros [=]].
  destruct (agent_isActive agent) eqn:Hactive; simpl;
    [|eexists _, _; split; [reflexivity|]; simpl; intros [=]].
  destruct (decide (agent_apiKey agent ≠ agentApiKey)) as [Hkey|Hkey];
    [eexists _, _; split; [reflexivity|]; simpl; intros [=]|].
  destruct (match agent_validatorId agent with
            | Some v => validators (db w) !! v
            | None => None
            end) as [v|] eqn:Hval;
    [|eexists _, _; split; [reflexivity|]; simpl; intros [=]].
  destruct (decide (val_id v ≠ validatorId)) as [Hvid|Hvid];
    [eexists _, _; split; [reflexivity|]; simpl; intros [=]|].
  destruct (val_isActive v) eqn:Hvactive; simpl;
    [|eexists _, _; split; [reflexivity|]; simpl; intros [=]].
  unfold agentReport_create. unfold bind at 1. unfold bind at 1. unfold prisma.
  destruct (storageFails (env w) AgentReportCreate) eqn:Hcreate.
  { run_m. eexists _, _; split; [reflexivity|]. intros _. simpl. by split_and!. }
  unfold bind at 1, get at 1. unfold bind at 1, modify at 1. unfold ret at 1.
  fold (acceptedRow agentId validatorId reportStatus req w).
  set (row := acceptedRow agentId validatorId reportStatus req w).
  set (W0 := set_db _ w).
  unfold bind at 1.
  destruct (agent_update_lastSeen_cases AgentUpdateIngress agentId W0)
    as [[e He] | (Ha & Hop & He)]; rewrite He.
  { run_m. eexists _, _; split; [reflexivity|]. intros _. split_and!; try done.
    - revert He. unfold agent_update_lastSeen. run_m.
      destruct (storageFails (env w) AgentUpdateIngress); [done|].
      unfold set_db at 1; simpl. rewrite Hagent. discriminate.
    - by exists agentId, validatorId, reportStatus. }
  unfold bind at 1.
  destruct (processReport_total row (set_db (set_agents
              (alter (touch_lastSeen (now W0)) agentId)) W0)) as [w' Hrun].
  rewrite Hrun. run_m.
  eexists _, _; split; [reflexivity|]. simpl. intros [=].
Qed.

Lemma unhealthy_report_joins_window_witness :
  rep_status (demoReport "r1" "a1" UNHEALTHY) = UNHEALTHY ∧
  processed (demoReport "r1" "a1" UNHEALTHY) demoWorld ∧
  activeConsensus (processReport (demoReport "r1" "a1" UNHEALTHY) demoWorld).2 =
    <[consensusKey "v1" :=
        joined (demoReport "r1" "a1" UNHEALTHY) 2 "v1" (window "v1" demoWorld)]>
      (activeConsensus demoWorld).
Proof.
  assert (Hp : processed (demoReport "r1" "a1" UNHEALTHY) demoWorld).
  { split; [by eexists|reflexivity]. }
  split; [reflexivity|]. split; [exact Hp|].
  destruct (unhealthy_report_joins_window (demoReport "r1" "a1" UNHEALTHY) demoWorld
              eq_refl) as [H _].
  exact (H "v1" eq_refl ltac:(discriminate) Hp).
Defined.

Lemma windows_ok_reachable_witness :
  activeConsensus demoWorld = ∅ ∧
  windows_ok (runEvents demoWorld
                [Request (demoRequest "a1" "UNHEALTHY"); ClockTo (maxAge + 1); Sweep]).
Proof.
  split; [reflexivity|].
  exact (proj1 (windows_ok_reachable demoWorld
                  [Request (demoRequest "a1" "UNHEALTHY"); ClockTo (maxAge + 1); Sweep]
                  eq_refl)).
Defined.

Lemma windowWorld_windows k cd :
  activeConsensus windowWorld !! k = Some cd → k = consensusKey "v1" ∧ cd = demoWindow.
Proof.
  unfold windowWorld. simpl. intros H.
  apply lookup_insert_Some in H as [[<- <-]|[_ H]]; [done|].
  by rewrite lookup_empty in H.
Qed.

Lemma sweep_removes_expired_windows_witness :
  (∀ k cd, activeConsensus (set_now (maxAge + 1) windowWorld) !! k = Some cd →
           cd_reports cd ≠ []) ∧
  ∃ w', cleanupOldConsensus (set_now (maxAge + 1) windowWorld) = (Ok tt, w') ∧
    activeConsensus w' =
      filter (fun kc => expired (maxAge + 1) kc.2 = false) (activeConsensus windowWorld).
Proof.
  assert (H : ∀ k cd, activeConsensus (set_now (maxAge + 1) windowWorld) !! k = Some cd →
                      cd_reports cd ≠ []).
  { intros k cd Hcd. apply windowWorld_windows in Hcd as [_ ->]. discriminate. }
  split; [exact H|].
  destruct (sweep_removes_expired_windows (set_now (maxAge + 1) windowWorld) H)
    as (w' & Hrun & Hac & _).
  exists w'. split; [exact Hrun | exact Hac].
Defined.

Lemma alert_needs_quorum_witness :
  activeConsensus demoWorld = ∅ ∧
  (Z.of_nat (distinct (requesters [Request (demoRequest "a1" "UNHEALTHY");
                                   Request (demoRequest "a1" "UNHEALTHY"); Sweep]))
   < consensusThreshold demoWorld)%Z ∧
  alerts (db (runEvents demoWorld [Request (demoRequest "a1" "UNHEALTHY");
                                   Request (demoRequest "a1" "UNHEALTHY"); Sweep]))
  = alerts (db demoWorld).
Proof.
  assert (H : (Z.of_nat (distinct (requesters [Request (demoRequest "a1" "UNHEALTHY");
                                   Request (demoRequest "a1" "UNHEALTHY"); Sweep]))
               < consensusThreshold demoWorld)%Z) by (by vm_compute).
  split; [reflexivity|]. split; [exact H|].
  exact (proj1 (alert_needs_quorum demoWorld _ eq_refl H)).
Defined.

Lemma alert_iff_quorum_witness :
  window "v1" demoWorld = None ∧ storage_ok demoWorld ∧
  is_Some (validators (db demoWorld) !! "v1") ∧
  Forall (fun r => rep_status r = UNHEALTHY ∧ rep_validatorId r = Some "v1" ∧
                   is_Some (agents (db demoWorld) !! rep_agentId r)) demoReports ∧
  latched "v1" (processReports demoReports demoWorld) = true ∧
  length (alerts (db (processReports demoReports demoWorld))) = 1.
Proof.
  assert (H1 : storage_ok demoWorld) by (by split).
  assert (H2 : is_Some (validators (db demoWorld) !! "v1")) by (by eexists).
  assert (H3 : Forall (fun r => rep_status r = UNHEALTHY ∧ rep_validatorId r = Some "v1" ∧
                   is_Some (agents (db demoWorld) !! rep_agentId r)) demoReports).
  { repeat constructor; by eexists. }
  split; [reflexivity|]. split; [exact H1|]. split; [exact H2|]. split; [exact H3|].
  exact (alert_iff_quorum "v1" demoReports demoWorld ltac:(discriminate)
           ltac:(discriminate) eq_refl H1 H2 eq_refl H3).
Defined.

Lemma healthy_report_closes_window_witness :
  processed (demoReport "r2" "a2" HEALTHY) windowWorld ∧
  ∃ w', processReport (demoReport "r2" "a2" HEALTHY) windowWorld = (Ok tt, w') ∧
    activeConsensus w' = delete (consensusKey "v1") (activeConsensus windowWorld).
Proof.
  assert (Hp : processed (demoReport "r2" "a2" HEALTHY) windowWorld).
  { split; [by eexists|reflexivity]. }
  split; [exact Hp|].
  destruct (healthy_report_closes_window (demoReport "r2" "a2" HEALTHY) "v1" windowWorld
              eq_refl eq_refl Hp) as (w' & Hrun & _ & Hok & _).
  exists w'. split; [exact Hrun|]. exact (proj1 (Hok (or_introl eq_refl))).
Defined.

Lemma report_history_stays_bounded_witness :
  history_bounded demoWorld ∧
  history_bounded (runEvents demoWorld [Request (demoRequest "a1" "HEALTHY")]).
Proof.
  assert (H : history_bounded demoWorld).
  { intros a l Hl. vm_compute in Hl. discriminate Hl. }
  split; [exact H|].
  exact (proj1 (report_history_stays_bounded demoWorld
                  [Request (demoRequest "a1" "HEALTHY")] H)).
Defined.

Lemma quorum_stores_alert_then_notifies_witness :
  activeConsensus windowWorld !! consensusKey "v1" = Some demoWindow ∧
  validators (db windowWorld) !! "v1" = Some (mkValidator "v1" "Val" "u1" true) ∧
  storage_ok windowWorld ∧
  ∃ w' es, reachConsensus (consensusKey "v1") windowWorld = (Ok tt, w') ∧
    length (alerts (db w')) = 1 ∧ effects w' = effects windowWorld ++ es.
Proof.
  assert (H1 : activeConsensus windowWorld !! consensusKey "v1" = Some demoWindow)
    by reflexivity.
  assert (H2 : validators (db windowWorld) !! "v1" = Some (mkValidator "v1" "Val" "u1" true))
    by reflexivity.
  assert (H3 : storage_ok windowWorld) by (by split).
  split; [exact H1|]. split; [exact H2|]. split; [exact H3|].
  destruct (quorum_stores_alert_then_notifies (consensusKey "v1") demoWindow
              (mkValidator "v1" "Val" "u1" true) windowWorld H1 H2 H3)
    as (w' & es & Hrun & _ & Hal & Heff & _).
  exists w', es. split; [exact Hrun|]. split; [|exact Heff].
  rewrite Hal. reflexivity.
Defined.

Lemma demoWindow_inv : window_inv 2 (consensusKey "v1") demoWindow.
Proof.
  split_and!; try done. split_and!; [done|apply NoDup_singleton|by repeat constructor].
Qed.

Lemma repeated_report_counts_once_witness :
  processed (demoReport "r4" "a1" UNHEALTHY) windowWorld ∧
  window "v1" windowWorld = Some demoWindow ∧
  window_inv (consensusThreshold windowWorld) (consensusKey "v1") demoWindow ∧
  rep_agentId (demoReport "r4" "a1" UNHEALTHY) ∈ windowAgents "v1" windowWorld ∧
  windowIds "v1" (processReport (demoReport "r4" "a1" UNHEALTHY) windowWorld).2
    = windowIds "v1" windowWorld ∧
  alerts (db (processReport (demoReport "r4" "a1" UNHEALTHY) windowWorld).2)
    = alerts (db windowWorld).
Proof.
  assert (Hp : processed (demoReport "r4" "a1" UNHEALTHY) windowWorld).
  { split; [by eexists|reflexivity]. }
  assert (Hin : rep_agentId (demoReport "r4" "a1" UNHEALTHY) ∈ windowAgents "v1" windowWorld).
  { vm_compute. left. }
  split; [exact Hp|]. split; [reflexivity|]. split; [exact demoWindow_inv|].
  split; [exact Hin|].
  destruct (repeated_report_counts_once "v1" (demoReport "r4" "a1" UNHEALTHY) demoWindow
              windowWorld eq_refl eq_refl ltac:(discriminate) Hp eq_refl
              demoWindow_inv Hin) as (Hids & _ & _ & Hal).
  split; [exact Hids | exact Hal].
Defined.

(** *** The age of a window *)

(** X24.  The age the sweep measures is the [createdAt] of the first report
    of the window, which only the agent that opened the window moves: after
    a processed UNHEALTHY report the window of [v] is expired at [t] exactly
    when the report is older than ten minutes at [t], if the report opened
    the window or comes from the agent whose report is first in it; a report
    of any other agent leaves the expiry of the window as it was. *)
Theorem first_reporter_sets_window_age v r w t :
  rep_status r = UNHEALTHY → rep_validatorId r = Some v → v ≠ "" → processed r w →
  ∃ cd', window v (processReport r w).2 = Some cd' ∧
    expired t cd' =
      match window v w with
      | Some cd =>
          match cd_reports cd with
          | first :: _ =>
              if decide (rep_agentId first = rep_agentId r)
              then (maxAge <? t - rep_createdAt r)%Z
              else expired t cd
          | [] => (maxAge <? t - rep_createdAt r)%Z
          end
      | None => (maxAge <? t - rep_createdAt r)%Z
      end.
Proof.
  intros Hs Hv Hne Hp.
  rewrite (processReport_unhealthy_window v r w Hv Hne Hs Hp).
  eexists. split; [reflexivity|].
  unfold expired, joined. cbn [cd_reports].
  destruct (window v w) as [cd|]; cbn [default from_option id cd_reports].
  - destruct (cd_reports cd) as [|first rest]; [done|]. cbn [upsert].
    by destruct (decide (rep_agentId first = rep_agentId r)).
  - cbn [upsert]. by rewrite decide_True.
Qed.

Lemma first_reporter_sets_window_age_witness :
  processed (mkReport "r4" "a1" (Some "v1") UNHEALTHY None None false 500000) windowWorld ∧
  ∃ cd', window "v1" (processReport
                        (mkReport "r4" "a1" (Some "v1") UNHEALTHY None None false 500000)
                        windowWorld).2 = Some cd' ∧
    expired 900000 cd' = false.
Proof.
  assert (Hp : processed (mkReport "r4" "a1" (Some "v1") UNHEALTHY None None false 500000)
                 windowWorld).
  { split; [by eexists|reflexivity]. }
  split; [exact Hp|].
  destruct (first_reporter_sets_window_age "v1"
              (mkReport "r4" "a1" (Some "v1") UNHEALTHY None None false 500000)
              windowWorld 900000 eq_refl eq_refl ltac:(discriminate) Hp)
    as (cd' & Hw & He).
  exists cd'. split; [exact Hw|]. rewrite He. reflexivity.
Defined.

End CollectorExtras.

Module QuorumFacts.
Import Collector CollectorFacts CollectorExtras.

(** *** Quorum events and alerts *)















End QuorumFacts.

Module PeerNetworkExtras.
Import PeerNetwork PeerNetworkFacts.

Lemma deliver_peers_wf id e n rs : peers_wf n → peers_wf (deliver id e (n, rs)).1.
Proof.
  intros Hwf. destruct e as [r|p|p]; simpl; [done|..].
  - unfold registerPeer. destruct (decide (peer_id p = agentId n)) as [Heq|Hne]; [done|].
    intros k q. simpl. rewrite lookup_insert_Some. intros [[<- <-]|[Hk Hq]]; [done|].
    rewrite lookup_delete_ne in Hq by done. by apply Hwf.
  - intros k q. simpl. rewrite lookup_delete_Some. intros [_ Hq]. by apply Hwf.
Qed.

Lemma waitFor_peers_wf id events : ∀ n rs,
  peers_wf n → peers_wf (waitFor id events (n, rs)).1.
Proof.
  unfold waitFor. induction events as [|e events IH]; intros n rs Hwf; [done|].
  cbn [foldl]. pose proof (deliver_peers_wf id e n rs Hwf) as H1.
  destruct (deliver id e (n, rs)) as [n1 rs1]. by apply IH.
Qed.

Lemma collected_length rs :
  length (foldl (fun acc r => upsertResponse r acc) [] rs) =
    size (list_to_set (map cr_agentId rs) : gset string).
Proof.
  rewrite <- (length_map cr_agentId).
  rewrite <- (size_list_to_set (C := gset string)) by apply collected_NoDup.
  f_equal. apply set_eq. intros a. rewrite !elem_of_list_to_set.
  induction rs as [|r rs IH] using rev_ind; [done|].
  rewrite foldl_app. simpl. rewrite upsertResponse_agents, IH, map_app, elem_of_app.
  simpl. rewrite list_elem_of_singleton. tauto.
Qed.

(** X12.  The peer map stays well formed while a consensus request waits:
    if every peer is stored under its own id and the agent is not among its
    own peers, the same holds of the network [requestConsensus] leaves
    behind, whatever hellos (the agent's own included), closes and responses
    arrive; [totalPeers] is the size of that map at the time-out, not of the
    map the request was broadcast to; and the request is written to the open
    peers only. *)
Theorem peers_stay_well_formed n uuid request timeoutMs arrivals :
  peers_wf n →
  let out := requestConsensus n uuid request timeoutMs arrivals in
  peers_wf (network out) ∧ agentId (network out) = agentId n ∧
  totalPeers (consensus out) = size (peers (network out)) ∧
  broadcastTo out = (if decide (size (peers n) = 0) then [] else broadcast n).
Proof.
  intros Hwf. unfold requestConsensus.
  destruct (decide (size (peers n) = 0)) as [H0|H0]; simpl.
  { by split_and!. }
  rewrite awaitTimer_arrivedBefore.
  pose proof (waitFor_peers_wf uuid (arrivedBefore (setTimeout timeoutMs) arrivals) n []
                Hwf) as Hwf'.
  destruct (waitFor_responses uuid (arrivedBefore (setTimeout timeoutMs) arrivals) n [])
    as [Hid _].
  destruct (waitFor uuid (arrivedBefore (setTimeout timeoutMs) arrivals) (n, []))
    as [n' collected].
  by split_and!.
Qed.

(** X13.  The responses [requestConsensus] collects are not checked
    against the peers: with at least one peer, it holds as many responses
    as distinct agent ids answered this request before its timer fired -
    within [timeoutMs] when that is in the timer's range of 1 to 2147483647
    ms, within 1 ms otherwise - [agreeCount] being at most that number; and
    the responses and [agreeCount] are the same for any other non-empty peer
    map of the same agent (and any other request body). *)
Theorem responses_do_not_depend_on_peers n uuid request timeoutMs arrivals :
  size (peers n) ≠ 0 →
  let out := requestConsensus n uuid request timeoutMs arrivals in
  let wait := if decide (1 ≤ timeoutMs ≤ 2147483647)%Z then timeoutMs else 1%Z in
  length (responses (consensus out)) =
    size (responders uuid (agentId n) (arrivedBefore wait arrivals)) ∧
  agreeCount (consensus out) ≤ length (responses (consensus out)) ∧
  (∀ n' request', agentId n' = agentId n → size (peers n') ≠ 0 →
     let out' := requestConsensus n' uuid request' timeoutMs arrivals in
     responses (consensus out') = responses (consensus out) ∧
     agreeCount (consensus out') = agreeCount (consensus out)).
Proof.
  intros Hn out wait.
  assert (Hwait : setTimeout timeoutMs = wait) by done.
  destruct (requestConsensus_collected n uuid request timeoutMs arrivals Hn)
    as (_ & _ & Hr & Ha & _).
  fold out in Hr, Ha. rewrite Hwait in Hr.
  split_and!.
  - rewrite Hr. apply collected_length.
  - rewrite Ha. apply length_filter.
  - intros n' request' Hid Hn'.
    destruct (requestConsensus_collected n' uuid request' timeoutMs arrivals Hn')
      as (_ & _ & Hr' & Ha' & _).
    cbv zeta. rewrite Hwait in Hr'. rewrite Ha', Ha, Hr', Hr, Hid. done.
Qed.

Lemma peers_stay_well_formed_witness :
  peers_wf demoNetwork ∧
  peers_wf (network (requestConsensus demoNetwork "uuid-1" demoConsensusRequest 100
                       [(10%Z, PeerHello (mkPeer "a1" true None));
                        (20%Z, PeerHello (mkPeer "a4" true None));
                        (30%Z, PeerClosed "a2")])).
Proof.
  assert (H : peers_wf demoNetwork).
  { intros k p. unfold demoNetwork. simpl. rewrite !lookup_insert_Some, lookup_empty.
    intros [[<- <-]|[_ [[<- <-]|[_ ?]]]]; done. }
  split; [exact H|].
  exact (proj1 (peers_stay_well_formed demoNetwork "uuid-1" demoConsensusRequest 100 _ H)).
Defined.

Lemma responses_do_not_depend_on_peers_witness :
  size (peers demoNetwork) ≠ 0 ∧
  length (responses (consensus
            (requestConsensus demoNetwork "uuid-1" demoConsensusRequest 100
               [(10%Z, ResponseReceived (demoResponse "a9" true));
                (20%Z, ResponseReceived (demoResponse "a9" true))]))) =
    size (responders "uuid-1" (agentId demoNetwork)
            (arrivedBefore 100
               [(10%Z, ResponseReceived (demoResponse "a9" true));
                (20%Z, ResponseReceived (demoResponse "a9" true))])).
Proof.
  assert (H : size (peers demoNetwork) ≠ 0) by (vm_compute; discriminate).
  split; [exact H|].
  exact (proj1 (responses_do_not_depend_on_peers demoNetwork "uuid-1"
                  demoConsensusRequest 100 _ H)).
Defined.

End PeerNetworkExtras.

Module AgentExtras.
Import Probe PeerNetwork Agent AgentFacts.

(** *** Answering a peer's consensus request *)

(** X14.  How an agent answers a peer's consensus request.  It stays
    silent exactly when it has no peer network, the request is for another
    validator, or the request carries no consensus id.  Otherwise its
    response is addressed to the request (same consensus id, the requester's
    id), so the requester's handler stores it; it carries the agent's own
    id; it agrees exactly when the agent's latest health result - the cached
    one if there is one, else a fresh probe - is UNHEALTHY, and carries that
    result as evidence exactly when it agrees.  The agent's reported status
    is never touched, and its state changes only when it had no cached
    result, which the fresh probe then becomes. *)
Theorem consensus_response_rule cfg manual now st request :
  let out := handleIncomingConsensusRequest cfg manual now st request in
  let latest := default manual (lastHealthCheck st) in
  (out.2 = None ↔
     peerNetwork st = None ∨ in_validatorId request ≠ cfg_validatorId cfg ∨
     truthy (in_consensusId request) = false) ∧
  (∀ response, out.2 = Some response →
     addressed (default "" (in_consensusId request)) (in_agentId request) response ∧
     cr_agentId response = cfg_agentId cfg ∧
     cr_validatorId response = in_validatorId request ∧
     (agree response = true ↔ hc_status latest = StatusUnhealthy) ∧
     cr_evidence response = (if agree response then Some latest else None) ∧
     (∀ responses,
        handler (default "" (in_consensusId request)) (in_agentId request)
                response responses = upsertResponse response responses)) ∧
  peerNetwork out.1 = peerNetwork st ∧
  lastReportedStatus out.1 = lastReportedStatus st ∧
  (is_Some (lastHealthCheck st) ∨ out.2 = None → out.1 = st) ∧
  (lastHealthCheck st = None → is_Some out.2 → lastHealthCheck out.1 = Some manual).
Proof.
  cbv zeta. unfold handleIncomingConsensusRequest.
  destruct (peerNetwork st) as [n|] eqn:Hpn.
  2:{ simpl. split_and!; try done; try tauto; try (by intros _ [? ?]). }
  destruct (decide (in_validatorId request ≠ cfg_validatorId cfg)) as [Hv|Hv].
  { simpl. split_and!; try done; try tauto; try (by intros _ [? ?]). }
  destruct (truthy (in_consensusId request)) eqn:Hid; simpl.
  2:{ split_and!; try done; try tauto; try (by intros _ [? ?]). }
  split_and!; try done.
  - split; [done|]. intros [?|[?|?]]; done.
  - intros response [= <-]. simpl. split_and!; try done.
    + by destruct (decide (hc_status (default manual (lastHealthCheck st)) = StatusUnhealthy)).
    + intros responses. unfold handler. by rewrite decide_True.
  - by destruct (lastHealthCheck st) as [last|]; [destruct (_ <? _)%Z|].
  - by destruct (lastHealthCheck st) as [last|]; [destruct (_ <? _)%Z|].
  - intros [[last Hl]|?]; [|done]. rewrite Hl. simpl.
    by rewrite Z.ltb_irrefl.
  - by intros ->.
Qed.

(** *** One peer's vote *)

Lemma one_response n uuid request timeoutMs t response :
  size (peers n) ≠ 0 → (t < setTimeout timeoutMs)%Z →
  addressed uuid (agentId n) response →
  consensus (requestConsensus n uuid request timeoutMs [(t, ResponseReceived response)])
  = mkConsensusResult uuid [response] (if agree response then 1 else 0) (size (peers n)).
Proof.
  intros Hn Ht Ha. unfold requestConsensus.
  destruct (decide (size (peers n) = 0)); [done|].
  unfold awaitTimer, arrive. cbn [foldl fst snd]. rewrite decide_True by done.
  simpl. unfold handler. rewrite decide_True by done. simpl.
  rewrite filter_cons, filter_nil. by destruct (agree response).
Qed.

(** X15.  Two agents.  Agent A probes UNHEALTHY with P2P on and asks its
    peers, its consensus time-out lying in the range of the timer (1 to
    2147483647 ms); agent B watches the same validator and its answer
    reaches A before the time-out, nothing else arriving.  Then A reports
    UNHEALTHY exactly when the threshold is at most 2 if B's latest result
    is UNHEALTHY, and at most 1 otherwise. *)
Theorem peer_vote_decides_report cfgA cfgB stA stB n hr manual now t u env :
  hc_status hr = StatusUnhealthy →
  isP2PEnabled cfgA = true → peerNetwork stA = Some n →
  agentId n = cfg_agentId cfgA → size (peers n) ≠ 0 →
  is_Some (peerNetwork stB) → cfg_validatorId cfgB = hc_validatorId hr →
  uuid env = u → u ≠ "" →
  (1 ≤ getConsensusTimeout cfgA ≤ 2147483647)%Z → (t < getConsensusTimeout cfgA)%Z →
  (∃ response,
     (handleIncomingConsensusRequest cfgB manual now stB
        (mkIncoming (hc_validatorId hr) (cfg_agentId cfgA) (Some u))).2 = Some response ∧
     arrivals env = [(t, ResponseReceived response)]) →
  let votes := if decide (hc_status (default manual (lastHealthCheck stB)) = StatusUnhealthy)
               then 2%Z else 1%Z in
  sent (handleHealthResult cfgA env stA hr).2 =
    if (getConsensusThreshold cfgA <=? votes)%Z then [payloadOf cfgA hr] else [].
Proof.
  intros Hun Hp2p HpnA Hid Hn [nB HpnB] Hv Hu Hne Hrange Ht (response & Hresp & Harr).
  cbv zeta. rewrite <- (PeerNetworkFacts.setTimeout_in_range _ Hrange) in Ht.
  unfold handleIncomingConsensusRequest in Hresp. rewrite HpnB in Hresp.
  cbn [in_validatorId in_consensusId in_agentId] in Hresp.
  rewrite decide_False in Hresp by (intros H; apply H; by symmetry).
  rewrite (proj2 (CollectorFacts.truthy_Some u) Hne) in Hresp.
  simpl in Hresp. injection Hresp as <-.
  unfold handleHealthResult. rewrite Hun.
  destruct (decide (StatusUnhealthy = StatusUnhealthy)) as [_|]; [|done].
  unfold confirmUnhealthyWithPeers. rewrite Hp2p, HpnA, Harr, Hu.
  rewrite one_response; [|done|done|by split].
  cbn [totalPeers agreeCount agree].
  destruct (decide (size (peers n) = 0)); [done|].
  destruct (decide (hc_status (default manual (lastHealthCheck stB)) = StatusUnhealthy));
    simpl; (destruct (getConsensusThreshold cfgA <=? _)%Z; by simpl).
Qed.

(** *** UNHEALTHY results are reported every cycle *)

Lemma cycle_without_peers cfg env st hr :
  isP2PEnabled cfg = false ∨ peerNetwork st = None →
  let out := performMonitoringCycle cfg env st hr in
  peerNetwork out.1 = peerNetwork st ∧
  sent out.2 =
    (if decide (hc_status hr = StatusUnhealthy) then [payloadOf cfg hr]
     else if hasStatusChanged st (hc_status hr) then [payloadOf cfg hr] else []) ∧
  lastReportedStatus out.1 =
    (if (if decide (hc_status hr = StatusUnhealthy) then true
         else hasStatusChanged st (hc_status hr)) && reportAccepted env
     then Some (hc_status hr) else lastReportedStatus st).
Proof.
  intros Hno. cbv zeta. unfold performMonitoringCycle, handleHealthResult.
  change (hasStatusChanged (mkState (peerNetwork st) (Some hr) (lastReportedStatus st))
            (hc_status hr)) with (hasStatusChanged st (hc_status hr)).
  destruct (decide (hc_status hr = StatusUnhealthy)) as [Hun|Hh].
  - unfold confirmUnhealthyWithPeers. cbn [peerNetwork].
    assert (Hc : (match isP2PEnabled cfg, peerNetwork st with
                  | true, Some _ => false | _, _ => true end) = true).
    { destruct Hno as [-> | ->]; [done|]. by destruct (isP2PEnabled cfg). }
    destruct (isP2PEnabled cfg); [destruct (peerNetwork st)|]; try done; simpl;
      destruct (reportAccepted env); split_and!; done.
  - destruct (hasStatusChanged st (hc_status hr)); simpl.
    + destruct (reportAccepted env); by split_and!.
    + by split_and!.
Qed.

(** X16.  Without peers (P2P disabled, or no peer network) UNHEALTHY
    results are never suppressed: along any run of probe results the
    UNHEALTHY reports sent are one per UNHEALTHY result, in order, whatever
    was reported before and whatever the collector answered; and the first
    HEALTHY result after an accepted UNHEALTHY report is reported. *)
Theorem unhealthy_reported_every_cycle cfg cycles : ∀ st,
  isP2PEnabled cfg = false ∨ peerNetwork st = None →
  filter (fun p => pl_status p = StatusUnhealthy) (sent (run cfg st cycles).2) =
    map (fun c => payloadOf cfg c.1)
        (filter (fun c => hc_status c.1 = StatusUnhealthy) cycles) ∧
  (∀ env hr, hc_status hr = StatusHealthy →
     lastReportedStatus st = Some StatusUnhealthy →
     sent (performMonitoringCycle cfg env st hr).2 = [payloadOf cfg hr]).
Proof.
  intros st Hno. split.
  - revert st Hno. induction cycles as [|[hr env] cycles IH]; intros st Hno; [done|].
    cbn [run].
    destruct (cycle_without_peers cfg env st hr Hno) as (Hpn & Hsent & _).
    destruct (performMonitoringCycle cfg env st hr) as [st1 out1]. cbn [fst snd] in *.
    assert (Hno1 : isP2PEnabled cfg = false ∨ peerNetwork st1 = None).
    { destruct Hno as [?|Hn]; [by left|right; by rewrite Hpn]. }
    specialize (IH st1 Hno1).
    destruct (run cfg st1 cycles) as [st2 out2]. cbn [snd] in *.
    rewrite sent_app, filter_app, IH, Hsent, filter_cons. cbn [fst].
    destruct (decide (hc_status hr = StatusUnhealthy)) as [Hun|Hh].
    + rewrite filter_cons, filter_nil. simpl. by rewrite decide_True.
    + destruct (hasStatusChanged st (hc_status hr)); [|done].
      rewrite filter_cons, filter_nil. simpl. by rewrite decide_False.
  - intros env hr Hh Hlast.
    destruct (cycle_without_peers cfg env st hr Hno) as (_ & -> & _).
    rewrite decide_False by congruence.
    unfold hasStatusChanged. rewrite Hlast, Hh. done.
Qed.

Lemma peer_vote_decides_report_witness :
  let env := mkCycleEnv "uuid-1"
               [(10%Z, ResponseReceived
                         (mkConsensusResponse "v1" "uuid-1" true "a2" "a1" 7
                            (Some unhealthyResult)))] 0 true in
  let cfgB := mkConfig "a2" "k" "v1" true 2 120000 in
  let stB := mkState (Some (mkNetwork "a2" ∅)) (Some unhealthyResult) None in
  size (peers demoNetwork) ≠ 0 ∧
  (∃ response,
     (handleIncomingConsensusRequest cfgB healthyResult 7 stB
        (mkIncoming "v1" "a1" (Some "uuid-1"))).2 = Some response ∧
     arrivals env = [(10%Z, ResponseReceived response)]) ∧
  sent (handleHealthResult demoConfig env (initial (Some demoNetwork)) unhealthyResult).2
  = [payloadOf demoConfig unhealthyResult].
Proof.
  intros env cfgB stB.
  assert (H1 : size (peers demoNetwork) ≠ 0) by (vm_compute; discriminate).
  assert (H2 : ∃ response,
     (handleIncomingConsensusRequest cfgB healthyResult 7 stB
        (mkIncoming "v1" "a1" (Some "uuid-1"))).2 = Some response ∧
     arrivals env = [(10%Z, ResponseReceived response)]).
  { eexists. split; reflexivity. }
  split; [exact H1|]. split; [exact H2|].
  exact (peer_vote_decides_report demoConfig cfgB (initial (Some demoNetwork)) stB
           demoNetwork unhealthyResult healthyResult 7 10 "uuid-1" env
           eq_refl eq_refl eq_refl eq_refl H1 ltac:(by eexists) eq_refl eq_refl
           ltac:(discriminate) ltac:(simpl; lia) ltac:(reflexivity) H2).
Defined.

Lemma unhealthy_reported_every_cycle_witness :
  isP2PEnabled (mkConfig "a1" "k" "v1" false 2 120000) = false ∧
  filter (fun p => pl_status p = StatusUnhealthy)
    (sent (run (mkConfig "a1" "k" "v1" false 2 120000) (initial None)
             [(unhealthyResult, quietEnv); (unhealthyResult, quietEnv);
              (healthyResult, quietEnv)]).2) =
  [payloadOf (mkConfig "a1" "k" "v1" false 2 120000) unhealthyResult;
   payloadOf (mkConfig "a1" "k" "v1" false 2 120000) unhealthyResult].
Proof.
  split; [reflexivity|].
  exact (proj1 (unhealthy_reported_every_cycle (mkConfig "a1" "k" "v1" false 2 120000)
                  [(unhealthyResult, quietEnv); (unhealthyResult, quietEnv);
                   (healthyResult, quietEnv)] (initial None) (or_introl eq_refl))).
Defined.

End AgentExtras.

Module ApiClientFacts.
Import ApiClient.

(** *** [retryRequest] *)

Lemma delay_backoff i :
  1 ≤ i → delay (2 ^ (Z.of_nat i - 1) * 1000) = Wait (backoff i).
Proof.
  intros Hi. unfold delay, backoff, setTimeout, TIMEOUT_MAX. f_equal.
  assert (H0 : (0 < 2 ^ (Z.of_nat i - 1))%Z) by (apply Z.pow_pos_nonneg; lia).
  destruct (decide (i ≤ 22)) as [Hle|Hgt].
  - assert (H21 : (2 ^ (Z.of_nat i - 1) ≤ 2 ^ 21)%Z)
      by (apply Z.pow_le_mono_r; lia).
    rewrite decide_True; [done|].
    change (2 ^ 21)%Z with 2097152%Z in H21.
    change (2 ^ 31 - 1)%Z with 2147483647%Z. lia.
  - assert (H22 : (2 ^ 22 ≤ 2 ^ (Z.of_nat i - 1))%Z)
      by (apply Z.pow_le_mono_r; lia).
    rewrite decide_False; [done|].
    change (2 ^ 22)%Z with 4194304%Z in H22.
    change (2 ^ 31 - 1)%Z with 2147483647%Z. lia.
Qed.

Lemma totalBackoff_step i :
  1 ≤ i → totalBackoff (Z.of_nat i) = (totalBackoff (Z.of_nat i - 1) + backoff i)%Z.
Proof.
  intros Hi. unfold totalBackoff, backoff.
  destruct (decide (i ≤ 22)) as [Hle|Hgt].
  - rewrite !Z.min_l, !Z.max_l by lia.
    replace (Z.of_nat i) with (Z.succ (Z.of_nat i - 1)) at 1 by lia.
    rewrite Z.pow_succ_r by lia. lia.
  - rewrite !Z.min_r, !Z.max_r by lia. lia.
Qed.

Lemma retryLoop_all_throw {A} (requestFn : nat -> A + option string) retries n :
  ∀ first lastError done,
  1 ≤ first → allThrow requestFn first n →
  retryLoop requestFn retries n first lastError done =
    (inr (match n with
          | O => lastError
          | S n' =>
              Some (default "Unknown error"
                      (match requestFn (first + n') with
                       | inr thrown => thrown
                       | inl _ => None
                       end))
          end),
     done ++ failedSteps retries first n).
Proof.
  induction n as [|n IH]; intros first lastError done H1 Hall.
  - simpl. by rewrite app_nil_r.
  - cbn [retryLoop failedSteps].
    destruct (Hall first ltac:(lia)) as [thrown Hf]. rewrite Hf.
    assert (Hrest : allThrow requestFn (S first) n).
    { intros i Hi. apply Hall. lia. }
    assert (Herr : match n with
                   | O => Some (default "Unknown error" thrown)
                   | S n' =>
                       Some (default "Unknown error"
                               (match requestFn (S first + n') with
                                | inr thrown => thrown
                                | inl _ => None
                                end))
                   end =
                   Some (default "Unknown error"
                           (match requestFn (first + n) with
                            | inr thrown => thrown
                            | inl _ => None
                            end))).
    { destruct n as [|n']; [by rewrite Nat.add_0_r, Hf|].
      by replace (first + S n') with (S first + n') by lia. }
    rewrite (delay_backoff first H1).
    destruct (Z.of_nat first <? retries)%Z; rewrite IH by (done || lia);
      rewrite Herr, <- ?app_assoc; reflexivity.
Qed.

Lemma retryLoop_first_success {A} (requestFn : nat -> A + option string) retries k :
  ∀ first remaining lastError done response,
  1 ≤ first →
  allThrow requestFn first k → requestFn (first + k) = inl response →
  k < remaining →
  retryLoop requestFn retries remaining first lastError done =
    (inl response, done ++ failedSteps retries first k ++ [Call (first + k)]).
Proof.
  induction k as [|k IH]; intros first remaining lastError done response H1 Hall Hok Hlt.
  - destruct remaining as [|remaining]; [lia|]. cbn [retryLoop failedSteps].
    rewrite Nat.add_0_r in Hok. by rewrite Hok, Nat.add_0_r.
  - destruct remaining as [|remaining]; [lia|]. cbn [retryLoop failedSteps].
    destruct (Hall first ltac:(lia)) as [thrown Hf]. rewrite Hf.
    assert (Hrest : allThrow requestFn (S first) k).
    { intros i Hi. apply Hall. lia. }
    assert (Hok' : requestFn (S first + k) = inl response).
    { by replace (S first + k) with (first + S k) by lia. }
    rewrite (delay_backoff first H1).
    destruct (Z.of_nat first <? retries)%Z;
      rewrite (IH (S first) remaining _ _ response ltac:(lia) Hrest Hok') by lia;
      rewrite <- ?app_assoc; simpl; do 3 f_equal;
      by replace (S (first + k)) with (first + S k) by lia.
Qed.

Lemma calls_app t1 t2 : calls (t1 ++ t2) = calls t1 + calls t2.
Proof. unfold calls. by rewrite filter_app, length_app. Qed.

Lemma waited_app t1 t2 : waited (t1 ++ t2) = (waited t1 + waited t2)%Z.
Proof.
  unfold waited. induction t1 as [|[a|ms] t1 IH]; simpl; [done|done|]. rewrite IH. lia.
Qed.

Lemma calls_failedSteps retries n : ∀ first, calls (failedSteps retries first n) = n.
Proof.
  induction n as [|n IH]; intros first; [done|].
  cbn [failedSteps]. change (Call first :: ?l) with ([Call first] ++ l).
  rewrite !calls_app, IH. by destruct (Z.of_nat first <? retries)%Z.
Qed.

Lemma waited_failedSteps retries n : ∀ first,
  1 ≤ first → (Z.of_nat (first + n) ≤ retries)%Z →
  waited (failedSteps retries first n) =
    (totalBackoff (Z.of_nat first - 1 + Z.of_nat n) - totalBackoff (Z.of_nat first - 1))%Z.
Proof.
  induction n as [|n IH]; intros first H1 Hle.
  - simpl. rewrite Z.add_0_r. lia.
  - cbn [failedSteps].
    assert (Hlt : (Z.of_nat first <? retries)%Z = true) by (apply Z.ltb_lt; lia).
    rewrite Hlt.
    change (Call first :: ?l) with ([Call first] ++ l).
    rewrite !waited_app, IH by lia.
    change (waited [Call first]) with 0%Z.
    change (waited [Wait (backoff first)]) with (backoff first + 0)%Z.
    replace (Z.of_nat (S first) - 1)%Z with (Z.of_nat first) by lia.
    replace (Z.of_nat first - 1 + Z.of_nat (S n))%Z
      with (Z.of_nat first + Z.of_nat n)%Z by lia.
    rewrite (totalBackoff_step first H1). lia.
Qed.

Lemma failedSteps_last retries m : ∀ first,
  Z.of_nat (first + m) = retries →
  failedSteps retries first (S m) = failedSteps retries first m ++ [Call (first + m)].
Proof.
  induction m as [|m IHm]; intros f Hf.
  - cbn [failedSteps]. rewrite Nat.add_0_r in *.
    assert ((Z.of_nat f <? retries)%Z = false) as -> by (apply Z.ltb_ge; lia).
    done.
  - change (failedSteps retries f (S (S m)))
      with (Call f :: (if (Z.of_nat f <? retries)%Z
                       then [Wait (backoff f)] else []) ++
            failedSteps retries (S f) (S m)).
    rewrite (IHm (S f)) by lia.
    replace (S f + m) with (f + S m) by lia.
    change (failedSteps retries f (S m))
      with (Call f :: (if (Z.of_nat f <? retries)%Z
                       then [Wait (backoff f)] else []) ++
            failedSteps retries (S f) m).
    by rewrite <- app_comm_cons, <- !app_assoc.
Qed.

Lemma failedSteps_flat retries k : ∀ first,
  (Z.of_nat (first + k) ≤ retries)%Z →
  failedSteps retries first k =
    flat_map (fun i => [Call i; Wait (backoff i)]) (seq first k).
Proof.
  induction k as [|k IH]; intros first Hle; [done|].
  cbn [failedSteps seq flat_map].
  assert ((Z.of_nat first <? retries)%Z = true) as -> by (apply Z.ltb_lt; lia).
  rewrite (IH (S first)) by lia. done.
Qed.

Lemma totalBackoff_0 : totalBackoff 0 = 0%Z.
Proof. reflexivity. Qed.

Lemma totalBackoff_small m :
  (0 ≤ m ≤ 22)%Z → totalBackoff m = ((2 ^ m - 1) * 1000)%Z.
Proof. intros H. unfold totalBackoff. rewrite Z.min_l, Z.max_l by lia. lia. Qed.

(** X17.  [retryRequest] returns the first response: if the first [k]
    calls throw and call [k + 1] returns, within the effective number of
    retries ([maxRetries], or the configured number when it is absent or 0),
    the response is returned after exactly [k + 1] calls.  After the [i]-th
    failure it waits [2^(i-1)] seconds while [i <= 22], and 1 ms from the
    23rd failure on, whose delay is beyond the range of the timer: for
    [k <= 22] that is [(2^k - 1)] seconds in all, and [k - 22] ms more than
    [(2^22 - 1)] seconds beyond. *)
Theorem retry_returns_first_success {A} (requestFn : nat -> A + option string)
    configMaxRetries maxRetries k response :
  let retries := effectiveRetries configMaxRetries maxRetries in
  allThrow requestFn 1 k → requestFn (S k) = inl response →
  (Z.of_nat (S k) ≤ retries)%Z →
  let out := retryRequest configMaxRetries requestFn maxRetries in
  out.1 = inl response ∧ calls out.2 = S k ∧
  out.2 = flat_map (fun i => [Call i; Wait (if decide (i ≤ 22)
                                            then (2 ^ (Z.of_nat i - 1) * 1000)%Z
                                            else 1%Z)]) (seq 1 k)
          ++ [Call (S k)] ∧
  (k ≤ 22 → waited out.2 = ((2 ^ Z.of_nat k - 1) * 1000)%Z) ∧
  (22 < k → waited out.2 = ((2 ^ 22 - 1) * 1000 + (Z.of_nat k - 22))%Z).
Proof.
  intros retries Hall Hok Hle out. subst out. unfold retryRequest. fold retries.
  clearbody retries.
  assert (Hlt : k < Z.to_nat retries) by lia.
  rewrite (retryLoop_first_success requestFn retries k 1 (Z.to_nat retries) None []
             response ltac:(lia) Hall Hok Hlt).
  cbn [fst snd app].
  assert (Hw : waited (failedSteps retries 1 k ++ [Call (1 + k)]) =
               totalBackoff (Z.of_nat k)).
  { rewrite waited_app, waited_failedSteps by lia.
    change (waited [Call (1 + k)]) with 0%Z.
    replace (Z.of_nat 1 - 1 + Z.of_nat k)%Z with (Z.of_nat k) by lia.
    replace (Z.of_nat 1 - 1)%Z with 0%Z by lia. rewrite totalBackoff_0. lia. }
  split_and!; try done.
  - rewrite calls_app, calls_failedSteps. unfold calls. simpl. lia.
  - f_equal. apply failedSteps_flat. lia.
  - intros Hk. rewrite Hw. apply totalBackoff_small. lia.
  - intros Hk. rewrite Hw. unfold totalBackoff. rewrite Z.min_r, Z.max_r by lia. lia.
Qed.

(** X18.  [retryRequest] gives up: if every call throws, it makes exactly
    as many calls as the effective number of retries; with a positive number
    it throws the last error (["Unknown error"] for a thrown non-Error), no
    wait following the last call, after waiting [(2^(retries - 1) - 1)]
    seconds in all when [retries <= 23], and [retries - 23] ms more than
    [(2^22 - 1)] seconds beyond, the waits from the 23rd failure on taking
    1 ms each; with a number of retries of 0 or less it makes no call and
    throws [undefined]. *)
Theorem retry_gives_up configMaxRetries maxRetries
    {A} (requestFn : nat -> A + option string) :
  let retries := effectiveRetries configMaxRetries maxRetries in
  allThrow requestFn 1 (Z.to_nat retries) →
  let out := retryRequest configMaxRetries requestFn maxRetries in
  calls out.2 = Z.to_nat retries ∧
  ((retries ≤ 0)%Z → out = (inr None, [])) ∧
  ((0 < retries)%Z →
     (∃ thrown, requestFn (Z.to_nat retries) = inr thrown ∧
                out.1 = inr (Some (default "Unknown error" thrown))) ∧
     last out.2 = Some (Call (Z.to_nat retries)) ∧
     ((retries ≤ 23)%Z → waited out.2 = ((2 ^ (retries - 1) - 1) * 1000)%Z) ∧
     ((23 < retries)%Z →
      waited out.2 = ((2 ^ 22 - 1) * 1000 + (retries - 23))%Z)).
Proof.
  intros retries Hall out. subst out. unfold retryRequest. fold retries.
  clearbody retries.
  rewrite (retryLoop_all_throw requestFn retries (Z.to_nat retries) 1 None []
             ltac:(lia) Hall).
  cbn [fst snd app]. split_and!.
  - apply calls_failedSteps.
  - intros Hle. by replace (Z.to_nat retries) with 0 by lia.
  - intros Hpos. destruct (Z.to_nat retries) as [|n] eqn:Hn; [lia|].
    destruct (Hall (S n) ltac:(lia)) as [thrown Hf].
    rewrite (failedSteps_last retries n 1) by lia.
    assert (Hw : waited (failedSteps retries 1 n ++ [Call (1 + n)]) =
                 totalBackoff (retries - 1)).
    { rewrite waited_app, waited_failedSteps by lia.
      change (waited [Call (1 + n)]) with 0%Z.
      replace (Z.of_nat 1 - 1 + Z.of_nat n)%Z with (retries - 1)%Z by lia.
      replace (Z.of_nat 1 - 1)%Z with 0%Z by lia. rewrite totalBackoff_0. lia. }
    split_and!.
    + exists thrown. split; [done|]. simpl. by rewrite Hf.
    + by rewrite last_snoc.
    + intros Hr. rewrite Hw. apply totalBackoff_small. lia.
    + intros Hr. rewrite Hw. unfold totalBackoff. rewrite Z.min_r, Z.max_r by lia. lia.
Qed.

Lemma retry_returns_first_success_witness :
  let requestFn := fun i : nat => if decide (i = 3) then inl "ok" else inr (Some "boom") in
  allThrow requestFn 1 2 ∧ requestFn 3 = inl "ok" ∧
  (Z.of_nat 3 ≤ effectiveRetries 5 None)%Z ∧
  (retryRequest 5 requestFn None).1 = inl "ok" ∧
  waited (retryRequest 5 requestFn None).2 = 3000%Z.
Proof.
  intros requestFn.
  assert (H1 : allThrow requestFn 1 2).
  { intros i Hi. exists (Some "boom"). unfold requestFn. rewrite decide_False; [done|lia]. }
  assert (H3 : (Z.of_nat 3 ≤ effectiveRetries 5 None)%Z) by (vm_compute; discriminate).
  split; [exact H1|]. split; [reflexivity|]. split; [exact H3|].
  destruct (retry_returns_first_success requestFn 5 None 2 "ok" H1 eq_refl H3)
    as (Hr & _ & _ & Hw & _).
  split; [exact Hr | exact (Hw ltac:(lia))].
Defined.

Lemma retry_gives_up_witness :
  let requestFn := fun _ : nat => @inr string _ (Some "boom") in
  allThrow requestFn 1 (Z.to_nat (effectiveRetries 5 (Some 3%Z))) ∧
  calls (retryRequest 5 requestFn (Some 3%Z)).2 = 3 ∧
  waited (retryRequest 5 requestFn (Some 3%Z)).2 = 3000%Z.
Proof.
  intros requestFn.
  assert (H1 : allThrow requestFn 1 (Z.to_nat (effectiveRetries 5 (Some 3%Z)))).
  { intros i Hi. by exists (Some "boom"). }
  split; [exact H1|].
  destruct (retry_gives_up 5 (Some 3%Z) requestFn H1) as (Hc & _ & Hpos).
  split; [exact Hc|].
  destruct (Hpos ltac:(reflexivity)) as (_ & _ & Hw & _).
  exact (Hw ltac:(vm_compute; discriminate)).
Defined.

End ApiClientFacts.

Module WireFacts.
Import Collector CollectorFacts ApiClient.

Lemma requestOf_well_formed cfg hr :
  Agent.cfg_agentId cfg ≠ "" → Agent.cfg_agentApiKey cfg ≠ "" →
  Probe.hc_validatorId hr ≠ "" →
  ¬ malformed (requestOf (Agent.payloadOf cfg hr)).
Proof.
  intros Ha Hk Hv [Hm|Hb].
  - unfold missingField, requestOf, Agent.payloadOf, truthy in Hm. simpl in Hm.
    destruct (decide (Agent.cfg_agentId cfg = "")); [done|].
    destruct (decide (Agent.cfg_agentApiKey cfg = "")); [done|].
    destruct (decide (Probe.hc_validatorId hr = "")); [done|].
    by destruct (Probe.hc_status hr).
  - unfold badStatus, requestOf, Agent.payloadOf in Hb. simpl in Hb.
    by destruct (Probe.hc_status hr).
Qed.

(** X19.  The agent and the collector, end to end.  The body the agent
    posts for a probe result (its ids being set) is never malformed, so the
    collector never answers it 400.  [sendReport] returns true exactly when
    the collector authenticates the agent, finds it registered for the
    active validator, and its own storage calls work - that is, exactly when
    the report was stored and handed to the aggregator; when it returns
    false no window and no alert has changed; and the agent records the
    status as reported exactly when [sendReport] returned true. *)
Theorem report_acknowledged_iff_stored cfg hr w :
  Agent.cfg_agentId cfg ≠ "" → Agent.cfg_agentApiKey cfg ≠ "" →
  Probe.hc_validatorId hr ≠ "" →
  let req := requestOf (Agent.payloadOf cfg hr) in
  ∃ res w', postReport req w = (Ok res, w') ∧
    res_status res ≠ 400%Z ∧
    (sendReport (replyOf res) = true ↔
       ingressOk w ∧ ¬ authFails req w ∧ ¬ scopeFails req w) ∧
    (sendReport (replyOf res) = true → accepted req w res w') ∧
    (sendReport (replyOf res) = false →
       activeConsensus w' = activeConsensus w ∧ alerts (db w') = alerts (db w)) ∧
    ∀ env st,
      Agent.reportAccepted env = sendReport (replyOf res) →
      Agent.lastReportedStatus (Agent.sendHealthReport cfg env st hr).1 =
        if sendReport (replyOf res) then Some (Probe.hc_status hr)
        else Agent.lastReportedStatus st.
Proof.
  intros Ha Hk Hv req.
  pose proof (requestOf_well_formed cfg hr Ha Hk Hv) as Hwell. fold req in Hwell.
  destruct (postReport_cases req w) as (res & w' & Hrun & Hcases).
  exists res, w'. split; [exact Hrun|].
  assert (Hlast : ∀ env st,
      Agent.reportAccepted env = sendReport (replyOf res) →
      Agent.lastReportedStatus (Agent.sendHealthReport cfg env st hr).1 =
        if sendReport (replyOf res) then Some (Probe.hc_status hr)
        else Agent.lastReportedStatus st).
  { intros env st <-. unfold Agent.sendHealthReport. simpl.
    by destruct (Agent.reportAccepted env). }
  assert (Hno : ∀ code, res_status res = code → code ≠ 200%Z →
            sendReport (replyOf res) = false).
  { intros code Hc Hne. unfold sendReport, replyOf. rewrite Hc.
    destruct (_ && _); [|done]. by rewrite decide_False. }
  destruct Hcases as
    [(Hm & Hs & Hw) | [(Hm & Hr & Hs & Hal & Hac0) | [(Hm & Hr & Hau & Hs & Hw) |
    [(Hm & Hr & Hau & Hsc & Hs & Hw) | [(Hm & Hr & Hau & Hsc & Hi & Hs & Hal' & Hac0') |
     (Hm & Hi & Hau & Hsc & Hacc)]]]]]; [done|..].
  - pose proof (Hno _ Hs ltac:(done)) as Hf.
    split_and!; [congruence| |by rewrite Hf|done|exact Hlast].
    rewrite Hf. split; [done|]. intros ((? & _) & _). done.
  - pose proof (Hno _ Hs ltac:(done)) as Hf. subst w'.
    split_and!; [congruence| |by rewrite Hf|done|exact Hlast].
    rewrite Hf. split; [done|]. tauto.
  - pose proof (Hno _ Hs ltac:(done)) as Hf. subst w'.
    split_and!; [congruence| |by rewrite Hf|done|exact Hlast].
    rewrite Hf. split; [done|]. tauto.
  - pose proof (Hno _ Hs ltac:(done)) as Hf.
    split_and!; [congruence| |by rewrite Hf|done|exact Hlast].
    rewrite Hf. split; [done|]. tauto.
  - pose proof Hacc as (?&?&?&?&_&_&_&_&Hres&_).
    assert (Hyes : sendReport (replyOf res) = true) by (by rewrite Hres).
    split_and!; [by rewrite Hres| |done|by rewrite Hyes|exact Hlast].
    by rewrite Hyes.
Qed.

Lemma report_acknowledged_iff_stored_witness :
  Agent.cfg_agentId Agent.demoConfig ≠ "" ∧ Agent.cfg_agentApiKey Agent.demoConfig ≠ "" ∧
  Probe.hc_validatorId Agent.unhealthyResult ≠ "" ∧
  ∃ res w',
    postReport (requestOf (Agent.payloadOf Agent.demoConfig Agent.unhealthyResult))
      demoWorld = (Ok res, w') ∧
    res_status res ≠ 400%Z.
Proof.
  split; [discriminate|]. split; [discriminate|]. split; [discriminate|].
  destruct (report_acknowledged_iff_stored Agent.demoConfig Agent.unhealthyResult
              demoWorld ltac:(discriminate) ltac:(discriminate) ltac:(discriminate))
    as (res & w' & Hrun & H400 & _).
  exists res, w'. split; [exact Hrun | exact H400].
Defined.

End WireFacts.

Module ProbeExtras.
Import Probe ProbeFacts.

Lemma count_app p l1 l2 : count p (l1 ++ l2) = count p l1 + count p l2.
Proof. unfold count. by rewrite filter_app, length_app. Qed.

Lemma count_cons p a l : count p (a :: l) = (if p a then 1 else 0) + count p l.
Proof. unfold count. rewrite filter_cons. by destruct (p a). Qed.

Lemma attempts_budget cfg b T T2 r :
  (∀ i, 0 ≤ took (health b i) ≤ T)%Z → (0 ≤ blockHeadTook b ≤ T2)%Z →
  ∀ attempt lastError clock done,
  let run := attempts cfg b r attempt lastError clock done in
  ∃ more, trace run = done ++ more ∧
    count isGetHealth more ≤ r ∧ count isDelay more ≤ r - 1 ∧
    count isGetBlockHead more = (if isHealthy (result run) then 1 else 0) ∧
    (clock ≤ finishedAt run ≤
       clock + Z.of_nat r * T + Z.of_nat (r - 1) * 1000 + T2)%Z ∧
    bs_timestamp (result run) = finishedAt run.
Proof.
  intros HT HT2. induction r as [|r IH]; intros attempt lastError clock done.
  - simpl. exists []. rewrite app_nil_r. split_and!; try done; lia.
  - cbn [attempts]. cbv zeta.
    pose proof (HT attempt) as Ht.
    assert (Hrt : (0 ≤ Z.of_nat r * T)%Z) by (apply Z.mul_nonneg_nonneg; lia).
    destruct (axios_get _ (outcome (health b attempt))) as [[status statusText]|thrown].
    + destruct (decide (status = 200%Z)) as [->|Hne].
      * simpl. exists [GetHealth attempt; GetBlockHead].
        rewrite <- app_assoc. split_and!; try done; try (unfold count; simpl; lia); lia.
      * destruct (IH (S attempt)
                    (Some ("HTTP " +:+ pretty status +:+ ": " +:+ statusText))
                    (clock + took (health b attempt))%Z (done ++ [GetHealth attempt]))
          as (more & Htr & Hh & Hd & Hb & Htime & Hts).
        exists (GetHealth attempt :: more).
        rewrite !count_cons. cbn [isGetHealth isDelay isGetBlockHead].
        split_and!; [by rewrite Htr, <- app_assoc|lia|lia|by rewrite <- Hb|lia|lia|done].
    + destruct (decide (r ≠ 0)) as [Hr|Hr].
      * destruct (IH (S attempt) (Some (errorMessage thrown))
                    (clock + took (health b attempt) + 1000)%Z
                    ((done ++ [GetHealth attempt]) ++ [Delay 1000]))
          as (more & Htr & Hh & Hd & Hb & Htime & Hts).
        exists (GetHealth attempt :: Delay 1000 :: more).
        rewrite !count_cons. cbn [isGetHealth isDelay isGetBlockHead].
        split_and!; [by rewrite Htr, <- !app_assoc|lia|lia|by rewrite <- Hb|lia|lia|done].
      * destruct (IH (S attempt) (Some (errorMessage thrown))
                    (clock + took (health b attempt))%Z (done ++ [GetHealth attempt]))
          as (more & Htr & Hh & Hd & Hb & Htime & Hts).
        exists (GetHealth attempt :: more).
        rewrite !count_cons. cbn [isGetHealth isDelay isGetBlockHead].
        split_and!; [by rewrite Htr, <- app_assoc|lia|lia|by rewrite <- Hb|lia|lia|done].
Qed.

(** X20.  The cost of a probe: with [n = healthCheckRetries] it makes at
    most [n] health requests and at most [n - 1] one-second delays, and
    fetches the block head exactly when the result is HEALTHY; if every
    health request takes at most [T] and the block-head request at most
    [T2], the probe takes at most [n * T + (n - 1) * 1000 + T2]; the result's
    time stamp is the time the probe ended; and with [n = 0] nothing is
    requested and the result is UNHEALTHY at once. *)
Theorem probe_stays_within_budget cfg b startTime T T2 :
  (∀ i, 0 ≤ took (health b i) ≤ T)%Z → (0 ≤ blockHeadTook b ≤ T2)%Z →
  let n := Z.to_nat (healthCheckRetries cfg) in
  let out := performHealthCheck cfg b startTime in
  count isGetHealth out.2 ≤ n ∧ count isDelay out.2 ≤ n - 1 ∧
  count isGetBlockHead out.2 = (if decide (hc_status out.1 = StatusHealthy) then 1 else 0) ∧
  (0 ≤ hc_responseTime out.1 ≤ Z.of_nat n * T + Z.of_nat (n - 1) * 1000 + T2)%Z ∧
  hc_timestamp out.1 = (startTime + hc_responseTime out.1)%Z ∧
  (n = 0 → out.2 = [] ∧ hc_status out.1 = StatusUnhealthy ∧ hc_responseTime out.1 = 0%Z).
Proof.
  intros HT HT2 n out. subst out. unfold performHealthCheck, checkBeaconNodeHealth.
  fold n. cbn [fst snd hc_status hc_responseTime hc_timestamp].
  destruct (attempts_budget cfg b T T2 n HT HT2 1 None startTime [])
    as (more & Htr & Hh & Hd & Hb & Htime & Hts).
  cbv zeta in *. rewrite Htr. cbn [app].
  split_and!; try done; try lia.
  - rewrite Hb. by destruct (isHealthy _).
  - intros Hn. rewrite Hn in *. simpl in Htr. simpl. split_and!; try done. lia.
Qed.

Lemma probe_stays_within_budget_witness :
  (∀ i, 0 ≤ took (health (steadyBeacon 503 "Service Unavailable") i) ≤ 5)%Z ∧
  (0 ≤ blockHeadTook (steadyBeacon 503 "Service Unavailable") ≤ 3)%Z ∧
  let out := performHealthCheck demoProbeConfig (steadyBeacon 503 "Service Unavailable") 0 in
  count isGetHealth out.2 ≤ 3 ∧ count isDelay out.2 ≤ 2 ∧
  (0 ≤ hc_responseTime out.1 ≤ 3 * 5 + 2 * 1000 + 3)%Z.
Proof.
  assert (H1 : ∀ i, (0 ≤ took (health (steadyBeacon 503 "Service Unavailable") i) ≤ 5)%Z)
    by (intros i; simpl; lia).
  assert (H2 : (0 ≤ blockHeadTook (steadyBeacon 503 "Service Unavailable") ≤ 3)%Z)
    by (simpl; lia).
  split; [exact H1|]. split; [exact H2|].
  destruct (probe_stays_within_budget demoProbeConfig
              (steadyBeacon 503 "Service Unavailable") 0 5 3 H1 H2)
    as (Hh & Hd & _ & Ht & _).
  split; [exact Hh|]. split; [exact Hd|]. exact Ht.
Defined.

End ProbeExtras.

Module WebhookExtras.
Import Webhook WebhookFacts.

Lemma standard_headers_pass n rest :
  invalidHeader ([("Content-Type", HeaderText "application/json");
                  ("Content-Length", HeaderNumber n);
                  ("User-Agent", HeaderText "Sentinel-Webhook/1.0")] ++ rest)
  = invalidHeader rest.
Proof. reflexivity. Qed.

Lemma validHeaderValue_cons c rest :
  validHeaderValue (String c rest) =
    let b := Ascii.nat_of_ascii c in
    if (b =? 9) || ((32 <=? b) && (b <=? 126)) then validHeaderValue rest
    else if (b =? 194) || (b =? 195) then
      match rest with
      | String d rest' =>
          let e := Ascii.nat_of_ascii d in
          (128 <=? e) && (e <=? 191) && validHeaderValue rest'
      | EmptyString => false
      end
    else false.
Proof. by destruct rest. Qed.

(** A value with a line feed in it is refused, wherever the line feed
    stands. *)
Lemma line_feed_refused s2 : ∀ s1,
  validHeaderValue (s1 +:+ String lineFeed s2) = false ∧
  ∀ c, validHeaderValue (String c (s1 +:+ String lineFeed s2)) = false.
Proof.
  induction s1 as [|a s1 [IH1 IH2]].
  - assert (H0 : validHeaderValue (String lineFeed s2) = false) by reflexivity.
    split; [exact H0|]. intros c.
    change ("" +:+ String lineFeed s2) with (String lineFeed s2).
    rewrite validHeaderValue_cons, H0. cbv zeta.
    destruct (_ || _); [done|]. by destruct (_ || _).
  - split; [apply IH2|]. intros c.
    change (String a s1 +:+ String lineFeed s2)
      with (String a (s1 +:+ String lineFeed s2)).
    rewrite validHeaderValue_cons, (IH2 a). cbv beta iota zeta. rewrite IH1.
    destruct (_ || _); [done|]. destruct (_ || _); [|done].
    by rewrite andb_false_r.
Qed.

(** The headers of a request pass [http.request] exactly when the secret,
    if one is set, and the signature made with it do. *)
Lemma headers_pass (secret : option string) (digest : string) n :
  invalidHeader
    ([("Content-Type", HeaderText "application/json");
      ("Content-Length", HeaderNumber n);
      ("User-Agent", HeaderText "Sentinel-Webhook/1.0")]
     ++ (if truthy (if negb (truthy secret) then None else Some digest)
         then [("X-Sentinel-Signature",
                HeaderText (default "" (if negb (truthy secret) then None
                                        else Some digest)))]
         else [])
     ++ (if truthy secret
         then [("X-Sentinel-Secret", HeaderText (default "" secret))] else []))
  = None ↔
  truthy secret && negb (validHeaderValue (default "" secret) && validHeaderValue digest)
  = false.
Proof.
  rewrite standard_headers_pass.
  destruct (truthy secret) eqn:Hs; cbn [negb andb]; [|done].
  unfold truthy at 1. destruct (decide (digest = "")) as [->|Hd]; cbn [app default].
  - cbn [invalidHeader headerValueOk validHeaderValue from_option].
    rewrite andb_true_r. by destruct (validHeaderValue _).
  - cbn [invalidHeader headerValueOk from_option id].
    destruct (validHeaderValue digest); [|by rewrite andb_false_r].
    rewrite andb_true_r. by destruct (validHeaderValue _).
Qed.

(** X21.  What [sendWebhook] writes and how it settles.  If the URL does
    not parse, or if a secret is set and the secret or the signature made
    with it holds a character that [http.request] refuses in a header value
    (anything but tab, U+0020 to U+007E and U+0080 to U+00FF: a line feed,
    for one), nothing is written and the promise rejects.  Otherwise one
    POST is written to the host and path of the URL, over TLS exactly when
    the protocol is [https:], to the port of the URL or else 443 or 80, with
    the JSON text as body, its length as [Content-Length], and a time-out of
    10 s; the promise resolves to true exactly when a response with a status
    in [200, 300) arrives.  It never resolves to false. *)
Theorem delivery_outcome {Payload : Type}
    (hmacSha256Hex : string → string → string)
    (JSON_stringify : Payload → string) (parseUrl : string → option Url)
    (webhook : Collector.WebhookConfig) (payload : Payload)
    (net : HttpRequest → Delivery) :
  let out := sendWebhook hmacSha256Hex JSON_stringify parseUrl webhook payload net in
  let secret := default "" (Collector.wh_secret webhook) in
  let refused :=
    truthy (Collector.wh_secret webhook) &&
    negb (validHeaderValue secret &&
          validHeaderValue (hmacSha256Hex secret (JSON_stringify payload))) in
  (parseUrl (Collector.wh_url webhook) = None ∨ refused = true →
     out.1 = None ∧ ∃ e, out.2 = inr e) ∧
  (∀ url, parseUrl (Collector.wh_url webhook) = Some url → refused = false →
     ∃ req, out.1 = Some req ∧
       rq_method req = "POST" ∧ rq_body req = JSON_stringify payload ∧
       rq_timeout req = 10000%Z ∧
       rq_hostname req = hostname url ∧ rq_path req = pathname url +:+ search url ∧
       (rq_https req = true ↔ protocol url = "https:") ∧
       rq_port req = (if decide (port url = "") then
                        inr (if rq_https req then 443 else 80)
                      else inl (port url)) ∧
       header "Content-Type" req = Some (HeaderText "application/json") ∧
       header "Content-Length" req =
         Some (HeaderNumber (String.length (JSON_stringify payload))) ∧
       (out.2 = inl true ↔
        ∃ code data, net req = Responded (Some code) data ∧ 200 ≤ code < 300)) ∧
  out.2 ≠ inl false ∧
  (∀ s1 s2, Collector.wh_secret webhook = Some (s1 +:+ String lineFeed s2) →
     refused = true).
Proof.
  cbv zeta. unfold sendWebhook, generateSignature.
  split_and!.
  - intros [Hnone|Hbad].
    + rewrite Hnone. simpl. eauto.
    + destruct (parseUrl (Collector.wh_url webhook)) as [url|]; [|simpl; eauto].
      cbn [rq_headers].
      match goal with |- context [invalidHeader ?h] =>
        destruct (invalidHeader h) as [name|] eqn:Hinv end; [simpl; eauto|].
      apply headers_pass in Hinv. congruence.
  - intros url Hurl Hgood. rewrite Hurl. cbn [rq_headers].
    apply headers_pass with (n := String.length (JSON_stringify payload)) in Hgood.
    rewrite Hgood.
    eexists. split; [reflexivity|]. cbn.
    split_and!; try done.
    + by destruct (decide (protocol url = "https:")).
    + by destruct (decide (port url = "")).
    + match goal with |- context [net ?r] => destruct (net r) as [[code|] data|msg|] end;
        try (split; [done|by intros (?&?&?&?)]).
      destruct (decide (200 ≤ code < 300)) as [Hc|Hc].
      * split; [|done]. intros _. by exists code, data.
      * split; [done|]. intros (code' & data' & [= <- <-] & Hc'). done.
  - destruct (parseUrl (Collector.wh_url webhook)) as [url|]; [|done].
    cbn [rq_headers].
    match goal with |- context [invalidHeader ?h] =>
      destruct (invalidHeader h) as [name|] end; [done|]. cbn [snd].
    match goal with |- context [net ?r] => destruct (net r) as [[code|] data|msg|] end;
      try done.
    by destruct (decide (200 ≤ code < 300)).
  - intros s1 s2 ->. cbn [default from_option id].
    rewrite (proj1 (line_feed_refused s2 s1)). cbn [andb negb].
    rewrite andb_true_r. unfold truthy.
    destruct (decide (s1 +:+ String lineFeed s2 = "")) as [He|]; [|done].
    by destruct s1.
Qed.

(** X22.  The secret travels with the request.  Without a secret (absent
    or empty) a request carries neither [X-Sentinel-Signature] nor
    [X-Sentinel-Secret], and [validateSignature] rejects every signature.
    With a secret, the request carries the secret itself in
    [X-Sentinel-Secret]; with it any body can be signed so that
    [validateSignature] accepts. *)
Theorem secret_travels_with_request {Payload : Type}
    (hmacSha256Hex : string → string → string)
    (JSON_stringify : Payload → string) (parseUrl : string → option Url)
    (webhook : Collector.WebhookConfig)
    (payload : Payload) (net : HttpRequest → Delivery) (req : HttpRequest)
    (settled : bool + string) :
  (∀ key message, String.length (hmacSha256Hex key message) = 64) →
  sendWebhook hmacSha256Hex JSON_stringify parseUrl webhook payload net
    = (Some req, settled) →
  (truthy (Collector.wh_secret webhook) = false →
     header "X-Sentinel-Signature" req = None ∧
     header "X-Sentinel-Secret" req = None ∧
     ∀ body signature,
       validateSignature hmacSha256Hex body signature (Collector.wh_secret webhook)
       = false) ∧
  (truthy (Collector.wh_secret webhook) = true →
     ∃ secret, Collector.wh_secret webhook = Some secret ∧
       header "X-Sentinel-Secret" req = Some (HeaderText secret) ∧
       ∀ body,
         validateSignature hmacSha256Hex body
           (generateSignature hmacSha256Hex body (Some secret)) (Some secret) = true).
Proof.
  intros Hlen Hsend. unfold sendWebhook, generateSignature in Hsend.
  destruct (parseUrl (Collector.wh_url webhook)) as [url|]; [|discriminate].
  cbv zeta in Hsend.
  match type of Hsend with context [invalidHeader ?h] =>
    destruct (invalidHeader h) as [name|] end; [discriminate|].
  injection Hsend as <- _. split.
  - intros Hno. rewrite Hno. cbn [negb truthy app]. split_and!; try done.
    intros body signature. unfold validateSignature. by rewrite Hno.
  - intros Hyes. pose proof (truthy_default _ Hyes) as Hs.
    set (secret := default "" (Collector.wh_secret webhook)) in *.
    exists secret. split; [done|]. rewrite Hyes. cbn [negb].
    split.
    + unfold header. cbn [rq_headers].
      rewrite (digest_truthy _ (Hlen secret (JSON_stringify payload))).
      reflexivity.
    + intros body. unfold validateSignature, generateSignature.
      rewrite <- Hs, Hyes. cbn [negb default from_option id].
      rewrite (digest_truthy _ (Hlen _ body)). fold secret. simpl.
      by destruct (decide _).
Qed.

Lemma secret_travels_with_request_witness :
  (∀ key message, String.length (toyDigest key message) = 64) ∧
  ∃ req settled,
    sendWebhook toyDigest (fun p : string => p) toyParseUrl demoWebhook
                "{}" (fun _ => TimedOut) = (Some req, settled) ∧
    header "X-Sentinel-Secret" req = Some (HeaderText "s3cr3t").
Proof.
  assert (Hlen : ∀ key message, String.length (toyDigest key message) = 64).
  { intros key message. unfold toyDigest.
    destruct (Nat.even (String.length key + String.length message)); reflexivity. }
  split; [exact Hlen|].
  destruct (sendWebhook toyDigest (fun p : string => p) toyParseUrl demoWebhook
              "{}" (fun _ => TimedOut)) as [[req|] settled] eqn:Hsend;
    [|vm_compute in Hsend; discriminate Hsend].
  destruct (secret_travels_with_request toyDigest (fun p : string => p) toyParseUrl
              demoWebhook "{}" (fun _ => TimedOut) req settled Hlen Hsend) as [_ H].
  destruct (H eq_refl) as (secret & Hsec & Hhdr & _).
  exists req, settled. split; [reflexivity|].
  injection Hsec as <-. exact Hhdr.
Defined.

End WebhookExtras.

Module WebSocketFacts.
Import WebSocketService.

Lemma broadcast_fold l : ∀ sent (m : gmap string bool),
  (foldl broadcastStep (sent, m) l).1 =
    sent ++ map fst (filter (fun c => c.2 = true) l) ∧
  ∀ k, (foldl broadcastStep (sent, m) l).2 !! k =
       if decide (k ∈ (filter (fun c => c.2 ≠ true) l).*1) then None else m !! k.
Proof.
  induction l as [|[id open] l IH]; intros sent m.
  - simpl. by rewrite app_nil_r.
  - cbn [foldl]. unfold broadcastStep at 2. cbn [fst snd].
    rewrite !filter_cons. cbn [snd].
    destruct open.
    + destruct (IH (sent ++ [id]) m) as [-> Hm].
      rewrite decide_True by done. rewrite decide_False by (intros H; by apply H).
      split; [by rewrite <- app_assoc|done].
    + destruct (IH sent (delete id m)) as [-> Hm].
      rewrite decide_False by done. rewrite decide_True by done.
      split; [done|]. intros k. rewrite Hm, fmap_cons. cbn [fst].
      destruct (decide (k = id)) as [->|Hk].
      * rewrite (decide_True (P := id ∈ id :: _)) by left.
        rewrite lookup_delete_eq. by destruct (decide _).
      * rewrite lookup_delete_ne by done.
        destruct (decide (k ∈ _)) as [Hin|Hin].
        -- by rewrite decide_True by (by right).
        -- rewrite decide_False; [done|]. rewrite elem_of_cons. tauto.
Qed.

Lemma delete_fold ids : ∀ (m : gmap string bool) k,
  foldl (fun m clientId => delete clientId m) m ids !! k =
    if decide (k ∈ ids) then None else m !! k.
Proof.
  induction ids as [|id ids IH]; intros m k; [done|].
  cbn [foldl]. rewrite IH.
  destruct (decide (k = id)) as [->|Hk].
  - rewrite (decide_True (P := id ∈ id :: _)) by left.
    rewrite lookup_delete_eq. by destruct (decide _).
  - rewrite lookup_delete_ne by done.
    destruct (decide (k ∈ ids)) as [Hin|Hin].
    + by rewrite decide_True by (by right).
    + rewrite decide_False; [done|]. rewrite elem_of_cons. tauto.
Qed.

Lemma dead_removed (clients : gmap string bool) (m' : gmap string bool) :
  (∀ k, m' !! k =
        if decide (k ∈ (filter (fun c => c.2 ≠ true) (map_to_list clients)).*1)
        then None else clients !! k) →
  m' = filter (fun c => c.2 = true) clients.
Proof.
  intros Hm. apply map_eq. intros k. rewrite Hm. apply option_eq. intros open.
  rewrite map_lookup_filter_Some. cbn [snd].
  destruct (decide (k ∈ _)) as [Hin|Hin].
  - split; [done|]. intros [Hk ->]. exfalso.
    apply list_elem_of_fmap in Hin as ([k' o] & -> & Hin').
    apply list_elem_of_filter in Hin' as [Ho Hin']. cbn [snd fst] in *.
    apply elem_of_map_to_list in Hin'. congruence.
  - split; [|by intros [? ?]]. intros Hk. split; [done|].
    destruct open; [done|]. exfalso. apply Hin.
    apply list_elem_of_fmap. exists (k, false). split; [done|].
    apply list_elem_of_filter. split; [done|]. by apply elem_of_map_to_list.
Qed.

Lemma filter_split {A} (P : A → Prop) `{!∀ x, Decision (P x)} (l : list A) :
  length l = length (filter P l) + length (filter (fun x => ¬ P x) l).
Proof.
  induction l as [|x l IH]; [done|]. rewrite !filter_cons.
  destruct (decide (P x)); simpl.
  - rewrite decide_False by tauto. lia.
  - rewrite decide_True by done. simpl. lia.
Qed.

(** X23.  [broadcast] and [cleanup] of the dashboard socket.  A broadcast
    writes to exactly the clients whose socket is open, each once, and
    leaves exactly those in the map; [cleanup] leaves the same map and
    returns the number of clients it removed, so the connection count before
    is that number plus the count after; after a broadcast a second one
    removes nobody and reaches the same clients, and [cleanup] returns 0. *)
Theorem broadcast_evicts_dead_clients (clients : gmap string bool) :
  let out := broadcast clients in
  out.2 = filter (fun c => c.2 = true) clients ∧
  (∀ id, id ∈ out.1 ↔ clients !! id = Some true) ∧ NoDup out.1 ∧
  length out.1 = getConnectionCount out.2 ∧
  (cleanup clients).2 = out.2 ∧
  getConnectionCount clients = (cleanup clients).1 + getConnectionCount out.2 ∧
  (broadcast out.2).2 = out.2 ∧ (∀ id, id ∈ (broadcast out.2).1 ↔ id ∈ out.1) ∧
  (cleanup out.2).1 = 0.
Proof.
  assert (Hb : ∀ m : gmap string bool,
            (broadcast m).1 = map fst (filter (fun c => c.2 = true) (map_to_list m)) ∧
            (broadcast m).2 = filter (fun c => c.2 = true) m).
  { intros m. unfold broadcast.
    destruct (broadcast_fold (map_to_list m) [] m) as [H1 H2]. split; [done|].
    by apply dead_removed. }
  assert (Hlen : ∀ m : gmap string bool,
            length (filter (fun c : string * bool => c.2 = true) (map_to_list m)) =
              size (filter (fun c : string * bool => c.2 = true) m)).
  { intros m. rewrite (map_filter_alt _ m), map_size_list_to_map; [done|].
    eapply sublist_NoDup; [apply (NoDup_fst_map_to_list m)|].
    apply fmap_sublist, sublist_filter. }
  assert (Hopen : ∀ m : gmap string bool, (∀ k o, m !! k = Some o → o = true) →
            filter (fun c : string * bool => c.2 = true) m = m ∧
            filter (fun c : string * bool => c.2 ≠ true) (map_to_list m) = []).
  { intros m Hall. split.
    - apply map_eq. intros k. apply option_eq. intros o.
      rewrite map_lookup_filter_Some. cbn [snd]. split; [by intros [? ?]|].
      intros Hk. split; [done|]. by eapply Hall.
    - assert (Hl : ∀ l : list (string * bool), (∀ x, x ∈ l → x.2 = true) →
                filter (fun c : string * bool => c.2 ≠ true) l = []).
      { induction l as [|x l IH]; intros Hx; [done|].
        rewrite filter_cons, decide_False.
        - apply IH. intros y Hy. apply Hx. by right.
        - intros Hne. apply Hne, Hx. by left. }
      apply Hl. intros [k o] Hin. apply elem_of_map_to_list in Hin. by eapply Hall. }
  assert (Hall : ∀ k o,
            filter (fun c : string * bool => c.2 = true) clients !! k = Some o → o = true).
  { intros k o. rewrite map_lookup_filter_Some. by intros [_ ?]. }
  cbv zeta. destruct (Hb clients) as [H1 H2]. rewrite H1, H2.
  destruct (Hb (filter (fun c : string * bool => c.2 = true) clients)) as [H1' H2'].
  destruct (Hopen _ Hall) as [Hsame Hnil].
  rewrite H1', H2'.
  unfold getConnectionCount, cleanup. cbn [fst snd].
  split_and!.
  - done.
  - intros id. rewrite list_elem_of_fmap. split.
    + intros ([k o] & -> & Hin). apply list_elem_of_filter in Hin as [Ho Hin].
      cbn [fst snd] in *. apply elem_of_map_to_list in Hin. by subst.
    + intros Hid. exists (id, true). split; [done|].
      apply list_elem_of_filter. split; [done|]. by apply elem_of_map_to_list.
  - eapply sublist_NoDup; [apply (NoDup_fst_map_to_list clients)|].
    apply fmap_sublist, sublist_filter.
  - by rewrite length_map, Hlen.
  - apply dead_removed. intros k. apply delete_fold.
  - rewrite length_map, <- Hlen, <- length_map_to_list.
    rewrite (filter_split (fun c : string * bool => c.2 = true) (map_to_list clients)).
    lia.
  - exact Hsame.
  - intros id. rewrite !list_elem_of_fmap. split.
    + intros ([k o] & -> & Hin). apply list_elem_of_filter in Hin as [Ho Hin].
      cbn [fst snd] in *. apply elem_of_map_to_list in Hin.
      apply map_lookup_filter_Some in Hin as [Hin _].
      exists (k, o). split; [done|]. apply list_elem_of_filter. split; [done|].
      by apply elem_of_map_to_list.
    + intros ([k o] & -> & Hin). apply list_elem_of_filter in Hin as [Ho Hin].
      cbn [fst snd] in *. apply elem_of_map_to_list in Hin.
      exists (k, o). split; [done|]. apply list_elem_of_filter. split; [done|].
      apply elem_of_map_to_list. by apply map_lookup_filter_Some.
  - by rewrite Hnil.
Qed.

End WebSocketFacts.

